(** * Prachar.ai: the campaign form, the simulated Bedrock adapter and the
    pseudocode of the ContentGenie design document, embedded in Rocq.

  Sources embedded here:
  - [prachar-ai/src/app/page.tsx]   (module [Page])
  - the simulated Bedrock adapter   (module [Bedrock])
  - [design.md], the pseudocode of the orchestrator, the generator
    Lambdas and the error handling  (module [Design])

  Strings are JavaScript strings throughout: sequences of UTF-16 code
  units. The pseudocode of the design document uses template literals
  and [startsWith], and is read with the same strings. *)

From Stdlib Require Import NArith List String Ascii Lia DecimalString DecimalNat
  Permutation.
From stdpp Require Import gmap strings list.

(** ** JavaScript strings *)

Module JS.

Definition jsstring := list N.

(** ECMAScript [WhiteSpace] and [LineTerminator] code points: what
    [String.prototype.trim] strips and what the regex class [\s] matches. *)
Definition isWhiteSpace (c : N) : bool :=
  ((9 <=? c) && (c <=? 13) || (c =? 32) || (c =? 0xA0) || (c =? 0x1680)
   || (0x2000 <=? c) && (c <=? 0x200A) || (c =? 0x2028) || (c =? 0x2029)
   || (c =? 0x202F) || (c =? 0x205F) || (c =? 0x3000) || (c =? 0xFEFF))%N.

Fixpoint trimStart (s : jsstring) : jsstring :=
  match s with
  | c :: s' => if isWhiteSpace c then trimStart s' else s
  | [] => []
  end.

Definition trimEnd (s : jsstring) : jsstring := rev (trimStart (rev s)).

(** [s.trim()] *)
Definition trim (s : jsstring) : jsstring := trimEnd (trimStart s).

(** ToBoolean on a string: only the empty string is falsy. *)
Definition truthy (s : jsstring) : bool :=
  match s with [] => false | _ :: _ => true end.

(** [s.replace(/\s+/g, '')]: every maximal run of white space is replaced
    by the empty string, which removes every white-space code unit. *)
Definition removeWhiteSpaceRuns (s : jsstring) : jsstring :=
  List.filter (fun c => negb (isWhiteSpace c)) s.

(** Reading a source literal: the bytes of the file are UTF-8, the
    string value is UTF-16. *)
Fixpoint utf8_decode (bs : list N) : list N :=
  match bs with
  | [] => []
  | b0 :: r0 =>
      if (b0 <? 0x80)%N then b0 :: utf8_decode r0
      else match r0 with
      | [] => []
      | b1 :: r1 =>
          if (b0 <? 0xE0)%N
          then ((b0 - 0xC0) * 64 + (b1 - 0x80))%N :: utf8_decode r1
          else match r1 with
          | [] => []
          | b2 :: r2 =>
              if (b0 <? 0xF0)%N
              then ((b0 - 0xE0) * 4096 + (b1 - 0x80) * 64 + (b2 - 0x80))%N
                     :: utf8_decode r2
              else match r2 with
              | [] => []
              | b3 :: r3 =>
                  ((b0 - 0xF0) * 262144 + (b1 - 0x80) * 4096
                   + (b2 - 0x80) * 64 + (b3 - 0x80))%N :: utf8_decode r3
              end
          end
      end
  end.

Definition utf16_encode (cp : N) : list N :=
  if (cp <? 0x10000)%N then [cp]
  else [(0xD800 + (cp - 0x10000) / 1024)%N;
        (0xDC00 + (cp - 0x10000) mod 1024)%N].

Definition lit (s : string) : jsstring :=
  flat_map utf16_encode
    (utf8_decode (List.map N_of_ascii (list_ascii_of_string s))).

(** The code units of a double quote and of a line feed. *)
Definition dquote : jsstring := [34%N].
Definition nl : jsstring := [10%N].

End JS.

(** ** The simulated Bedrock adapter *)

Module Bedrock.
Import JS.

(** Timers of the event loop: the delays (in ms) awaited so far. *)
Record Timers := { awaited : list N }.

Definition setTimeout_await (ms : N) (t : Timers) : Timers :=
  {| awaited := awaited t ++ [ms] |}.

(** The template literal of [generateMarketingCopy]. *)
Definition response (topic businessType : jsstring) : jsstring :=
  lit "📢 Namaste " ++ businessType ++ lit " Owner! 🚀" ++ nl ++
  nl ++
  lit "Here is your campaign for " ++ topic ++ lit ":" ++ nl ++
  nl ++
  lit "✨ The Hook:" ++ nl ++
  dquote ++ lit "Arrey wah! " ++ topic
    ++ lit " is here! 😲 Don't miss out!" ++ dquote ++ nl ++
  nl ++
  lit "🎁 The Offer:" ++ nl ++
  dquote ++ lit "Flat 20% OFF only for today! 🛍️✨" ++ dquote ++ nl ++
  nl ++
  lit "🔥 Call to Action:" ++ nl ++
  dquote ++ lit "Jaldi aao! Visit us before stocks run out! 🏃‍♂️💨"
    ++ dquote ++ nl ++
  nl ++
  lit "---" ++ nl ++
  nl ++
  lit "💡 Pro Tip: Share this on WhatsApp and Instagram for maximum reach in your local community!" ++ nl ++
  nl ++
  lit "#" ++ removeWhiteSpaceRuns topic
    ++ lit " #IndianBusiness #LocalShop #SpecialOffer".

(** [generateMarketingCopy]: awaits a 2000 ms timer, then resolves to the
    template. *)
Definition generateMarketingCopy (topic businessType : jsstring)
  (t : Timers) : jsstring * Timers :=
  let t1 := setTimeout_await 2000 t in
  (response topic businessType, t1).

End Bedrock.

(** ** The campaign form, [page.tsx] *)

Module Page.
Import JS.

(** The five [useState] cells of [Home]. [result] holds whatever
    [data.result] was, [None] standing for [undefined]. *)
Record State := {
  businessType : jsstring;
  topic : jsstring;
  result : option jsstring;
  loading : bool;
  error : jsstring
}.

Definition initial : State :=
  {| businessType := lit "Retail"; topic := []; result := Some [];
     loading := false; error := [] |}.

Definition setError (e : jsstring) (s : State) : State :=
  {| businessType := businessType s; topic := topic s; result := result s;
     loading := loading s; error := e |}.
Definition setLoading (b : bool) (s : State) : State :=
  {| businessType := businessType s; topic := topic s; result := result s;
     loading := b; error := error s |}.
Definition setResult (r : option jsstring) (s : State) : State :=
  {| businessType := businessType s; topic := topic s; result := r;
     loading := loading s; error := error s |}.
Definition setTopic (t : jsstring) (s : State) : State :=
  {| businessType := businessType s; topic := t; result := result s;
     loading := loading s; error := error s |}.

(** The POST that [fetch] sends; the body is
    [JSON.stringify({ topic, businessType })]. *)
Record Request := {
  url : jsstring;
  method : jsstring;
  contentType : jsstring;
  body_topic : jsstring;
  body_businessType : jsstring
}.

(** What a [throw] can carry: an [Error] with its message, or any other
    value. *)
Inductive Thrown :=
| ErrorObject (message : jsstring)
| NotAnError.

(** The parsed body: the two fields the handler reads. *)
Record Json := {
  data_error : option jsstring;
  data_result : option jsstring
}.

(** What the network gives back: [fetch] rejects, or a response arrives
    whose [json()] rejects or resolves. *)
Inductive FetchOutcome :=
| FetchRejects (t : Thrown)
| Responds (ok : bool) (json : Thrown + Json).

(** [err instanceof Error ? err.message : 'An error occurred'] *)
Definition catchMessage (t : Thrown) : jsstring :=
  match t with
  | ErrorObject m => m
  | NotAnError => lit "An error occurred"
  end.

(** [data.error || 'Failed to generate campaign'] *)
Definition errorOrDefault (d : Json) : jsstring :=
  match data_error d with
  | Some e => if truthy e then e else lit "Failed to generate campaign"
  | None => lit "Failed to generate campaign"
  end.

(** The guard of the handler: [!topic.trim()]. *)
Definition topicMissing (t : jsstring) : bool := negb (truthy (trim t)).

(** [handleGenerate], run on the state its closure captured and against a
    network [net]; returns the state after the handler and the requests
    it sent. *)
Definition handleGenerate (net : Request -> FetchOutcome) (s : State)
  : State * list Request :=
  if topicMissing (topic s) then
    (setError (lit "Please enter a campaign topic") s, [])
  else
    let s1 := setResult (Some []) (setError [] (setLoading true s)) in
    let req := {| url := lit "/api/generate"; method := lit "POST";
                  contentType := lit "application/json";
                  body_topic := topic s;
                  body_businessType := businessType s |} in
    let s2 :=
      match net req with
      | FetchRejects t => setError (catchMessage t) s1
      | Responds ok (inl t) => setError (catchMessage t) s1
      | Responds ok (inr data) =>
          if negb ok
          then setError (catchMessage (ErrorObject (errorOrDefault data))) s1
          else setResult (data_result data) s1
      end in
    (setLoading false s2, [req]).

End Page.

(** ** The design document: data model and the world the Lambdas run in *)

Module Design.
Import JS.

Inductive Platform := instagram | linkedin.

#[global] Instance Platform_eq_dec : EqDecision Platform.
Proof. solve_decision. Defined.

(** The string a platform tag prints as inside a template literal. *)
Definition platformName (p : Platform) : jsstring :=
  match p with
  | instagram => lit "instagram"
  | linkedin => lit "linkedin"
  end.

(** [`${i}`] for a non-negative integer: its decimal digits. *)
Fixpoint digits (d : Decimal.uint) : jsstring :=
  match d with
  | Decimal.Nil => []
  | Decimal.D0 d => 48%N :: digits d
  | Decimal.D1 d => 49%N :: digits d
  | Decimal.D2 d => 50%N :: digits d
  | Decimal.D3 d => 51%N :: digits d
  | Decimal.D4 d => 52%N :: digits d
  | Decimal.D5 d => 53%N :: digits d
  | Decimal.D6 d => 54%N :: digits d
  | Decimal.D7 d => 55%N :: digits d
  | Decimal.D8 d => 56%N :: digits d
  | Decimal.D9 d => 57%N :: digits d
  end.

Definition decimal (n : nat) : jsstring := digits (Nat.to_uint n).

(** The code units of the decimal digits. *)
Definition isDigit (c : N) : bool := ((48 <=? c) && (c <=? 57))%N.

(** The [n]-th identifier of the generator behind [generateUUID]. *)
Definition uuidOf (n : nat) : jsstring := lit "uuid-" ++ decimal n.

Record Dimensions := { width : nat; height : nat }.

(** *** Errors

    The classes the document lists under "Retryable Errors" and
    "Non-Retryable Errors"; [UnexpectedError] is any other exception. *)
Inductive ErrorClass :=
| RateLimitError
| ServiceUnavailable
| GatewayTimeout
| ThrottlingException
| AuthenticationFailure
| InvalidInput
| ResourceNotFound
| ContentPolicyViolation
| UnexpectedError.

Record Error := { errorClass : ErrorClass; errorText : jsstring }.

(** [catch RetryableError] *)
Definition isRetryableError (e : Error) : bool :=
  match errorClass e with
  | RateLimitError | ServiceUnavailable | GatewayTimeout
  | ThrottlingException => true
  | _ => false
  end.

(** [catch NonRetryableError] *)
Definition isNonRetryableError (e : Error) : bool :=
  match errorClass e with
  | AuthenticationFailure | InvalidInput | ResourceNotFound
  | ContentPolicyViolation => true
  | _ => false
  end.

(** [catch RateLimitError] *)
Definition isRateLimitError (e : Error) : bool :=
  match errorClass e with
  | RateLimitError => true
  | _ => false
  end.

(** *** Assets, as the TypeScript interfaces of the document declare them *)

Record ImageAsset := {
  img_assetId : jsstring;
  img_s3Key : jsstring;
  img_s3Url : jsstring;
  img_thumbnailUrl : jsstring;
  img_dimensions : Dimensions;
  img_platform : Platform
}.

Inductive VideoFormat := mp4 | gif.

Record VideoAsset := {
  vid_assetId : jsstring;
  vid_s3Key : jsstring;
  vid_s3Url : jsstring;
  vid_duration : nat;
  vid_format : VideoFormat
}.

Inductive Component := image | video | text.

Record GenerationError := {
  component : Component;
  errorCode : jsstring;
  errorMessage : jsstring;
  timestamp : nat
}.

Inductive Status := generating | complete | partial | failed.

(** *** What the document calls but does not define

    Binary payloads and the helpers that inspect them belong to the AWS
    SDK and to media libraries; they are an interface here. *)
Class Services := {
  blob : Type;
  (** [resizeImage(imageData, maxWidth)] *)
  resizeImage : option blob -> nat -> option blob;
  (** [extractDuration(videoData)] *)
  extractDuration : option blob -> nat;
  (** [response.content[0].text] *)
  contentText : blob -> jsstring;
  (** [s3.generatePresignedUrl(key, expiresIn)] *)
  generatePresignedUrl : jsstring -> nat -> jsstring
}.

(** The three request bodies sent to [bedrockClient.invokeModel]; fields
    that are constants of the pseudocode are left out. *)
Inductive ModelRequest :=
| TitanImage (text : jsstring) (width height : nat)
| StableDiffusionVideo (text : jsstring) (seed video_length : nat)
| ClaudeText (content : jsstring) (max_tokens : nat).

Inductive Lambda :=
| ImageGeneratorLambda
| VideoGeneratorLambda
| TextGeneratorLambda.

#[global] Instance Platform_countable : Countable Platform.
Proof.
  refine (inj_countable'
            (fun p => match p with instagram => 0 | linkedin => 1 end)
            (fun n => match n with 0 => instagram | _ => linkedin end) _).
  intros []; reflexivity.
Defined.

(** What [callClaude] hands back: the text of the reply, the error value
    its [catch] returns after the third failure, or nothing when the
    function runs off its end. *)
Inductive ClaudeResult :=
| ReplyText (t : jsstring)
| ReplyError (e : Error)
| ReplyUndefined.

(** The object [generateText] returns. *)
Record TextResult := {
  captions : gmap Platform ClaudeResult;
  hashtags : gmap Platform (list jsstring)
}.

(** [ContentGenerationResponse] *)
Record Response := {
  resp_projectId : jsstring;
  resp_images : list ImageAsset;
  resp_videos : list VideoAsset;
  resp_captions : gmap Platform ClaudeResult;
  resp_hashtags : gmap Platform (list jsstring);
  resp_status : Status;
  resp_errors : list GenerationError
}.

(** A row of the Projects table. *)
Record Project := {
  projectId : jsstring;
  userId : jsstring;
  prompt : jsstring;
  createdAt : nat;
  status : Status;
  assets : option Response;
  completedAt : option nat
}.

(** [ContentGenerationRequest] *)
Record Request := {
  req_prompt : jsstring;
  req_userId : jsstring;
  req_platforms : list Platform
}.

Section World.
Context `{Services}.

(** What a run leaves behind, in order. *)
Inductive Event :=
| ModelInvoked (req : ModelRequest)
| Slept (ms : nat)
| Logged (e : Error)
| S3Put (key : jsstring)
| DynamoPut (id : jsstring)
| DynamoUpdate (id : jsstring)
| LambdaInvoked (l : Lambda).

(** The world a Lambda runs in. [bedrock] holds the replies the model
    endpoint will give to the calls still to come, [entropy] the draws of
    the random generator, [arrivals] the components whose outcome reaches
    [awaitAll] within its timeout, in the order they complete. *)
Record World := {
  bedrock : list (Error + blob);
  entropy : list nat;
  arrivals : list Component;
  uuids : nat;
  now : nat;
  trace : list Event;
  s3 : gmap jsstring (option blob);
  dynamoDB : gmap jsstring Project
}.

Definition M (A : Type) : Type := World -> A * World.

Definition ret {A} (a : A) : M A := fun w => (a, w).

Definition bind {A B} (m : M A) (k : A -> M B) : M B :=
  fun w => let (a, w1) := m w in k a w1.

Definition emit (e : Event) (w : World) : World :=
  {| bedrock := bedrock w; entropy := entropy w; arrivals := arrivals w;
     uuids := uuids w; now := now w; trace := trace w ++ [e];
     s3 := s3 w; dynamoDB := dynamoDB w |}.

(** [bedrockClient.invokeModel(...)]: the next scripted reply; an endpoint
    with nothing left to say is unavailable. *)
Definition invokeModel (req : ModelRequest) : M (Error + blob) :=
  fun w =>
    let w1 := emit (ModelInvoked req) w in
    match bedrock w1 with
    | r :: rest =>
        (r, {| bedrock := rest; entropy := entropy w1;
               arrivals := arrivals w1; uuids := uuids w1; now := now w1;
               trace := trace w1; s3 := s3 w1; dynamoDB := dynamoDB w1 |})
    | [] =>
        (inl {| errorClass := ServiceUnavailable; errorText := [] |}, w1)
    end.

(** [sleep(ms)] *)
Definition sleep (ms : nat) : M unit :=
  fun w =>
    let w1 := emit (Slept ms) w in
    (tt, {| bedrock := bedrock w1; entropy := entropy w1;
            arrivals := arrivals w1; uuids := uuids w1; now := now w1 + ms;
            trace := trace w1; s3 := s3 w1; dynamoDB := dynamoDB w1 |}).

(** [log(error)] *)
Definition log (e : Error) : M unit := fun w => (tt, emit (Logged e) w).

(** [currentTimestamp()] *)
Definition currentTimestamp : M nat := fun w => (now w, w).

(** [generateUUID()]: identifiers are drawn from a counter. *)
Definition generateUUID : M jsstring :=
  fun w =>
    (uuidOf (uuids w),
     {| bedrock := bedrock w; entropy := entropy w; arrivals := arrivals w;
        uuids := S (uuids w); now := now w; trace := trace w;
        s3 := s3 w; dynamoDB := dynamoDB w |}).

(** One draw of the random generator. *)
Definition draw : M nat :=
  fun w =>
    match entropy w with
    | r :: rest =>
        (r, {| bedrock := bedrock w; entropy := rest; arrivals := arrivals w;
               uuids := uuids w; now := now w; trace := trace w;
               s3 := s3 w; dynamoDB := dynamoDB w |})
    | [] => (0, w)
    end.

(** [randomSeed()] *)
Definition randomSeed : M nat := draw.

(** [randomInt(lo, hi)], both ends included. *)
Definition randomInt (lo hi : nat) : M nat :=
  bind draw (fun r => ret (lo + r mod (hi - lo + 1))).

(** [s3.putObject(bucket, key, data)] *)
Definition s3_putObject (key : jsstring) (data : option blob) : M unit :=
  fun w =>
    let w1 := emit (S3Put key) w in
    (tt, {| bedrock := bedrock w1; entropy := entropy w1;
            arrivals := arrivals w1; uuids := uuids w1; now := now w1;
            trace := trace w1; s3 := <[key := data]> (s3 w1);
            dynamoDB := dynamoDB w1 |}).

(** [dynamoDB.putItem(project)] *)
Definition dynamoDB_putItem (p : Project) : M unit :=
  fun w =>
    let w1 := emit (DynamoPut (projectId p)) w in
    (tt, {| bedrock := bedrock w1; entropy := entropy w1;
            arrivals := arrivals w1; uuids := uuids w1; now := now w1;
            trace := trace w1; s3 := s3 w1;
            dynamoDB := <[projectId p := p]> (dynamoDB w1) |}).

(** [dynamoDB.updateItem(projectId, {status, assets, completedAt})]: the
    three attributes of the row are replaced. *)
Definition dynamoDB_updateItem (id : jsstring) (st : Status)
  (r : Response) (t : nat) : M unit :=
  fun w =>
    let w1 := emit (DynamoUpdate id) w in
    let upd p := {| projectId := projectId p; userId := userId p;
                    prompt := prompt p; createdAt := createdAt p;
                    status := st; assets := Some r; completedAt := Some t |} in
    (tt, {| bedrock := bedrock w1; entropy := entropy w1;
            arrivals := arrivals w1; uuids := uuids w1; now := now w1;
            trace := trace w1; s3 := s3 w1;
            dynamoDB := alter upd id (dynamoDB w1) |}).

(** The keys written to S3 during a run, in order. *)
Definition s3Puts (w : World) : list jsstring :=
  omap (fun e => match e with S3Put k => Some k | _ => None end) (trace w).

(** The delays slept during a run, in order. *)
Definition sleeps (w : World) : list nat :=
  omap (fun e => match e with Slept ms => Some ms | _ => None end) (trace w).

(** The Lambdas invoked during a run, in order. *)
Definition invocations (w : World) : list Lambda :=
  omap (fun e => match e with LambdaInvoked l => Some l | _ => None end)
       (trace w).

(** The calls made to the model endpoint during a run, in order. *)
Definition modelCalls (w : World) : list ModelRequest :=
  omap (fun e => match e with ModelInvoked r => Some r | _ => None end)
       (trace w).

End World.

Notation "x <- m ;; k" := (bind m (fun x => k))
  (at level 100, m at next level, right associativity).
Notation "m ;;; k" := (bind m (fun _ => k))
  (at level 100, right associativity).

(** ** The design document: retry, generators, aggregation, orchestrator *)

Section Pseudocode.
Context `{Services}.

(** How a block of pseudocode ends: with a [return], with a [throw], or by
    running off its last statement. *)
Inductive Completion (T : Type) :=
| Returned (v : T)
| Thrown (e : Error)
| FellThrough.
Arguments Returned {T} v.
Arguments Thrown {T} e.
Arguments FellThrough {T}.

(** *** [retryWithBackoff(operation, maxRetries=3)]

    The body of the [for attempt in range(maxRetries)] loop, over the
    attempts still to run. An exception that neither [catch] clause names
    leaves the function as it is. *)
Fixpoint retryLoop {T} (operation : M (Error + T)) (maxRetries : nat)
  (attempts : list nat) : M (Completion T) :=
  match attempts with
  | [] => ret FellThrough
  | attempt :: rest =>
      r <- operation ;;
      match r with
      | inr v => ret (Returned v)
      | inl error =>
          if isRetryableError error then
            if maxRetries - 1 <=? attempt then ret (Thrown error)
            else
              let backoffMs := 2 ^ attempt * 100 in
              sleep backoffMs ;;;
              retryLoop operation maxRetries rest
          else ret (Thrown error)
      end
  end.

Definition retryWithBackoffN {T} (operation : M (Error + T))
  (maxRetries : nat) : M (Completion T) :=
  retryLoop operation maxRetries (seq 0 maxRetries).

(** The call with the default [maxRetries=3]. *)
Definition retryWithBackoff {T} (operation : M (Error + T))
  : M (Completion T) :=
  retryWithBackoffN operation 3.

(** Modelled from the spec: [exponentialBackoff] is called by the three
    generators and defined nowhere; the delay before retry [n] (counted
    from 1) is [100 * 2^(n-1)] ms. *)
Definition exponentialBackoff (retries : nat) : nat :=
  100 * 2 ^ (retries - 1).

(** *** Image Generator Lambda *)

Definition getPlatformDimensions (platform : Platform) : Dimensions :=
  match platform with
  | instagram => {| width := 1080; height := 1080 |}
  | linkedin => {| width := 1200; height := 627 |}
  end.

(** How the [while retries < 3] loop around [invokeModel] is left. *)
Inductive LoopExit :=
| Broke (data : option blob)
| ReturnedError (e : Error).

(** The retry loop of [generateImages]. [imageData] is the variable the
    [try] assigns; when the loop ends because [retries] reached 3 it still
    holds what it held before. [fuel] bounds the iterations; 3 is enough,
    since every iteration that does not leave the loop increments
    [retries]. *)
Fixpoint imageRetryLoop (fuel : nat) (req : ModelRequest) (retries : nat)
  (imageData : option blob) : M LoopExit :=
  match fuel with
  | 0 => ret (Broke imageData)
  | S fuel' =>
      if retries <? 3 then
        r <- invokeModel req ;;
        match r with
        | inr d => ret (Broke (Some d))
        | inl error =>
            if isRateLimitError error then
              let retries := S retries in
              sleep (exponentialBackoff retries) ;;;
              imageRetryLoop fuel' req retries imageData
            else
              log error ;;;
              if 2 <=? retries then ret (ReturnedError error)
              else imageRetryLoop fuel' req (S retries) imageData
        end
      else ret (Broke imageData)
  end.

Definition imageKey (userId projectId : jsstring) (platform : Platform)
  (i : nat) : jsstring :=
  lit "users/" ++ userId ++ lit "/projects/" ++ projectId
    ++ lit "/images/" ++ platformName platform ++ lit "_" ++ decimal i
    ++ lit ".png".

Definition thumbnailKeyOf (s3Key : jsstring) : jsstring :=
  s3Key ++ lit "_thumb.png".

(** The body of [for platform in platforms], for one [i]. The state carried
    from one iteration to the next is the [images] list and the variable
    [imageData]. *)
Fixpoint imagesForPlatforms (userId prompt projectId : jsstring) (i : nat)
  (platforms : list Platform) (images : list ImageAsset)
  (imageData : option blob)
  : M (Error + (list ImageAsset * option blob)) :=
  match platforms with
  | [] => ret (inr (images, imageData))
  | platform :: rest =>
      let dimensions := getPlatformDimensions platform in
      let req := TitanImage prompt (width dimensions)
                   (height dimensions) in
      x <- imageRetryLoop 3 req 0 imageData ;;
      match x with
      | ReturnedError e => ret (inl e)
      | Broke imageData =>
          let s3Key := imageKey userId projectId platform i in
          s3_putObject s3Key imageData ;;;
          let thumbnail := resizeImage imageData 300 in
          let thumbnailKey := thumbnailKeyOf s3Key in
          s3_putObject thumbnailKey thumbnail ;;;
          let imageUrl := generatePresignedUrl s3Key 3600 in
          let thumbnailUrl := generatePresignedUrl thumbnailKey 3600 in
          assetId <- generateUUID ;;
          let images := images ++ [{| img_assetId := assetId;
                                      img_s3Key := s3Key;
                                      img_s3Url := imageUrl;
                                      img_thumbnailUrl := thumbnailUrl;
                                      img_dimensions := dimensions;
                                      img_platform := platform |}] in
          imagesForPlatforms userId prompt projectId i rest images imageData
      end
  end.

(** The body of [for i in range(count)]. *)
Fixpoint imagesForIndices (userId prompt projectId : jsstring)
  (indices : list nat) (platforms : list Platform)
  (images : list ImageAsset) (imageData : option blob)
  : M (Error + list ImageAsset) :=
  match indices with
  | [] => ret (inr images)
  | i :: rest =>
      x <- imagesForPlatforms userId prompt projectId i platforms images
             imageData ;;
      match x with
      | inl e => ret (inl e)
      | inr (images, imageData) =>
          imagesForIndices userId prompt projectId rest platforms images
            imageData
      end
  end.

(** [generateImages(prompt, projectId, count, platforms)]. [userId] is
    free in the pseudocode; it is a parameter here. *)
Definition generateImages (userId prompt projectId : jsstring) (count : nat)
  (platforms : list Platform) : M (Error + list ImageAsset) :=
  imagesForIndices userId prompt projectId (seq 0 count) platforms [] None.

(** *** Video Generator Lambda *)

(** The [while retries < 3] loop of [generateVideo]; the seed and the
    length are drawn anew at every attempt. *)
Fixpoint videoRetryLoop (fuel : nat) (prompt : jsstring) (retries : nat)
  (videoData : option blob) : M LoopExit :=
  match fuel with
  | 0 => ret (Broke videoData)
  | S fuel' =>
      if retries <? 3 then
        seed <- randomSeed ;;
        video_length <- randomInt 3 10 ;;
        r <- invokeModel (StableDiffusionVideo prompt seed video_length) ;;
        match r with
        | inr d => ret (Broke (Some d))
        | inl error =>
            let retries := S retries in
            if 3 <=? retries then ret (ReturnedError error)
            else
              sleep (exponentialBackoff retries) ;;;
              videoRetryLoop fuel' prompt retries videoData
        end
      else ret (Broke videoData)
  end.

Definition videoKey (userId projectId : jsstring) : jsstring :=
  lit "users/" ++ userId ++ lit "/projects/" ++ projectId
    ++ lit "/videos/video_0.mp4".

(** [generateVideo(prompt, projectId)]; [userId] is free in the
    pseudocode, as in [generateImages]. *)
Definition generateVideo (userId prompt projectId : jsstring)
  : M (Error + VideoAsset) :=
  x <- videoRetryLoop 3 prompt 0 None ;;
  match x with
  | ReturnedError e => ret (inl e)
  | Broke videoData =>
      let s3Key := videoKey userId projectId in
      s3_putObject s3Key videoData ;;;
      let videoUrl := generatePresignedUrl s3Key 3600 in
      assetId <- generateUUID ;;
      ret (inr {| vid_assetId := assetId;
                  vid_s3Key := s3Key;
                  vid_s3Url := videoUrl;
                  vid_duration := extractDuration videoData;
                  vid_format := mp4 |})
  end.

(** *** Text Generator Lambda *)

Record Constraints := {
  maxCaptionLength : nat;
  minHashtags : nat;
  maxHashtags : nat;
  maxTokens : nat
}.

Definition getPlatformConstraints (platform : Platform) : Constraints :=
  match platform with
  | instagram => {| maxCaptionLength := 2200; minHashtags := 5;
                    maxHashtags := 10; maxTokens := 1000 |}
  | linkedin => {| maxCaptionLength := 3000; minHashtags := 3;
                   maxHashtags := 5; maxTokens := 1500 |}
  end.

(** The continuation lines of the prompt templates are indented by twelve
    spaces in the document. *)
Definition indent : jsstring := lit "            ".

Definition buildCaptionPrompt (userPrompt : jsstring) (platform : Platform)
  : jsstring :=
  match platform with
  | instagram =>
      lit "Generate 3 engaging Instagram captions for the following marketing concept: "
        ++ dquote ++ userPrompt ++ dquote ++ lit ". " ++ nl ++
      indent ++ lit "Each caption should be under 2200 characters, use emojis appropriately, and be optimized for Instagram engagement." ++ nl ++
      indent ++ lit "Format: Return 3 captions separated by "
        ++ dquote ++ lit "---" ++ dquote
  | linkedin =>
      lit "Generate 3 professional LinkedIn captions for the following marketing concept: "
        ++ dquote ++ userPrompt ++ dquote ++ lit "." ++ nl ++
      indent ++ lit "Each caption should be under 3000 characters, maintain a professional tone, and include a call-to-action." ++ nl ++
      indent ++ lit "Format: Return 3 captions separated by "
        ++ dquote ++ lit "---" ++ dquote
  end.

Definition buildHashtagPrompt (userPrompt : jsstring) (platform : Platform)
  : jsstring :=
  match platform with
  | instagram =>
      lit "Generate 5-10 relevant Instagram hashtags for: "
        ++ dquote ++ userPrompt ++ dquote ++ lit "." ++ nl ++
      indent ++ lit "Include a mix of popular and niche hashtags. Format: Return hashtags separated by spaces, each starting with #"
  | linkedin =>
      lit "Generate 3-5 professional LinkedIn hashtags for: "
        ++ dquote ++ userPrompt ++ dquote ++ lit "." ++ nl ++
      indent ++ lit "Focus on industry-relevant and professional hashtags. Format: Return hashtags separated by spaces, each starting with #"
  end.

(** The [while retries < 3] loop of [callClaude]. *)
Fixpoint claudeRetryLoop (fuel : nat) (req : ModelRequest) (retries : nat)
  : M ClaudeResult :=
  match fuel with
  | 0 => ret ReplyUndefined
  | S fuel' =>
      if retries <? 3 then
        r <- invokeModel req ;;
        match r with
        | inr response => ret (ReplyText (contentText response))
        | inl error =>
            let retries := S retries in
            if 3 <=? retries then ret (ReplyError error)
            else
              sleep (exponentialBackoff retries) ;;;
              claudeRetryLoop fuel' req retries
        end
      else ret ReplyUndefined
  end.

Definition callClaude (prompt : jsstring) (platform : Platform)
  : M ClaudeResult :=
  let constraints := getPlatformConstraints platform in
  claudeRetryLoop 3 (ClaudeText prompt (maxTokens constraints)) 0.

(** [text.split()] is read as Python's [str.split()] without arguments, as
    the loop [for word in words] and [hashtags.append(word)] around it
    are: the text is cut at runs of white space and no word is empty. (Read
    as JavaScript, [split()] without a separator would return the whole
    text as one element.) White space is what Python's [str.isspace]
    accepts; all of it lies in the Basic Multilingual Plane, so cutting
    code units and cutting code points give the same words. *)
Definition isSpace (c : N) : bool :=
  ((9 <=? c) && (c <=? 13) || (28 <=? c) && (c <=? 32) || (c =? 0x85)
   || (c =? 0xA0) || (c =? 0x1680) || (0x2000 <=? c) && (c <=? 0x200A)
   || (c =? 0x2028) || (c =? 0x2029) || (c =? 0x202F) || (c =? 0x205F)
   || (c =? 0x3000))%N.

(** The maximal runs of code units that are not white space. [word] is
    the run being read, in reverse. *)
Fixpoint splitFrom (word : jsstring) (text : jsstring) : list jsstring :=
  match text with
  | [] => match word with [] => [] | _ => [rev word] end
  | c :: rest =>
      if isSpace c
      then match word with
           | [] => splitFrom [] rest
           | _ => rev word :: splitFrom [] rest
           end
      else splitFrom (c :: word) rest
  end.

Definition split (text : jsstring) : list jsstring := splitFrom [] text.

(** [word.startsWith("#")] *)
Definition startsWithHash (word : jsstring) : bool :=
  match word with
  | c :: _ => (c =? 35)%N
  | [] => false
  end.

(** [parseHashtags(text)] *)
Definition parseHashtags (text : jsstring) : list jsstring :=
  List.filter startsWithHash (split text).

(** The body of [for platform in platforms] in [generateText]. Splitting
    what is not a string raises; that exception leaves [generateText]. *)
Fixpoint textForPlatforms (prompt : jsstring) (platforms : list Platform)
  (caps : gmap Platform ClaudeResult) (tags : gmap Platform (list jsstring))
  : M (Completion TextResult) :=
  match platforms with
  | [] => ret (Returned {| captions := caps; hashtags := tags |})
  | platform :: rest =>
      let captionPrompt := buildCaptionPrompt prompt platform in
      captionResponse <- callClaude captionPrompt platform ;;
      let caps := <[platform := captionResponse]> caps in
      let hashtagPrompt := buildHashtagPrompt prompt platform in
      hashtagResponse <- callClaude hashtagPrompt platform ;;
      match hashtagResponse with
      | ReplyText t =>
          let tags := <[platform := parseHashtags t]> tags in
          textForPlatforms prompt rest caps tags
      | ReplyError _ | ReplyUndefined =>
          ret (Thrown {| errorClass := UnexpectedError;
                         errorText := lit "text.split is not a function" |})
      end
  end.

(** [generateText(prompt, platforms)] *)
Definition generateText (prompt : jsstring) (platforms : list Platform)
  : M (Completion TextResult) :=
  textForPlatforms prompt platforms ∅ ∅.

(** *** Partial failure handling *)

(** One slot of [results]: [results.images], [results.videos] or
    [results.text]. *)
Record ComponentResult (A : Type) := {
  success : bool;
  data : list A
}.
Arguments success {A} c.
Arguments data {A} c.

Record GeneratorResults (A : Type) := {
  images : ComponentResult A;
  videos : ComponentResult A;
  text_ : ComponentResult A;
  error : option Error
}.
Arguments images {A} g.
Arguments videos {A} g.
Arguments text_ {A} g.
Arguments error {A} g.

(** The two objects [handlePartialFailure] can return. *)
Inductive FailureReport (A : Type) :=
| PartialReport (status : Status) (assets : list A) (message : jsstring)
    (retryableComponents : list jsstring)
| FailedReport (status : Status) (message : jsstring)
    (error : option Error).
Arguments PartialReport {A} status assets message retryableComponents.
Arguments FailedReport {A} status message error.

Definition reportStatus {A} (r : FailureReport A) : Status :=
  match r with
  | PartialReport st _ _ _ => st
  | FailedReport st _ _ => st
  end.

(** [join(list, sep)] *)
Fixpoint join (l : list jsstring) (sep : jsstring) : jsstring :=
  match l with
  | [] => []
  | [x] => x
  | x :: rest => x ++ sep ++ join rest sep
  end.

(** The two lists [handlePartialFailure] builds before it decides. *)
Definition successfulAssetsOf {A} (results : GeneratorResults A) : list A :=
  let successfulAssets := [] in
  let successfulAssets :=
    if success (images results)
    then successfulAssets ++ data (images results) else successfulAssets in
  let successfulAssets :=
    if success (videos results)
    then successfulAssets ++ data (videos results) else successfulAssets in
  if success (text_ results)
  then successfulAssets ++ data (text_ results) else successfulAssets.

Definition failedComponentsOf {A} (results : GeneratorResults A)
  : list jsstring :=
  let failedComponents := [] in
  let failedComponents :=
    if success (images results)
    then failedComponents else failedComponents ++ [lit "images"] in
  let failedComponents :=
    if success (videos results)
    then failedComponents else failedComponents ++ [lit "videos"] in
  if success (text_ results)
  then failedComponents
  else failedComponents ++ [lit "captions and hashtags"].

(** [handlePartialFailure(results)] *)
Definition handlePartialFailure {A} (results : GeneratorResults A)
  : FailureReport A :=
  let successfulAssets := successfulAssetsOf results in
  let failedComponents := failedComponentsOf results in
  if 0 <? length successfulAssets then
    PartialReport partial successfulAssets
      (lit "Generated " ++ decimal (length successfulAssets)
         ++ lit " assets. Failed to generate: "
         ++ join failedComponents (lit ", "))
      failedComponents
  else
    FailedReport failed
      (lit "Unable to generate any content. Please try again.")
      (error results).

(** *** Aggregation in the orchestrator *)

(** Modelled from the spec: the orchestrator calls [awaitAll],
    [determineStatus] and [collectErrors], and the document defines none of
    them. An outcome is the assets of a component or a failure tagged with
    it; the status is [complete] when all three succeeded, [partial] when
    some did and some did not, [failed] when none did; the errors are one
    per failed component, in the order image, video, text. *)
Inductive TaskOutcome (A : Type) :=
| Succeeded (payload : A)
| Failed (e : GenerationError).
Arguments Succeeded {A} payload.
Arguments Failed {A} e.

Record Outcomes := {
  out_image : TaskOutcome (list ImageAsset);
  out_video : TaskOutcome (list VideoAsset);
  out_text : TaskOutcome TextResult
}.

Definition succeeded {A} (o : TaskOutcome A) : bool :=
  match o with Succeeded _ => true | Failed _ => false end.

Definition errorsOf {A} (o : TaskOutcome A) : list GenerationError :=
  match o with Succeeded _ => [] | Failed e => [e] end.

(** Modelled from the spec: [determineStatus(results)], see above. *)
Definition determineStatus (results : Outcomes) : Status :=
  let n := length (List.filter id [succeeded (out_image results);
                                   succeeded (out_video results);
                                   succeeded (out_text results)]) in
  if n =? 3 then complete else if 0 <? n then partial else failed.

(** Modelled from the spec: [collectErrors(results)], see above. *)
Definition collectErrors (results : Outcomes) : list GenerationError :=
  errorsOf (out_image results) ++ errorsOf (out_video results)
    ++ errorsOf (out_text results).

(** [results.images || []] and its three siblings. *)
Definition orEmpty {A} (o : TaskOutcome (list A)) : list A :=
  match o with Succeeded l => l | Failed _ => [] end.

Definition captionsOrEmpty (o : TaskOutcome TextResult)
  : gmap Platform ClaudeResult :=
  match o with Succeeded t => captions t | Failed _ => ∅ end.

Definition hashtagsOrEmpty (o : TaskOutcome TextResult)
  : gmap Platform (list jsstring) :=
  match o with Succeeded t => hashtags t | Failed _ => ∅ end.

(** Modelled from the spec: a component whose outcome has not arrived when
    the timeout of [awaitAll] expires counts as failed with
    [TIMEOUT_ERROR]. *)
Definition timedOut (c : Component) (t : nat) : GenerationError :=
  {| component := c; errorCode := lit "TIMEOUT_ERROR";
     errorMessage := lit "Operation exceeded time limit"; timestamp := t |}.

(** Modelled from the spec: the failure a generator's error becomes. *)
Definition generationFailed (c : Component) (t : nat) (e : Error)
  : GenerationError :=
  {| component := c; errorCode := lit "GENERATION_FAILED";
     errorMessage := errorText e; timestamp := t |}.

(** What has been invoked and will resolve: the outcome each Lambda
    computed. *)
Record Promises := {
  imagePromise : TaskOutcome (list ImageAsset);
  videoPromise : TaskOutcome (list VideoAsset);
  textPromise : TaskOutcome TextResult
}.

(** Modelled from the spec: the outcome of one arrival is stored in its
    slot of [results]. *)
Definition deliver (p : Promises) (c : Component) (results : Outcomes)
  : Outcomes :=
  match c with
  | image => {| out_image := imagePromise p; out_video := out_video results;
                out_text := out_text results |}
  | video => {| out_image := out_image results; out_video := videoPromise p;
                out_text := out_text results |}
  | text => {| out_image := out_image results;
               out_video := out_video results; out_text := textPromise p |}
  end.

(** Modelled from the spec: [awaitAll(promises, timeout)] starts with every
    component timed out and stores the outcomes in the order in which the
    components complete before the timeout. *)
Definition gather (p : Promises) (t : nat) (order : list Component)
  : Outcomes :=
  fold_left (fun results c => deliver p c results) order
    {| out_image := Failed (timedOut image t);
       out_video := Failed (timedOut video t);
       out_text := Failed (timedOut text t) |}.

Definition awaitAll (p : Promises) : M Outcomes :=
  fun w => (gather p (now w) (arrivals w), w).

(** Modelled from the spec: [invokeAsync(Lambda, payload)] records the
    invocation and runs the Lambda; what it computed is what the promise
    resolves to. *)
Definition invokeAsync {A B} (l : Lambda) (c : Component) (run : M A)
  (outcome : A -> Error + B) : M (TaskOutcome B) :=
  fun w =>
    let (a, w1) := run (emit (LambdaInvoked l) w) in
    (match outcome a with
     | inr d => Succeeded d
     | inl e => Failed (generationFailed c (now w1) e)
     end, w1).

Definition textOutcome (c : Completion TextResult) : Error + TextResult :=
  match c with
  | Returned r => inr r
  | Thrown e => inl e
  | FellThrough =>
      inl {| errorClass := UnexpectedError; errorText := [] |}
  end.

(** *** Content Orchestrator Lambda *)

(** [handleContentGeneration(request)]: the error of the first [return],
    or the response. *)
Definition handleContentGeneration (request : Request)
  : M (jsstring + Response) :=
  if length (req_prompt request) <? 3 then
    ret (inl (lit "Prompt too short"))
  else
    projectId <- generateUUID ;;
    createdAt <- currentTimestamp ;;
    dynamoDB_putItem {| projectId := projectId;
                        userId := req_userId request;
                        prompt := req_prompt request;
                        createdAt := createdAt;
                        status := generating;
                        assets := None;
                        completedAt := None |} ;;;
    imagePromise <- invokeAsync ImageGeneratorLambda image
      (generateImages (req_userId request) (req_prompt request) projectId 3
         (req_platforms request)) id ;;
    videoPromise <- invokeAsync VideoGeneratorLambda video
      (generateVideo (req_userId request) (req_prompt request) projectId)
      (fun r => match r with inr v => inr [v] | inl e => inl e end) ;;
    textPromise <- invokeAsync TextGeneratorLambda text
      (generateText (req_prompt request) (req_platforms request))
      textOutcome ;;
    results <- awaitAll {| imagePromise := imagePromise;
                           videoPromise := videoPromise;
                           textPromise := textPromise |} ;;
    let response :=
      {| resp_projectId := projectId;
         resp_images := orEmpty (out_image results);
         resp_videos := orEmpty (out_video results);
         resp_captions := captionsOrEmpty (out_text results);
         resp_hashtags := hashtagsOrEmpty (out_text results);
         resp_status := determineStatus results;
         resp_errors := collectErrors results |} in
    completedAt <- currentTimestamp ;;
    dynamoDB_updateItem projectId (resp_status response) response
      completedAt ;;;
    ret (inr response).

(** *** Vocabulary of the statements *)

(** The number of events of a run that satisfy [P]. *)
Definition marks (P : Event -> bool) (w : World) : nat :=
  length (List.filter P (trace w)).

(** From [w] to [w'] the calls [new] were made to the model endpoint and
    the replies [used] were consumed. *)
Definition extends (new : list ModelRequest) (used : list (Error + blob))
  (w w' : World) : Prop :=
  modelCalls w' = modelCalls w ++ new /\ bedrock w = used ++ bedrock w'.

(** A request of the video generator for [prompt]: any seed, and a length
    between 3 and 10. *)
Definition videoRequestInRange (prompt : jsstring) (req : ModelRequest)
  : Prop :=
  exists seed len, req = StableDiffusionVideo prompt seed len
                   /\ 3 <= len <= 10.

(** A component adds to [successfulAssets] when it succeeded with at least
    one asset. *)
Definition contributes {A} (c : ComponentResult A) : bool :=
  success c && (0 <? length (data c)).

Definition succeededAt (results : Outcomes) (c : Component) : bool :=
  match c with
  | image => succeeded (out_image results)
  | video => succeeded (out_video results)
  | text => succeeded (out_text results)
  end.

(** A failure in the slot of component [c] names [c]. *)
Definition taggedWith {A} (c : Component) (o : TaskOutcome A) : Prop :=
  forall e, o = Failed e -> component e = c.

Definition wellTagged (p : Promises) : Prop :=
  taggedWith image (imagePromise p) /\ taggedWith video (videoPromise p)
  /\ taggedWith text (textPromise p).

Definition slotsTagged (r : Outcomes) : Prop :=
  taggedWith image (out_image r) /\ taggedWith video (out_video r)
  /\ taggedWith text (out_text r).

(** The hashtag sets stored so far are all outputs of [parseHashtags]. *)
Definition parsedSets (tags : gmap Platform (list jsstring)) : Prop :=
  forall platform set, tags !! platform = Some set ->
                       exists reply, set = parseHashtags reply.

(** What one pass of [generateImages] over the platforms writes to S3 when
    every image is generated: the key of each image, then the key of its
    thumbnail. *)
Definition imagePuts (userId projectId : jsstring) (i : nat)
  (platforms : list Platform) : list jsstring :=
  flat_map (fun platform =>
              [imageKey userId projectId platform i;
               thumbnailKeyOf (imageKey userId projectId platform i)])
    platforms.

Definition expectedImagePuts (userId projectId : jsstring)
  (indices : list nat) (platforms : list Platform) : list jsstring :=
  flat_map (fun i => imagePuts userId projectId i platforms) indices.

(** From [w] to [w'] the keys [puts] were written to S3 and [n]
    identifiers were drawn. *)
Definition grows (puts : list jsstring) (n : nat) (w w' : World) : Prop :=
  s3Puts w' = s3Puts w ++ puts /\ uuids w' = uuids w + n.

(** A reply of [n] hashtags. *)
Fixpoint hashWords (n : nat) : jsstring :=
  match n with
  | 0 => []
  | S n => lit "#a " ++ hashWords n
  end.

End Pseudocode.

Arguments Returned {T} v.
Arguments Thrown {T} e.
Arguments FellThrough {T}.
Arguments success {A} c.
Arguments data {A} c.
Arguments images {A} g.
Arguments videos {A} g.
Arguments text_ {A} g.
Arguments error {A} g.
Arguments PartialReport {A} status assets message retryableComponents.
Arguments FailedReport {A} status message error.
Arguments Succeeded {A} payload.
Arguments Failed {A} e.

End Design.

(** ** A concrete interface for examples

    Payloads that carry their text and the duration a media probe reports;
    resizing keeps the payload, a presigned URL is the key behind a host
    name. *)

Module Sample.
Import JS Design.

Record Payload := { body : jsstring; seconds : nat }.

#[export] Instance services : Services := {|
  blob := Payload;
  resizeImage := fun d _ => d;
  extractDuration := fun d => match d with Some p => seconds p | None => 0 end;
  contentText := body;
  generatePresignedUrl := fun k _ => lit "https://s3.example/" ++ k
|}.

(** A world with the given replies of the model endpoint, no entropy, all
    three components arriving in the order image, video, text, and empty
    stores. *)
Definition world (replies : list (Error + Payload)) : World :=
  {| bedrock := replies; entropy := []; arrivals := [image; video; text];
     uuids := 0; now := 0; trace := []; s3 := ∅; dynamoDB := ∅ |}.

Definition ok (t : string) (d : nat) : Error + Payload :=
  inr {| body := lit t; seconds := d |}.

Definition rateLimited : Error + Payload :=
  inl {| errorClass := RateLimitError; errorText := lit "429" |}.

Definition denied : Error + Payload :=
  inl {| errorClass := AuthenticationFailure; errorText := lit "403" |}.

Definition okText (t : jsstring) : Error + Payload :=
  inr {| body := t; seconds := 0 |}.

(** The text endpoint in simulation mode: the caption call gets a caption,
    the hashtag call gets the campaign of the simulated adapter. *)
Definition simulatedReplies : list (Error + Payload) :=
  [ok "Festive offers for everyone" 0;
   okText (Bedrock.response (lit "Diwali Sale") (lit "Retail"))].

Definition sixImages : list (Error + Payload) :=
  [ok "png-1" 0; ok "png-2" 0; ok "png-3" 0;
   ok "png-4" 0; ok "png-5" 0; ok "png-6" 0].

Definition request (p : string) (platforms : list Platform) : Request :=
  {| req_prompt := lit p; req_userId := lit "user-123";
     req_platforms := platforms |}.

Definition isModelCall (e : Event) : bool :=
  match e with ModelInvoked _ => true | _ => false end.

Definition videoFailed : GenerationError :=
  {| component := video; errorCode := lit "GENERATION_FAILED";
     errorMessage := lit "503"; timestamp := 7 |}.

(** Images and text succeeded, the video generator failed. *)
Definition videoLost : Promises :=
  {| imagePromise := Succeeded [];
     videoPromise := Failed videoFailed;
     textPromise := Succeeded {| captions := ∅; hashtags := ∅ |} |}.

End Sample.

(** ** Vocabulary for runs of the Lambdas *)

Module Runs.
Import JS Design.

Section Runs.
Context `{Services}.

(** The events a generator may leave behind: calls to the model endpoint,
    sleeps, log lines and writes to S3. *)
Definition generatorEvent (e : Event) : bool :=
  match e with
  | ModelInvoked _ | Slept _ | Logged _ | S3Put _ => true
  | DynamoPut _ | DynamoUpdate _ | LambdaInvoked _ => false
  end.

(** The events that write to the Projects table. *)
Definition tableEvent (e : Event) : bool :=
  match e with
  | DynamoPut _ | DynamoUpdate _ => true
  | _ => false
  end.

(** The sum of a list of delays. *)
Definition total (l : list nat) : nat := fold_right Nat.add 0 l.

(** What a generator may do to the world between [w] and [w']: append
    generator events to the trace, advance the clock by what it slept,
    draw identifiers, and add objects to the bucket, under the keys its
    events name; it removes no object, and leaves the Projects table and
    the arrivals alone. *)
Definition step (w w' : World) : Prop :=
  dynamoDB w' = dynamoDB w
  /\ arrivals w' = arrivals w
  /\ (exists evs, trace w' = trace w ++ evs
                  /\ forallb generatorEvent evs = true
                  /\ forall k, In (S3Put k) evs -> is_Some (s3 w' !! k))
  /\ now w' + total (sleeps w) = now w + total (sleeps w')
  /\ uuids w <= uuids w'
  /\ (forall k, is_Some (s3 w !! k) -> is_Some (s3 w' !! k)).

(** What [step] shows from outside. *)
Definition keptApart (w w' : World) : Prop :=
  dynamoDB w' = dynamoDB w
  /\ invocations w' = invocations w
  /\ now w' = now w + (total (sleeps w') - total (sleeps w))
  /\ (forall k, is_Some (s3 w !! k) -> is_Some (s3 w' !! k))
  /\ (exists puts, s3Puts w' = s3Puts w ++ puts
                   /\ forall k, In k puts -> is_Some (s3 w' !! k)).

(** What a generator leaves alone and what it keeps: it writes nothing to
    the Projects table and invokes no Lambda; it removes no object from
    the bucket, and every key it wrote is in the bucket. *)
Definition leavesAlone (w w' : World) : Prop :=
  dynamoDB w' = dynamoDB w
  /\ invocations w' = invocations w
  /\ (forall k, is_Some (s3 w !! k) -> is_Some (s3 w' !! k))
  /\ (exists puts, s3Puts w' = s3Puts w ++ puts
                   /\ forall k, In k puts -> is_Some (s3 w' !! k)).





(** From [w] to [w'] at most [n] calls were made to the model endpoint. *)
Definition spends (n : nat) (w w' : World) : Prop :=
  length (modelCalls w') <= length (modelCalls w) + n.

(** The asset [generateImages] appends for platform [p] at index [i],
    whatever its identifier. *)
Definition imageAssetFor (u pid : jsstring) (ip : nat * Platform)
  (a : ImageAsset) : Prop :=
  let k := imageKey u pid (snd ip) (fst ip) in
  img_s3Key a = k
  /\ img_s3Url a = generatePresignedUrl k 3600
  /\ img_thumbnailUrl a = generatePresignedUrl (thumbnailKeyOf k) 3600
  /\ img_dimensions a = getPlatformDimensions (snd ip)
  /\ img_platform a = snd ip.

End Runs.

(** A string without white space, as [split] sees it. *)
Definition noWhiteSpace (s : jsstring) : bool :=
  forallb (fun c => negb (isSpace c)) s.

(** A word that [parseHashtags] keeps as it is: it starts with [#] and
    holds no white space. *)
Definition hashtag (word : jsstring) : bool :=
  startsWithHash word && noWhiteSpace word.

(** [s] occurs in [t]. *)
Definition occursIn (s t : jsstring) : Prop :=
  exists a b, t = a ++ s ++ b.

End Runs.

(** * Properties *)

Import JS.

(** ** The simulated adapter *)

Example generateMarketingCopy_waits_two_seconds :
  Bedrock.awaited
    (snd (Bedrock.generateMarketingCopy (lit "Diwali Sale") (lit "Retail")
            {| Bedrock.awaited := [] |}))
  = [2000%N].
Proof. reflexivity. Qed.

(** ** Validation in the form and in the orchestrator *)

Lemma trimStart_nil_iff (s : jsstring) :
  trimStart s = [] <-> forallb isWhiteSpace s = true.
Proof.
  induction s as [|c s IH]; simpl; [tauto|].
  destruct (isWhiteSpace c); simpl; [exact IH|].
  split; discriminate.
Qed.

Lemma trim_nil_iff (s : jsstring) :
  trim s = [] <-> forallb isWhiteSpace s = true.
Proof.
  unfold trim, trimEnd. split.
  - intros Hn. apply trimStart_nil_iff.
    destruct (trimStart s) as [|c r] eqn:E; [reflexivity|].
    exfalso.
    assert (Hr : trimStart (rev (c :: r)) = []).
    { destruct (trimStart (rev (c :: r))); [reflexivity|].
      simpl in Hn. destruct (rev _); discriminate. }
    apply trimStart_nil_iff in Hr.
    rewrite forallb_forall in Hr.
    assert (Hc : isWhiteSpace c = true).
    { apply Hr. rewrite <- in_rev. left. reflexivity. }
    clear Hr Hn. induction s as [|d s IH]; simpl in E; [discriminate|].
    destruct (isWhiteSpace d) eqn:Ed; [auto|].
    injection E as -> _. congruence.
  - intros Hw. apply trimStart_nil_iff in Hw. rewrite Hw. reflexivity.
Qed.

(** The form sends nothing exactly when the topic is empty or white space
    only; the length of the topic plays no part. *)
Lemma handleGenerate_rejects_iff_blank :
  forall (net : Page.Request -> Page.FetchOutcome) (s : Page.State),
    snd (Page.handleGenerate net s) = []
    <-> forallb isWhiteSpace (Page.topic s) = true.
Proof.
  intros net s. unfold Page.handleGenerate, Page.topicMissing.
  rewrite <- trim_nil_iff.
  destruct (trim (Page.topic s)); simpl; split; congruence.
Qed.

(** C1: the form accepts the two-character topic [ab]: its guard does not
    fire and the handler posts the topic to [/api/generate]. *)
Theorem handleGenerate_accepts_two_characters :
  forall net : Page.Request -> Page.FetchOutcome,
    let s := Page.setTopic (lit "ab") Page.initial in
    length (Page.topic s) = 2
    /\ Page.topicMissing (Page.topic s) = false
    /\ snd (Page.handleGenerate net s)
       = [{| Page.url := lit "/api/generate"; Page.method := lit "POST";
             Page.contentType := lit "application/json";
             Page.body_topic := lit "ab";
             Page.body_businessType := lit "Retail" |}].
Proof.
  intros net. repeat split.
Qed.

(** The form also turns down topics of three and more characters when they
    are blank. *)
Example handleGenerate_rejects_three_spaces :
  forall net : Page.Request -> Page.FetchOutcome,
    let s := Page.setTopic (lit "   ") Page.initial in
    length (Page.topic s) = 3
    /\ Page.handleGenerate net s
       = (Page.setError (lit "Please enter a campaign topic") s, []).
Proof.
  intros net. split; reflexivity.
Qed.

(** A topic the form turns down reaches no server: nothing is fetched and
    the message is set. *)
Lemma handleGenerate_rejection_sends_nothing :
  forall (net : Page.Request -> Page.FetchOutcome) (s : Page.State),
    Page.topicMissing (Page.topic s) = true ->
    Page.handleGenerate net s
    = (Page.setError (lit "Please enter a campaign topic") s, []).
Proof.
  intros net s Hm. unfold Page.handleGenerate. rewrite Hm. reflexivity.
Qed.

Section Orchestrator.
Context `{Design.Services}.
Import Design.

(** The orchestrator of the design document does check the length: its
    first statement returns the error exactly for prompts shorter than 3. *)
Lemma handleContentGeneration_rejects_iff_short :
  forall (request : Request) (w : World),
    (exists e, fst (handleContentGeneration request w) = inl e)
    <-> length (req_prompt request) < 3.
Proof.
  intros request w. unfold handleContentGeneration.
  destruct (length (req_prompt request) <? 3) eqn:E.
  - apply Nat.ltb_lt in E. split; [auto|]. intros _. eexists. reflexivity.
  - apply Nat.ltb_ge in E. split; [|lia]. intros [e He]. exfalso.
    revert He. unfold bind.
    repeat match goal with
           | |- context [let (_, _) := ?x in _] => destruct x
           end.
    simpl. discriminate.
Qed.

(** The orchestrator leaves the world exactly as it was when it rejects a
    prompt. *)
Lemma handleContentGeneration_rejection (request : Request) (w : World) :
  length (req_prompt request) < 3 ->
  handleContentGeneration request w = (inl (lit "Prompt too short"), w).
Proof.
  intros Hlen. unfold handleContentGeneration.
  apply Nat.ltb_lt in Hlen. rewrite Hlen. reflexivity.
Qed.

(** C6: a prompt that fails validation is answered with the validation
    error at once and without side effects. In the orchestrator a request
    whose prompt is shorter than 3 characters returns the error and leaves
    the world exactly as it was: no row is put in the Projects table, no
    Lambda is invoked, nothing is written to S3. In the form a topic that
    its guard turns down sets the message and sends no request. *)
Theorem rejected_prompt_has_no_side_effects :
  forall (request : Request) (w : World)
         (net : Page.Request -> Page.FetchOutcome) (s : Page.State),
    length (req_prompt request) < 3 ->
    Page.topicMissing (Page.topic s) = true ->
    handleContentGeneration request w = (inl (lit "Prompt too short"), w)
    /\ Page.handleGenerate net s
       = (Page.setError (lit "Please enter a campaign topic") s, []).
Proof.
  intros request w net s Hlen Hblank. split.
  - apply handleContentGeneration_rejection, Hlen.
  - apply handleGenerate_rejection_sends_nothing, Hblank.
Qed.

End Orchestrator.

Lemma rejected_prompt_has_no_side_effects_witness :
  let request := Sample.request "ab" [Design.instagram] in
  let net := fun _ : Page.Request =>
               Page.FetchRejects (Page.ErrorObject (lit "offline")) in
  let s := Page.setTopic (lit "  ") Page.initial in
  length (Design.req_prompt request) < 3
  /\ Page.topicMissing (Page.topic s) = true
  /\ Design.handleContentGeneration request (Sample.world [])
     = (inl (lit "Prompt too short"), Sample.world [])
  /\ Page.handleGenerate net s
     = (Page.setError (lit "Please enter a campaign topic") s, []).
Proof.
  intros request net s.
  assert (H1 : length (Design.req_prompt request) < 3)
    by (vm_compute; lia).
  assert (H2 : Page.topicMissing (Page.topic s) = true) by reflexivity.
  split; [exact H1|]. split; [exact H2|].
  exact (rejected_prompt_has_no_side_effects request (Sample.world [])
           net s H1 H2).
Defined.

(** A prompt of three characters passes the check: the project row is
    written and the three Lambdas are invoked, in the order image, video,
    text. *)
Example three_characters_are_processed :
  let run := Design.handleContentGeneration
               (Sample.request "abc" [Design.instagram]) (Sample.world []) in
  Design.invocations (snd run)
  = [Design.ImageGeneratorLambda; Design.VideoGeneratorLambda;
     Design.TextGeneratorLambda]
  /\ (exists r, fst run = inr r
                /\ Design.resp_status r = Design.failed
                /\ List.map Design.component (Design.resp_errors r)
                   = [Design.image; Design.video; Design.text]).
Proof.
  split; [vm_compute; reflexivity|].
  eexists. split; [vm_compute; reflexivity|]. split; vm_compute; reflexivity.
Qed.

(** ** Retry with backoff *)

Section Retry.
Context `{Design.Services} {T : Type}.
Import Design.

Lemma sleep_trace (ms : nat) (w : World) :
  trace (snd (sleep ms w)) = trace w ++ [Slept ms].
Proof. reflexivity. Qed.

Lemma sleeps_after_sleep (ms : nat) (w : World) :
  sleeps (snd (sleep ms w)) = sleeps w ++ [ms].
Proof.
  unfold sleeps. rewrite sleep_trace, omap_app. reflexivity.
Qed.

Lemma marks_after_sleep (P : Event -> bool) (ms : nat) (w : World) :
  P (Slept ms) = false -> marks P (snd (sleep ms w)) = marks P w.
Proof.
  intros HP. unfold marks. rewrite sleep_trace, List.filter_app. simpl.
  rewrite HP, app_nil_r. reflexivity.
Qed.

(** One iteration of the loop. *)
Lemma retryLoop_step (operation : M (Error + T)) (maxRetries attempt : nat)
  (rest : list nat) (w : World) :
  retryLoop operation maxRetries (attempt :: rest) w
  = match fst (operation w) with
    | inr v => (Returned v, snd (operation w))
    | inl e =>
        if isRetryableError e then
          if maxRetries - 1 <=? attempt then (Thrown e, snd (operation w))
          else retryLoop operation maxRetries rest
                 (snd (sleep (2 ^ attempt * 100) (snd (operation w))))
        else (Thrown e, snd (operation w))
    end.
Proof.
  simpl. unfold bind. destruct (operation w) as [[e|v] w1]; [|reflexivity].
  cbn [fst snd]. destruct (isRetryableError e); [|reflexivity].
  destruct (maxRetries - 1 <=? attempt); reflexivity.
Qed.

(** At any iteration of the loop, an error that is not retryable is thrown
    at once: the operation is not called again and nothing is slept. *)
Lemma retryLoop_terminal (operation : M (Error + T)) (maxRetries attempt : nat)
  (rest : list nat) (w w1 : World) (e : Error) :
  operation w = (inl e, w1) ->
  isRetryableError e = false ->
  retryLoop operation maxRetries (attempt :: rest) w = (Thrown e, w1).
Proof.
  intros Hop He. rewrite retryLoop_step, Hop. cbn [fst snd].
  rewrite He. reflexivity.
Qed.

Lemma retryLoop_success (operation : M (Error + T)) (maxRetries attempt : nat)
  (rest : list nat) (w w1 : World) (v : T) :
  operation w = (inr v, w1) ->
  retryLoop operation maxRetries (attempt :: rest) w = (Returned v, w1).
Proof.
  intros Hop. rewrite retryLoop_step, Hop. reflexivity.
Qed.

(** C3, as the code has it. For an operation that leaves one mark per call
    and does not sleep itself: it is called at least once and at most 3
    times; the delays are 100 ms before the second call and 200 ms before
    the third, and no other; the loop always ends in a [return] or a
    [throw]; an error that is not retryable is thrown at once, at whatever
    attempt; after three retryable failures the third error is thrown as it
    is, with no further delay. *)
Theorem retryWithBackoff_bounded :
  forall (operation : M (Error + T)) (P : Event -> bool) (w : World),
    (forall w0, marks P (snd (operation w0)) = S (marks P w0)) ->
    (forall w0, sleeps (snd (operation w0)) = sleeps w0) ->
    (forall ms, P (Slept ms) = false) ->
    let c := fst (retryWithBackoff operation w) in
    let w' := snd (retryWithBackoff operation w) in
    (exists k, 1 <= k <= 3
               /\ marks P w' = marks P w + k
               /\ sleeps w' = sleeps w ++ take (k - 1) [100; 200])
    /\ c <> FellThrough
    /\ (forall attempt rest w0 e w1,
           operation w0 = (inl e, w1) ->
           isRetryableError e = false ->
           retryLoop operation 3 (attempt :: rest) w0 = (Thrown e, w1))
    /\ (forall e1 w1 e2 w2 e3 w3,
           operation w = (inl e1, w1) -> isRetryableError e1 = true ->
           operation (snd (sleep 100 w1)) = (inl e2, w2) ->
           isRetryableError e2 = true ->
           operation (snd (sleep 200 w2)) = (inl e3, w3) ->
           c = Thrown e3 /\ w' = w3).
Proof.
  intros operation P w Hmark Hquiet HP c w'. subst c w'.
  assert (Hterm : forall attempt rest w0 e w1,
             operation w0 = (inl e, w1) ->
             isRetryableError e = false ->
             retryLoop operation 3 (attempt :: rest) w0 = (Thrown e, w1))
    by (intros; apply retryLoop_terminal; assumption).
  unfold retryWithBackoff, retryWithBackoffN.
  change (seq 0 3) with [0; 1; 2].
  rewrite retryLoop_step.
  change (2 ^ 0 * 100) with 100. change (3 - 1 <=? 0) with false.
  pose proof (Hmark w) as M1. pose proof (Hquiet w) as Q1.
  destruct (operation w) as [r1 w1] eqn:E1. cbn [fst snd] in *.
  assert (Hone : forall c : Completion T, c <> FellThrough ->
    (exists k, 1 <= k <= 3 /\ marks P w1 = marks P w + k
               /\ sleeps w1 = sleeps w ++ take (k - 1) [100; 200])
    /\ c <> FellThrough).
  { intros c Hc. split; [|exact Hc]. exists 1. cbn [take Nat.sub].
    rewrite app_nil_r. repeat split; lia || auto. }
  destruct r1 as [e1|v1].
  2:{ destruct (Hone (Returned v1)) as [? ?]; [discriminate|].
      repeat split; auto; intros; discriminate. }
  destruct (isRetryableError e1) eqn:R1.
  2:{ destruct (Hone (Thrown e1)) as [? ?]; [discriminate|].
      repeat split; auto; intros; try congruence. }
  clear Hone.
  rewrite retryLoop_step.
  change (2 ^ 1 * 100) with 200. change (3 - 1 <=? 1) with false.
  pose proof (Hmark (snd (sleep 100 w1))) as M2.
  pose proof (Hquiet (snd (sleep 100 w1))) as Q2.
  rewrite marks_after_sleep in M2 by apply HP.
  rewrite sleeps_after_sleep in Q2.
  destruct (operation (snd (sleep 100 w1))) as [r2 w2] eqn:E2.
  cbn [fst snd] in *.
  assert (Htwo : forall c : Completion T, c <> FellThrough ->
    (exists k, 1 <= k <= 3 /\ marks P w2 = marks P w + k
               /\ sleeps w2 = sleeps w ++ take (k - 1) [100; 200])
    /\ c <> FellThrough).
  { intros c Hc. split; [|exact Hc]. exists 2. cbn [take Nat.sub].
    rewrite Q2, Q1. repeat split; lia || auto. }
  destruct r2 as [e2|v2].
  2:{ destruct (Htwo (Returned v2)) as [? ?]; [discriminate|].
      repeat split; auto; intros; congruence. }
  destruct (isRetryableError e2) eqn:R2.
  2:{ destruct (Htwo (Thrown e2)) as [? ?]; [discriminate|].
      repeat split; auto; intros; congruence. }
  clear Htwo.
  rewrite retryLoop_step.
  change (3 - 1 <=? 2) with true.
  pose proof (Hmark (snd (sleep 200 w2))) as M3.
  pose proof (Hquiet (snd (sleep 200 w2))) as Q3.
  rewrite marks_after_sleep in M3 by apply HP.
  rewrite sleeps_after_sleep in Q3.
  destruct (operation (snd (sleep 200 w2))) as [r3 w3] eqn:E3.
  cbn [fst snd] in *.
  assert (Hthree : forall c : Completion T, c <> FellThrough ->
    (exists k, 1 <= k <= 3 /\ marks P w3 = marks P w + k
               /\ sleeps w3 = sleeps w ++ take (k - 1) [100; 200])
    /\ c <> FellThrough).
  { intros c Hc. split; [|exact Hc]. exists 3. cbn [take Nat.sub].
    rewrite Q3, Q2, Q1, <- app_assoc. repeat split; lia || auto. }
  destruct r3 as [e3|v3].
  2:{ destruct (Hthree (Returned v3)) as [? ?]; [discriminate|].
      repeat split; auto; intros; congruence. }
  assert (Hlast : (if isRetryableError e3
                   then (Thrown e3, w3) else (Thrown e3, w3))
                  = (@Thrown T e3, w3))
    by (destruct (isRetryableError e3); reflexivity).
  rewrite Hlast. cbn [fst snd].
  destruct (Hthree (Thrown e3)) as [? ?]; [discriminate|].
  repeat split; auto; intros; try congruence.
  all: repeat match goal with Heq : (_, _) = (_, _) |- _ =>
         injection Heq; clear Heq; intros; subst end.
  all: try congruence.
Qed.

(** A call to the model endpoint is such an operation. *)
Lemma invokeModel_marks (req : ModelRequest) (w : World) :
  marks Sample.isModelCall (snd (invokeModel req w))
  = S (marks Sample.isModelCall w).
Proof.
  assert (E : trace (snd (invokeModel req w)) = trace w ++ [ModelInvoked req]).
  { unfold invokeModel. cbn [emit bedrock].
    destruct (bedrock w); reflexivity. }
  unfold marks. rewrite E, List.filter_app, length_app. simpl. lia.
Qed.

Lemma invokeModel_quiet (req : ModelRequest) (w : World) :
  sleeps (snd (invokeModel req w)) = sleeps w.
Proof.
  assert (E : trace (snd (invokeModel req w)) = trace w ++ [ModelInvoked req]).
  { unfold invokeModel. cbn [emit bedrock].
    destruct (bedrock w); reflexivity. }
  unfold sleeps. rewrite E, omap_app. simpl. apply app_nil_r.
Qed.

End Retry.

Lemma retryWithBackoff_bounded_witness :
  let operation := Design.invokeModel (Design.ClaudeText (lit "hello") 1000) in
  let P := Sample.isModelCall in
  let w := Sample.world [Sample.rateLimited; Sample.rateLimited;
                         Sample.ok "hi" 0] in
  (forall w0, Design.marks P (snd (operation w0)) = S (Design.marks P w0))
  /\ (forall w0, Design.sleeps (snd (operation w0)) = Design.sleeps w0)
  /\ (forall ms, P (Design.Slept ms) = false)
  /\ (let c := fst (Design.retryWithBackoff operation w) in
      let w' := snd (Design.retryWithBackoff operation w) in
      (exists k, 1 <= k <= 3
                 /\ Design.marks P w' = Design.marks P w + k
                 /\ Design.sleeps w'
                    = Design.sleeps w ++ take (k - 1) [100; 200])
      /\ c <> Design.FellThrough
      /\ (forall attempt rest w0 e w1,
             operation w0 = (inl e, w1) ->
             Design.isRetryableError e = false ->
             Design.retryLoop operation 3 (attempt :: rest) w0
             = (Design.Thrown e, w1))
      /\ (forall e1 w1 e2 w2 e3 w3,
             operation w = (inl e1, w1) ->
             Design.isRetryableError e1 = true ->
             operation (snd (Design.sleep 100 w1)) = (inl e2, w2) ->
             Design.isRetryableError e2 = true ->
             operation (snd (Design.sleep 200 w2)) = (inl e3, w3) ->
             c = Design.Thrown e3 /\ w' = w3)).
Proof.
  intros operation P w.
  assert (H1 : forall w0, Design.marks P (snd (operation w0))
                          = S (Design.marks P w0))
    by (intros w0; apply invokeModel_marks).
  assert (H2 : forall w0, Design.sleeps (snd (operation w0))
                          = Design.sleeps w0)
    by (intros w0; apply invokeModel_quiet).
  assert (H3 : forall ms, P (Design.Slept ms) = false)
    by (intros ms; reflexivity).
  split; [exact H1|]. split; [exact H2|]. split; [exact H3|].
  exact (retryWithBackoff_bounded operation P w H1 H2 H3).
Defined.

(** C3, as the claim states it, fails on an operation that is rate limited
    three times: the delays are 100 ms and 200 ms, there is no delay of
    400 ms, and what is thrown is the error of the third call as the
    endpoint raised it. *)
Lemma retryWithBackoff_exhausted_sleeps_twice :
  let operation := Design.invokeModel (Design.ClaudeText (lit "hello") 1000) in
  let run := Design.retryWithBackoff operation
               (Sample.world [Sample.rateLimited; Sample.rateLimited;
                              Sample.rateLimited; Sample.ok "hi" 0]) in
  length (Design.modelCalls (snd run)) = 3
  /\ Design.sleeps (snd run) = [100; 200]
  /\ ~ In 400 (Design.sleeps (snd run))
  /\ fst run = Design.Thrown {| Design.errorClass := Design.RateLimitError;
                                 Design.errorText := lit "429" |}.
Proof.
  cbv zeta. split; [vm_compute; reflexivity|].
  split; [vm_compute; reflexivity|].
  split; [|vm_compute; reflexivity].
  vm_compute. intros [E|[E|[]]]; discriminate.
Qed.

Example retryWithBackoff_third_call_succeeds :
  let operation := Design.invokeModel (Design.ClaudeText (lit "hello") 1000) in
  let run := Design.retryWithBackoff operation
               (Sample.world [Sample.rateLimited; Sample.rateLimited;
                              Sample.ok "hi" 0]) in
  fst run = Design.Returned {| Sample.body := lit "hi"; Sample.seconds := 0 |}
  /\ Design.sleeps (snd run) = [100; 200].
Proof. split; vm_compute; reflexivity. Qed.

Example retryWithBackoff_terminal_error_is_not_retried :
  let operation := Design.invokeModel (Design.ClaudeText (lit "hello") 1000) in
  let run := Design.retryWithBackoff operation
               (Sample.world [Sample.denied; Sample.ok "hi" 0]) in
  fst run = Design.Thrown {| Design.errorClass := Design.AuthenticationFailure;
                             Design.errorText := lit "403" |}
  /\ length (Design.modelCalls (snd run)) = 1
  /\ Design.sleeps (snd run) = [].
Proof. repeat split; vm_compute; reflexivity. Qed.

(** ** Partial failure handling *)

Section PartialFailure.
Context `{Design.Services} {A : Type}.
Import Design.

Lemma successfulAssets_length (results : GeneratorResults A) :
  (0 <? length (successfulAssetsOf results))
  = (contributes (images results) || contributes (videos results)
     || contributes (text_ results)).
Proof.
  unfold successfulAssetsOf, contributes.
  destruct (success (images results)), (success (videos results)),
    (success (text_ results)); simpl; rewrite ?length_app;
    destruct (length (data (images results))),
      (length (data (videos results))),
      (length (data (text_ results))); reflexivity.
Qed.

(** The report of a partial failure: [handlePartialFailure] answers
    [partial] exactly when at least one component succeeded with at least one asset
    (all three succeeding included), [failed] exactly when none did, and
    never [complete]. *)
Theorem handlePartialFailure_status :
  forall results : GeneratorResults A,
    let st := reportStatus (handlePartialFailure results) in
    let some := contributes (images results) || contributes (videos results)
                || contributes (text_ results) in
    (st = partial <-> some = true)
    /\ (st = failed <-> some = false)
    /\ st <> complete.
Proof.
  intros results st some. subst st some.
  unfold handlePartialFailure. rewrite successfulAssets_length.
  destruct (contributes (images results) || contributes (videos results)
            || contributes (text_ results)); simpl;
    repeat split; congruence.
Qed.

(** When every component that succeeded brought at least one asset, the
    status is [failed] exactly when all three failed. *)
Lemma handlePartialFailure_failed_iff_all_failed
  (results : GeneratorResults A) :
  (success (images results) = true -> data (images results) <> []) ->
  (success (videos results) = true -> data (videos results) <> []) ->
  (success (text_ results) = true -> data (text_ results) <> []) ->
  reportStatus (handlePartialFailure results) = failed
  <-> success (images results) = false /\ success (videos results) = false
      /\ success (text_ results) = false.
Proof.
  intros Hi Hv Ht.
  unfold handlePartialFailure. rewrite successfulAssets_length.
  unfold contributes.
  destruct (success (images results)), (success (videos results)),
    (success (text_ results));
    destruct (data (images results)), (data (videos results)),
      (data (text_ results)); simpl; split; intros;
    repeat match goal with
           | Hx : true = true -> [] <> [] |- _ =>
               exfalso; apply (Hx eq_refl); reflexivity
           | Hx : _ /\ _ |- _ => destruct Hx
           end;
    try discriminate; auto.
Qed.

(** The list of failed components is built in the order images, videos,
    text, one label for each component that did not succeed. *)
Lemma failedComponents_fixed_order (results : GeneratorResults A) :
  failedComponentsOf results
  = List.map snd
      (List.filter (fun c => negb (success (fst c)))
         [(images results, lit "images"); (videos results, lit "videos");
          (text_ results, lit "captions and hashtags")]).
Proof.
  unfold failedComponentsOf.
  generalize (lit "images") (lit "videos") (lit "captions and hashtags").
  intros a b c. cbn [List.filter fst].
  destruct (success (images results)), (success (videos results)),
    (success (text_ results)); reflexivity.
Qed.

End PartialFailure.

(** When all three components succeed the report of
    [handlePartialFailure] still says [partial]. *)
Lemma handlePartialFailure_all_succeeded_is_partial :
  let results :=
    {| Design.images := {| Design.success := true; Design.data := [1] |};
       Design.videos := {| Design.success := true; Design.data := [2] |};
       Design.text_ := {| Design.success := true; Design.data := [3] |};
       Design.error := None |} in
  Design.reportStatus (Design.handlePartialFailure results) = Design.partial
  /\ Design.reportStatus (Design.handlePartialFailure results)
     <> Design.complete.
Proof.
  split; [reflexivity | discriminate].
Qed.

(** A component that succeeded with no asset does not make the status
    [partial]. *)
Example handlePartialFailure_empty_success_is_failed :
  Design.reportStatus
    (Design.handlePartialFailure
       {| Design.images := {| Design.success := true;
                              Design.data := @nil nat |};
          Design.videos := {| Design.success := false; Design.data := [] |};
          Design.text_ := {| Design.success := false; Design.data := [] |};
          Design.error := None |})
  = Design.failed.
Proof. reflexivity. Qed.

Example handlePartialFailure_message :
  Design.handlePartialFailure
    {| Design.images := {| Design.success := true; Design.data := [1; 2] |};
       Design.videos := {| Design.success := false; Design.data := [] |};
       Design.text_ := {| Design.success := false; Design.data := [] |};
       Design.error := None |}
  = Design.PartialReport Design.partial [1; 2]
      (lit "Generated 2 assets. Failed to generate: videos, captions and hashtags")
      [lit "videos"; lit "captions and hashtags"].
Proof. vm_compute. reflexivity. Qed.

(** ** Aggregation in the orchestrator *)

Section Aggregation.
Context `{Design.Services}.
Import Design.

Lemma deliver_comm (p : Promises) (c1 c2 : Component) (r : Outcomes) :
  deliver p c1 (deliver p c2 r) = deliver p c2 (deliver p c1 r).
Proof. destruct c1, c2; reflexivity. Qed.

Lemma fold_deliver_perm (p : Promises) (order order' : list Component) :
  Permutation order order' ->
  forall r, fold_left (fun results c => deliver p c results) order r
            = fold_left (fun results c => deliver p c results) order' r.
Proof.
  induction 1 as [|c l l' _ IH|c1 c2 l|l1 l2 l3 _ IH1 _ IH2]; intros r; simpl.
  - reflexivity.
  - apply IH.
  - rewrite deliver_comm. reflexivity.
  - rewrite IH1. apply IH2.
Qed.

(** What [awaitAll] gathers does not depend on the order of completion. *)
Lemma gather_perm (p : Promises) (t : nat) (order order' : list Component) :
  Permutation order order' -> gather p t order = gather p t order'.
Proof. intros Hp. unfold gather. apply fold_deliver_perm, Hp. Qed.

Lemma gather_tagged (p : Promises) (t : nat) (order : list Component) :
  wellTagged p -> slotsTagged (gather p t order).
Proof.
  intros (Hi & Hv & Ht). unfold gather.
  set (r0 := {| out_image := Failed (timedOut image t);
                out_video := Failed (timedOut video t);
                out_text := Failed (timedOut text t) |}).
  assert (H0 : slotsTagged r0).
  { repeat split; intros e [= <-]; reflexivity. }
  clearbody r0. revert r0 H0.
  induction order as [|c order IH]; intros r0 H0; simpl; [exact H0|].
  apply IH. destruct H0 as (Ha & Hb & Hc).
  destruct c; repeat split; assumption.
Qed.

Lemma collectErrors_components (r : Outcomes) :
  slotsTagged r ->
  List.map component (collectErrors r)
  = List.filter (fun c => negb (succeededAt r c)) [image; video; text].
Proof.
  intros (Hi & Hv & Ht). unfold collectErrors. simpl.
  destruct (out_image r) as [?|ei] eqn:Ei, (out_video r) as [?|ev] eqn:Ev,
    (out_text r) as [?|et] eqn:Et; simpl;
    rewrite ?(Hi ei), ?(Hv ev), ?(Ht et) by reflexivity; reflexivity.
Qed.

(** C5: whatever the order in which the components complete, the errors
    collected from what [awaitAll] gathered are the same list; it names
    exactly the components that failed, each once, in the order image,
    video, text. *)
Theorem collectErrors_fixed_order :
  forall (p : Promises) (t : nat) (order order' : list Component),
    wellTagged p ->
    Permutation order order' ->
    let results := gather p t order in
    collectErrors results = collectErrors (gather p t order')
    /\ List.map component (collectErrors results)
       = List.filter (fun c => negb (succeededAt results c))
           [image; video; text]
    /\ length (collectErrors results)
       = length (List.filter (fun c => negb (succeededAt results c))
                   [image; video; text]).
Proof.
  intros p t order order' Hp Hperm results. subst results.
  rewrite (gather_perm p t order order' Hperm).
  assert (E := collectErrors_components _ (gather_tagged p t order' Hp)).
  repeat split; [exact E|]. rewrite <- E, length_map. reflexivity.
Qed.

(** The promises [invokeAsync] makes are tagged with their component. *)
Lemma invokeAsync_tagged {A B} (l : Lambda) (c : Component) (run : M A)
  (outcome : A -> Error + B) (w : World) :
  taggedWith c (fst (invokeAsync l c run outcome w)).
Proof.
  unfold invokeAsync. destruct (run _) as [a w1]. cbn [fst].
  destruct (outcome a); intros e' [= <-]. reflexivity.
Qed.

(** So every response of the orchestrator lists its errors in the order
    image, video, text, one for each component that did not succeed. *)
Lemma handleContentGeneration_errors (request : Request) (w : World)
  (response : Response) :
  fst (handleContentGeneration request w) = inr response ->
  exists results : Outcomes,
    resp_errors response = collectErrors results
    /\ resp_status response = determineStatus results
    /\ List.map component (resp_errors response)
       = List.filter (fun c => negb (succeededAt results c))
           [image; video; text].
Proof.
  unfold handleContentGeneration.
  destruct (length (req_prompt request) <? 3); [discriminate|].
  unfold bind.
  destruct (generateUUID w) as [pid w1].
  destruct (currentTimestamp w1) as [t1 w2].
  destruct (dynamoDB_putItem _ w2) as [[] w3].
  pose proof (invokeAsync_tagged ImageGeneratorLambda image
    (generateImages (req_userId request) (req_prompt request) pid 3
       (req_platforms request)) id w3) as Ti.
  destruct (invokeAsync ImageGeneratorLambda _ _ _ w3) as [pi w4].
  pose proof (invokeAsync_tagged VideoGeneratorLambda video
    (generateVideo (req_userId request) (req_prompt request) pid)
    (fun r => match r with inr v => inr [v] | inl e => inl e end) w4) as Tv.
  destruct (invokeAsync VideoGeneratorLambda _ _ _ w4) as [pv w5].
  pose proof (invokeAsync_tagged TextGeneratorLambda text
    (generateText (req_prompt request) (req_platforms request))
    textOutcome w5) as Tt.
  destruct (invokeAsync TextGeneratorLambda _ _ _ w5) as [pt w6].
  cbn [fst] in Ti, Tv, Tt.
  unfold awaitAll.
  destruct (currentTimestamp w6) as [t2 w7].
  destruct (dynamoDB_updateItem _ _ _ _ w7) as [[] w8].
  cbn [fst ret]. intros [= <-]. cbn [resp_errors resp_status].
  eexists. split; [reflexivity|]. split; [reflexivity|].
  apply collectErrors_components, gather_tagged. repeat split; assumption.
Qed.

(** The status modelled for the orchestrator is the one the spec words. *)
Lemma determineStatus_cases (results : Outcomes) :
  (determineStatus results = complete
   <-> succeededAt results image = true /\ succeededAt results video = true
       /\ succeededAt results text = true)
  /\ (determineStatus results = failed
      <-> succeededAt results image = false
          /\ succeededAt results video = false
          /\ succeededAt results text = false)
  /\ (determineStatus results = partial
      <-> (exists c, succeededAt results c = true)
          /\ (exists c, succeededAt results c = false)).
Proof.
  unfold determineStatus, succeededAt.
  destruct (out_image results), (out_video results), (out_text results);
    simpl; repeat split; intros;
    repeat match goal with
           | Hx : _ /\ _ |- _ => destruct Hx
           | Hx : exists _, _ |- _ => destruct Hx as [[] ?]
           end;
    try discriminate; try reflexivity;
    try (exists image; reflexivity); try (exists video; reflexivity);
    try (exists text; reflexivity).
Qed.

(** C2: the status the orchestrator puts in its response is the one
    [determineStatus] computes from what [awaitAll] gathered. It is
    [complete] exactly when the three components succeeded, [failed]
    exactly when the three failed, and [partial] exactly when at least one
    succeeded and at least one failed. A component whose outcome has not
    arrived when the deadline of [awaitAll] passes counts as failed, so
    the status is [failed] when no outcome arrived in time. *)
Theorem determineStatus_by_outcomes :
  forall results : Outcomes,
    (determineStatus results = complete
     <-> succeededAt results image = true
         /\ succeededAt results video = true
         /\ succeededAt results text = true)
    /\ (determineStatus results = failed
        <-> succeededAt results image = false
            /\ succeededAt results video = false
            /\ succeededAt results text = false)
    /\ (determineStatus results = partial
        <-> (exists c, succeededAt results c = true)
            /\ (exists c, succeededAt results c = false))
    /\ (forall (p : Promises) (deadline : nat),
          determineStatus (gather p deadline []) = failed).
Proof.
  intros results.
  destruct (determineStatus_cases results) as (Hc & Hf & Hp).
  split; [exact Hc|]. split; [exact Hf|]. split; [exact Hp|].
  intros p deadline. reflexivity.
Qed.

End Aggregation.

Lemma collectErrors_fixed_order_witness :
  let p := Sample.videoLost in
  let order := [Design.image; Design.video; Design.text] in
  let order' := [Design.text; Design.image; Design.video] in
  Design.wellTagged p
  /\ Permutation order order'
  /\ (let results := Design.gather p 9 order in
      Design.collectErrors results
      = Design.collectErrors (Design.gather p 9 order')
      /\ List.map Design.component (Design.collectErrors results)
         = List.filter (fun c => negb (Design.succeededAt results c))
             [Design.image; Design.video; Design.text]
      /\ length (Design.collectErrors results)
         = length (List.filter
                     (fun c => negb (Design.succeededAt results c))
                     [Design.image; Design.video; Design.text])).
Proof.
  intros p order order'.
  assert (Hp : Design.wellTagged p).
  { repeat split; intros e [=]; subst; reflexivity. }
  assert (Ho : Permutation order order').
  { subst order order'.
    apply Permutation_sym, (Permutation_cons_app [_; _] []), Permutation_refl. }
  split; [exact Hp|]. split; [exact Ho|].
  exact (collectErrors_fixed_order p 9 order order' Hp Ho).
Defined.

Example collectErrors_video_only :
  Design.collectErrors
    (Design.gather Sample.videoLost 9
       [Design.text; Design.video; Design.image])
  = [Sample.videoFailed]
  /\ Design.determineStatus
       (Design.gather Sample.videoLost 9
          [Design.text; Design.video; Design.image])
     = Design.partial.
Proof. split; reflexivity. Qed.

(** All three components miss the deadline: three [TIMEOUT_ERROR]s, in the
    order image, video, text. *)
Example collectErrors_all_timed_out :
  Design.collectErrors (Design.gather Sample.videoLost 9 [])
  = [Design.timedOut Design.image 9; Design.timedOut Design.video 9;
     Design.timedOut Design.text 9]
  /\ Design.determineStatus (Design.gather Sample.videoLost 9 [])
     = Design.failed.
Proof. split; reflexivity. Qed.

(** ** The video generator *)

Section Video.
Context `{Design.Services}.
Import Design.

Lemma extends_refl (w : World) : extends [] [] w w.
Proof. split; [rewrite app_nil_r|]; reflexivity. Qed.

Lemma extends_trans (n1 n2 : list ModelRequest) (u1 u2 : list (Error + blob))
  (w1 w2 w3 : World) :
  extends n1 u1 w1 w2 -> extends n2 u2 w2 w3 ->
  extends (n1 ++ n2) (u1 ++ u2) w1 w3.
Proof.
  intros [A1 B1] [A2 B2]. split.
  - rewrite A2, A1, app_assoc. reflexivity.
  - rewrite B1, B2, app_assoc. reflexivity.
Qed.

Lemma modelCalls_emit (e : Event) (w : World) :
  modelCalls (emit e w)
  = modelCalls w ++ match e with ModelInvoked r => [r] | _ => [] end.
Proof.
  unfold modelCalls, emit. cbn [trace]. rewrite omap_app.
  destruct e; reflexivity.
Qed.

Lemma invokeModel_extends (req : ModelRequest) (w : World) :
  exists used, extends [req] used w (snd (invokeModel req w))
    /\ forall b, fst (invokeModel req w) = inr b -> In (inr b) used.
Proof.
  unfold invokeModel, extends.
  pose proof (modelCalls_emit (ModelInvoked req) w) as Hc.
  assert (Hb : bedrock (emit (ModelInvoked req) w) = bedrock w)
    by reflexivity.
  destruct (bedrock (emit (ModelInvoked req) w)) as [|r rest];
    cbn [fst snd].
  - exists []. repeat split; auto. intros b [=].
  - exists [r]. repeat split; auto. intros b ->. left. reflexivity.
Qed.

Lemma draw_extends (w : World) : extends [] [] w (snd (draw w)).
Proof.
  unfold draw, extends.
  destruct (entropy w); cbn [snd]; rewrite app_nil_r; split; reflexivity.
Qed.

Lemma randomInt_extends (lo hi : nat) (w : World) :
  extends [] [] w (snd (randomInt lo hi w)).
Proof.
  unfold randomInt, bind, ret. pose proof (draw_extends w) as E.
  destruct (draw w). exact E.
Qed.

Lemma randomInt_range (lo hi : nat) (w : World) :
  lo <= hi -> lo <= fst (randomInt lo hi w) <= hi.
Proof.
  intros Hle. unfold randomInt, bind, ret. destruct (draw w) as [r w1].
  cbn [fst].
  pose proof (Nat.mod_upper_bound r (hi - lo + 1)). lia.
Qed.

Lemma sleep_extends (ms : nat) (w : World) :
  extends [] [] w (snd (sleep ms w)).
Proof.
  unfold sleep, extends. cbn [snd].
  pose proof (modelCalls_emit (Slept ms) w) as Hc. rewrite app_nil_r in Hc.
  rewrite app_nil_r. split; [exact Hc | reflexivity].
Qed.

Lemma s3_putObject_extends (k : jsstring) (d : option blob) (w : World) :
  extends [] [] w (snd (s3_putObject k d w)).
Proof.
  unfold s3_putObject, extends. cbn [snd].
  pose proof (modelCalls_emit (S3Put k) w) as Hc. rewrite app_nil_r in Hc.
  rewrite app_nil_r. split; [exact Hc | reflexivity].
Qed.

Lemma generateUUID_extends (w : World) :
  extends [] [] w (snd (generateUUID w)).
Proof. unfold extends. cbn [snd]. rewrite app_nil_r. split; reflexivity. Qed.

Lemma videoRetryLoop_S (fuel : nat) (prompt : jsstring) (retries : nat)
  (videoData : option blob) :
  videoRetryLoop (S fuel) prompt retries videoData
  = if retries <? 3 then
      seed <- randomSeed ;;
      video_length <- randomInt 3 10 ;;
      r <- invokeModel (StableDiffusionVideo prompt seed video_length) ;;
      match r with
      | inr d => ret (Broke (Some d))
      | inl error =>
          if 3 <=? S retries then ret (ReturnedError error)
          else
            sleep (exponentialBackoff (S retries)) ;;;
            videoRetryLoop fuel prompt (S retries) videoData
      end
    else ret (Broke videoData).
Proof. reflexivity. Qed.

Lemma videoRetryLoop_spec (fuel : nat) (prompt : jsstring) :
  forall (retries : nat) (videoData : option blob) (w w' : World)
         (x : LoopExit),
    videoRetryLoop fuel prompt retries videoData w = (x, w') ->
    exists new used,
      extends new used w w'
      /\ Forall (videoRequestInRange prompt) new
      /\ (retries < 3 -> 3 <= retries + fuel ->
          forall d, x = Broke d -> exists b, d = Some b /\ In (inr b) used).
Proof.
  induction fuel as [|fuel IH]; intros retries videoData w w' x Hrun.
  - injection Hrun as <- <-. exists [], [].
    split; [apply extends_refl|]. split; [constructor|]. lia.
  - rewrite videoRetryLoop_S in Hrun. destruct (retries <? 3) eqn:Hr.
    2:{ injection Hrun as <- <-. exists [], []. apply Nat.ltb_ge in Hr.
        split; [apply extends_refl|]. split; [constructor|]. lia. }
    apply Nat.ltb_lt in Hr. unfold bind, randomSeed in Hrun.
    pose proof (draw_extends w) as E1.
    destruct (draw w) as [seed w1]. cbn [snd] in E1.
    pose proof (randomInt_extends 3 10 w1) as E2.
    pose proof (randomInt_range 3 10 w1 ltac:(lia)) as Hlen.
    destruct (randomInt 3 10 w1) as [len w2]. cbn [fst snd] in E2, Hlen.
    destruct (invokeModel_extends (StableDiffusionVideo prompt seed len) w2)
      as (used & E3 & Hin).
    pose proof (extends_trans _ _ _ _ _ _ _
                  (extends_trans _ _ _ _ _ _ _ E1 E2) E3) as E.
    cbn [app] in E.
    assert (Freq : videoRequestInRange prompt
                     (StableDiffusionVideo prompt seed len))
      by (exists seed, len; auto).
    destruct (invokeModel (StableDiffusionVideo prompt seed len) w2)
      as [[e|b] w3]; cbn [fst snd] in E, Hin.
    + destruct (3 <=? S retries) eqn:Hlast.
      * injection Hrun as <- <-.
        exists [StableDiffusionVideo prompt seed len], used.
        split; [exact E|]. split; [constructor; [exact Freq | constructor]|].
        intros _ _ d [=].
      * apply Nat.leb_gt in Hlast.
        pose proof (sleep_extends (exponentialBackoff (S retries)) w3) as E4.
        destruct (sleep (exponentialBackoff (S retries)) w3) as [[] w4].
        cbn [snd] in E4.
        destruct (IH (S retries) videoData w4 w' x Hrun)
          as (new & used' & E5 & F & B).
        exists (StableDiffusionVideo prompt seed len :: new), (used ++ used').
        pose proof (extends_trans _ _ _ _ _ _ _
                      (extends_trans _ _ _ _ _ _ _ E E4) E5) as E'.
        cbn [app] in E'. rewrite app_nil_r in E'.
        split; [exact E'|]. split; [constructor; assumption|].
        intros _ Hf d Hd.
        destruct (B ltac:(lia) ltac:(lia) d Hd) as (b & -> & Hb).
        exists b. split; [reflexivity|]. apply in_or_app. auto.
    + injection Hrun as <- <-.
      exists [StableDiffusionVideo prompt seed len], used.
      split; [exact E|]. split; [constructor; [exact Freq | constructor]|].
      intros _ _ d [= <-]. exists b. auto.
Qed.

Lemma generateVideo_spec (userId prompt projectId : jsstring)
  (w w' : World) (r : Error + VideoAsset) :
  generateVideo userId prompt projectId w = (r, w') ->
  (exists new, modelCalls w' = modelCalls w ++ new
               /\ Forall (videoRequestInRange prompt) new)
  /\ (forall v, r = inr v ->
        exists b, In (inr b) (bedrock w)
                  /\ vid_duration v = extractDuration (Some b)).
Proof.
  intros Hrun. unfold generateVideo, bind in Hrun.
  destruct (videoRetryLoop 3 prompt 0 None w) as [x w1] eqn:Hloop.
  destruct (videoRetryLoop_spec 3 prompt 0 None w w1 x Hloop)
    as (new & used & E & F & B).
  destruct x as [d|e].
  - pose proof (s3_putObject_extends (videoKey userId projectId) d w1) as E2.
    destruct (s3_putObject (videoKey userId projectId) d w1) as [[] w2].
    cbn [snd] in E2.
    pose proof (generateUUID_extends w2) as E3.
    destruct (generateUUID w2) as [assetId w3]. cbn [snd] in E3.
    injection Hrun as <- <-.
    pose proof (extends_trans _ _ _ _ _ _ _
                  (extends_trans _ _ _ _ _ _ _ E E2) E3) as [E4 E5].
    rewrite !app_nil_r in E4, E5.
    split; [exists new; auto|].
    intros v [= <-]. cbn [vid_duration].
    destruct (B ltac:(lia) ltac:(lia) d eq_refl) as (b & -> & Hb).
    exists b. split; [|reflexivity]. rewrite E5. apply in_or_app. auto.
  - injection Hrun as <- <-. destruct E as [E4 E5].
    split; [exists new; auto|]. intros v [=].
Qed.

(** Every request [generateVideo] sends asks for a
    [video_length] between 3 and 10, and the duration of the asset it
    returns is what [extractDuration] reads from a payload the endpoint
    returned; the code compares it with nothing. *)
Theorem generateVideo_duration :
  forall (userId prompt projectId : jsstring) (w : World),
    let r := fst (generateVideo userId prompt projectId w) in
    let w' := snd (generateVideo userId prompt projectId w) in
    (exists new, modelCalls w' = modelCalls w ++ new
                 /\ Forall (videoRequestInRange prompt) new)
    /\ (forall v, r = inr v ->
          exists b, In (inr b) (bedrock w)
                    /\ vid_duration v = extractDuration (Some b)).
Proof.
  intros userId prompt projectId w r w'. subst r w'.
  apply (generateVideo_spec userId prompt projectId).
  apply surjective_pairing.
Qed.

(** When the endpoint only returns videos of 3 to 10 seconds, so is the
    asset. *)
Lemma generateVideo_duration_of_honest_endpoint
  (userId prompt projectId : jsstring) (w : World) (v : VideoAsset) :
  (forall b, In (inr b) (bedrock w) -> 3 <= extractDuration (Some b) <= 10) ->
  fst (generateVideo userId prompt projectId w) = inr v ->
  3 <= vid_duration v <= 10.
Proof.
  intros Hsvc Hv.
  destruct (generateVideo_spec userId prompt projectId w _ _
              (surjective_pairing _)) as [_ Hd].
  destruct (Hd v Hv) as (b & Hb & ->). apply Hsvc, Hb.
Qed.

End Video.

(** An endpoint that answers a request for 3 seconds with a video of 42
    does not keep to the request, and the asset says 42. *)
Lemma generateVideo_duration_out_of_range :
  let run := Design.generateVideo (lit "user-123") (lit "Diwali Sale")
               (lit "proj-456") (Sample.world [Sample.ok "mp4" 42]) in
  Design.modelCalls (snd run)
  = [Design.StableDiffusionVideo (lit "Diwali Sale") 0 3]
  /\ exists v, fst run = inr v
               /\ Design.vid_duration v = 42
               /\ ~ (3 <= Design.vid_duration v <= 10).
Proof.
  cbv zeta. split; [vm_compute; reflexivity|].
  eexists. split; [vm_compute; reflexivity|].
  split; [vm_compute; reflexivity|]. vm_compute. lia.
Qed.

(** ** The duration of a video and the contract of the endpoint *)

Section VideoContract.
Context `{Design.Services}.
Import Design Runs.




End VideoContract.


(** ** The text generator *)

Section Text.
Context `{Design.Services}.
Import Design.

Lemma parseHashtags_all_hash (reply : jsstring) :
  Forall (fun tag => startsWithHash tag = true) (parseHashtags reply).
Proof.
  unfold parseHashtags. apply List.Forall_forall. intros tag Hin.
  apply List.filter_In in Hin. tauto.
Qed.

Lemma textForPlatforms_parsed (prompt : jsstring) (platforms : list Platform) :
  forall (caps : gmap Platform ClaudeResult)
         (tags : gmap Platform (list jsstring)) (w w' : World)
         (r : TextResult),
    parsedSets tags ->
    textForPlatforms prompt platforms caps tags w = (Returned r, w') ->
    parsedSets (hashtags r).
Proof.
  induction platforms as [|platform rest IH];
    intros caps tags w w' r Hinv Hrun.
  - injection Hrun as <- <-. exact Hinv.
  - simpl in Hrun. unfold bind in Hrun.
    destruct (callClaude (buildCaptionPrompt prompt platform) platform w)
      as [captionResponse w1].
    destruct (callClaude (buildHashtagPrompt prompt platform) platform w1)
      as [[t|e|] w2]; try discriminate.
    apply IH in Hrun; [exact Hrun|].
    intros p set Hp. destruct (decide (platform = p)) as [->|Hne].
    + rewrite lookup_insert_eq in Hp. injection Hp as <-. eauto.
    + rewrite lookup_insert_ne in Hp by exact Hne. eauto.
Qed.

(** A reply can carry any number of hashtags, and all of them are kept. *)
Lemma parseHashtags_hashWords (n : nat) :
  length (parseHashtags (hashWords n)) = n.
Proof.
  induction n as [|n IH]; [reflexivity|].
  change (parseHashtags (hashWords (S n)))
    with (lit "#a" :: parseHashtags (hashWords n)).
  simpl. rewrite IH. reflexivity.
Qed.

(** Every hashtag set [generateText] returns is
    the list of the white-space separated words of a reply that start with
    [#], so every tag starts with [#]; the number of tags is the number of
    such words, whatever the platform, and a reply can hold any number of
    them. *)
Theorem hashtag_sets_are_parsed :
  forall (prompt : jsstring) (platforms : list Platform) (w : World)
         (r : TextResult) (platform : Platform) (set : list jsstring),
    fst (generateText prompt platforms w) = Returned r ->
    hashtags r !! platform = Some set ->
    Forall (fun tag => startsWithHash tag = true) set
    /\ (exists reply, set = List.filter startsWithHash (split reply))
    /\ (forall n, exists reply, length (parseHashtags reply) = n).
Proof.
  intros prompt platforms w r platform set Hrun Hset.
  destruct (generateText prompt platforms w) as [c w'] eqn:E.
  cbn [fst] in Hrun. subst c. unfold generateText in E.
  apply textForPlatforms_parsed in E.
  2:{ intros p s Hp. rewrite lookup_empty in Hp. discriminate. }
  destruct (E platform set Hset) as [reply ->].
  split; [apply parseHashtags_all_hash|].
  split; [exists reply; reflexivity|].
  intros n. exists (hashWords n). apply parseHashtags_hashWords.
Qed.

End Text.

Lemma hashtag_sets_are_parsed_witness :
  let prompt := lit "Diwali Sale" in
  let w := Sample.world Sample.simulatedReplies in
  exists r set,
    fst (Design.generateText prompt [Design.instagram] w) = Design.Returned r
    /\ Design.hashtags r !! Design.instagram = Some set
    /\ Forall (fun tag => Design.startsWithHash tag = true) set
    /\ (exists reply,
          set = List.filter Design.startsWithHash (Design.split reply))
    /\ (forall n, exists reply,
          length (Design.parseHashtags reply) = n).
Proof.
  intros prompt w. eexists. eexists.
  assert (H1 : fst (Design.generateText prompt [Design.instagram] w)
               = Design.Returned
                   {| Design.captions :=
                        {[Design.instagram :=
                            Design.ReplyText
                              (lit "Festive offers for everyone")]};
                      Design.hashtags :=
                        {[Design.instagram :=
                            [lit "#DiwaliSale"; lit "#IndianBusiness";
                             lit "#LocalShop"; lit "#SpecialOffer"]]} |})
    by (vm_compute; reflexivity).
  split; [exact H1|].
  assert (H2 : ({[Design.instagram :=
                    [lit "#DiwaliSale"; lit "#IndianBusiness";
                     lit "#LocalShop"; lit "#SpecialOffer"]]}
                : gmap Design.Platform (list jsstring)) !! Design.instagram
               = Some [lit "#DiwaliSale"; lit "#IndianBusiness";
                       lit "#LocalShop"; lit "#SpecialOffer"])
    by apply lookup_singleton_eq.
  split; [exact H2|].
  exact (hashtag_sets_are_parsed prompt [Design.instagram] w _
           Design.instagram _ H1 H2).
Defined.

(** In simulation mode the Instagram set for [Diwali Sale] has four
    tags. *)
Lemma instagram_set_of_four_tags :
  exists r set,
    fst (Design.generateText (lit "Diwali Sale") [Design.instagram]
           (Sample.world Sample.simulatedReplies)) = Design.Returned r
    /\ Design.hashtags r !! Design.instagram = Some set
    /\ set = [lit "#DiwaliSale"; lit "#IndianBusiness"; lit "#LocalShop";
              lit "#SpecialOffer"]
    /\ ~ (5 <= length set <= 10).
Proof.
  eexists. eexists.
  split; [vm_compute; reflexivity|].
  split; [vm_compute; reflexivity|].
  split; [vm_compute; reflexivity|].
  vm_compute. lia.
Qed.

(** A reply of one hashtag makes a LinkedIn set of one tag. *)
Example linkedin_set_of_one_tag :
  exists r,
    fst (Design.generateText (lit "Diwali Sale") [Design.linkedin]
           (Sample.world [Sample.ok "Offers" 0; Sample.ok "#sale" 0]))
    = Design.Returned r
    /\ Design.hashtags r !! Design.linkedin = Some [lit "#sale"].
Proof.
  eexists. split; vm_compute; reflexivity.
Qed.

(** C4: the hashtag counts are not enforced. [getPlatformConstraints]
    names 5 to 10 hashtags for Instagram, but [generateText] stores
    whatever [parseHashtags] finds and compares its length with nothing.
    The campaign the simulated adapter writes for the topic [Diwali Sale]
    holds four [#] characters, so no way of cutting it into words gives
    five tags; answered with it, [generateText] returns an Instagram set
    of four tags, which all start with [#]. *)
Theorem generateText_ignores_hashtag_counts :
  let text := Bedrock.response (lit "Diwali Sale") (lit "Retail") in
  let c := Design.getPlatformConstraints Design.instagram in
  length (List.filter (fun ch => ch =? 35)%N text) = 4
  /\ exists r set,
       fst (Design.generateText (lit "Diwali Sale") [Design.instagram]
              (Sample.world [Sample.ok "Festive offers for everyone" 0;
                             Sample.okText text]))
       = Design.Returned r
       /\ Design.hashtags r !! Design.instagram = Some set
       /\ set = [lit "#DiwaliSale"; lit "#IndianBusiness";
                 lit "#LocalShop"; lit "#SpecialOffer"]
       /\ Forall (fun tag => Design.startsWithHash tag = true) set
       /\ ~ (Design.minHashtags c <= length set <= Design.maxHashtags c).
Proof.
  cbv zeta. split; [vm_compute; reflexivity|].
  eexists. eexists.
  split; [vm_compute; reflexivity|].
  split; [vm_compute; reflexivity|].
  split; [vm_compute; reflexivity|].
  split; [repeat constructor|].
  vm_compute. lia.
Qed.

(** ** The image generator and the keys of a project *)

Section Keys.
Context `{Design.Services}.
Import Design.

Lemma digits_are_digits (d : Decimal.uint) :
  Forall (fun c => isDigit c = true) (digits d).
Proof.
  induction d; simpl; constructor; auto.
Qed.

Lemma digits_inj (d d' : Decimal.uint) : digits d = digits d' -> d = d'.
Proof.
  revert d'. induction d; intros [] E; simpl in E;
    try discriminate; try reflexivity;
    injection E as E; f_equal; auto.
Qed.

Lemma decimal_inj (n n' : nat) : decimal n = decimal n' -> n = n'.
Proof.
  unfold decimal. intros E. apply digits_inj in E.
  apply DecimalNat.Unsigned.to_uint_inj, E.
Qed.

(** Two digit strings followed by something that is not a digit. *)
Lemma digits_then_other (D D' : jsstring) (c c' : N) (s s' : jsstring) :
  Forall (fun x => isDigit x = true) D ->
  Forall (fun x => isDigit x = true) D' ->
  isDigit c = false -> isDigit c' = false ->
  D ++ c :: s = D' ++ c' :: s' ->
  D = D' /\ c :: s = c' :: s'.
Proof.
  intros HD. revert D'. induction HD as [|x D Hx HD IH]; intros D' HD' Hc Hc' E.
  - destruct HD' as [|x' D' Hx' HD']; [auto|].
    simpl in E. injection E as -> _. congruence.
  - destruct HD' as [|x' D' Hx' HD'].
    + simpl in E. injection E as -> _. congruence.
    + simpl in E. injection E as -> E.
      destruct (IH D' HD' Hc Hc' E) as [-> ?]. auto.
Qed.

Lemma platformName_inj (p p' : Platform) (s s' : jsstring) :
  platformName p ++ s = platformName p' ++ s' -> p = p' /\ s = s'.
Proof.
  destruct p, p'; intros E.
  - apply app_inv_head in E. auto.
  - vm_compute in E. discriminate.
  - vm_compute in E. discriminate.
  - apply app_inv_head in E. auto.
Qed.

Lemma imageKey_inj (u pid : jsstring) (p p' : Platform) (i i' : nat) :
  imageKey u pid p i = imageKey u pid p' i' -> p = p' /\ i = i'.
Proof.
  unfold imageKey. intros E.
  do 5 apply app_inv_head in E.
  apply platformName_inj in E. destruct E as [-> E].
  apply app_inv_head in E. apply app_inv_tail in E.
  apply decimal_inj in E. auto.
Qed.

Lemma thumbnailKeyOf_inj (k k' : jsstring) :
  thumbnailKeyOf k = thumbnailKeyOf k' -> k = k'.
Proof. unfold thumbnailKeyOf. apply app_inv_tail. Qed.

Lemma thumbnail_is_no_image (u pid : jsstring) (p p' : Platform)
  (i i' : nat) :
  thumbnailKeyOf (imageKey u pid p i) <> imageKey u pid p' i'.
Proof.
  unfold thumbnailKeyOf, imageKey. intros E.
  rewrite <- !app_assoc in E.
  do 5 apply app_inv_head in E.
  apply platformName_inj in E. destruct E as [-> E].
  apply app_inv_head in E.
  change (lit ".png" ++ lit "_thumb.png")
    with (46%N :: lit "png_thumb.png") in E.
  change (lit ".png") with (46%N :: lit "png") in E.
  apply digits_then_other in E;
    try apply digits_are_digits; try reflexivity.
  destruct E as [_ E]. vm_compute in E. discriminate.
Qed.

Lemma videoKey_is_no_image (u pid : jsstring) (p : Platform) (i : nat) :
  videoKey u pid <> imageKey u pid p i
  /\ videoKey u pid <> thumbnailKeyOf (imageKey u pid p i).
Proof.
  unfold videoKey, thumbnailKeyOf, imageKey. split; intros E.
  - do 4 apply app_inv_head in E. vm_compute in E. discriminate.
  - rewrite <- !app_assoc in E.
    do 4 apply app_inv_head in E. vm_compute in E. discriminate.
Qed.


Lemma grows_refl (w : World) : grows [] 0 w w.
Proof. split; [rewrite app_nil_r; reflexivity | lia]. Qed.

Lemma grows_trans (p1 p2 : list jsstring) (n1 n2 : nat) (w1 w2 w3 : World) :
  grows p1 n1 w1 w2 -> grows p2 n2 w2 w3 -> grows (p1 ++ p2) (n1 + n2) w1 w3.
Proof.
  intros [A1 B1] [A2 B2]. split.
  - rewrite A2, A1, app_assoc. reflexivity.
  - lia.
Qed.

Lemma s3Puts_emit (e : Event) (w : World) :
  s3Puts (emit e w)
  = s3Puts w ++ match e with S3Put k => [k] | _ => [] end.
Proof.
  unfold s3Puts, emit. cbn [trace]. rewrite omap_app.
  destruct e; reflexivity.
Qed.

Lemma invokeModel_grows (req : ModelRequest) (w : World) :
  grows [] 0 w (snd (invokeModel req w)).
Proof.
  unfold invokeModel, grows.
  pose proof (s3Puts_emit (ModelInvoked req) w) as E.
  destruct (bedrock (emit (ModelInvoked req) w));
    cbn [snd]; split; (exact E || (cbn; lia)).
Qed.

Lemma sleep_grows (ms : nat) (w : World) : grows [] 0 w (snd (sleep ms w)).
Proof.
  unfold sleep, grows. cbn [snd].
  pose proof (s3Puts_emit (Slept ms) w) as E. split; [exact E | cbn; lia].
Qed.

Lemma log_grows (e : Error) (w : World) : grows [] 0 w (snd (log e w)).
Proof.
  unfold log, grows. cbn [snd].
  pose proof (s3Puts_emit (Logged e) w) as E. split; [exact E | cbn; lia].
Qed.

Lemma s3_putObject_grows (k : jsstring) (d : option blob) (w : World) :
  grows [k] 0 w (snd (s3_putObject k d w)).
Proof.
  unfold s3_putObject, grows. cbn [snd].
  pose proof (s3Puts_emit (S3Put k) w) as E. split; [exact E | cbn; lia].
Qed.

Lemma generateUUID_grows (w : World) :
  grows [] 1 w (snd (generateUUID w))
  /\ fst (generateUUID w) = uuidOf (uuids w).
Proof.
  unfold generateUUID, grows. cbn [fst snd]. repeat split.
  - rewrite app_nil_r. reflexivity.
  - cbn. lia.
Qed.

Lemma imageRetryLoop_S (fuel : nat) (req : ModelRequest) (retries : nat)
  (imageData : option blob) :
  imageRetryLoop (S fuel) req retries imageData
  = if retries <? 3 then
      r <- invokeModel req ;;
      match r with
      | inr d => ret (Broke (Some d))
      | inl error =>
          if isRateLimitError error then
            sleep (exponentialBackoff (S retries)) ;;;
            imageRetryLoop fuel req (S retries) imageData
          else
            log error ;;;
            if 2 <=? retries then ret (ReturnedError error)
            else imageRetryLoop fuel req (S retries) imageData
      end
    else ret (Broke imageData).
Proof. reflexivity. Qed.

Lemma imageRetryLoop_grows (fuel : nat) (req : ModelRequest) :
  forall (retries : nat) (imageData : option blob) (w : World),
    grows [] 0 w (snd (imageRetryLoop fuel req retries imageData w)).
Proof.
  induction fuel as [|fuel IH]; intros retries imageData w.
  - apply grows_refl.
  - rewrite imageRetryLoop_S. destruct (retries <? 3); [|apply grows_refl].
    unfold bind.
    pose proof (invokeModel_grows req w) as E1.
    destruct (invokeModel req w) as [[e|d] w1]; cbn [snd] in E1;
      [|exact E1].
    destruct (isRateLimitError e).
    + pose proof (sleep_grows (exponentialBackoff (S retries)) w1) as E2.
      destruct (sleep (exponentialBackoff (S retries)) w1) as [[] w2].
      cbn [snd] in E2.
      exact (grows_trans _ _ _ _ _ _ _ E1
               (grows_trans _ _ _ _ _ _ _ E2 (IH _ _ _))).
    + pose proof (log_grows e w1) as E2.
      destruct (log e w1) as [[] w2]. cbn [snd] in E2.
      destruct (2 <=? retries).
      * exact (grows_trans _ _ _ _ _ _ _ E1 E2).
      * exact (grows_trans _ _ _ _ _ _ _ E1
                 (grows_trans _ _ _ _ _ _ _ E2 (IH _ _ _))).
Qed.

(** What one pass over the platforms writes and returns. *)
Lemma imagesForPlatforms_spec (u prompt pid : jsstring) (i : nat)
  (platforms : list Platform) :
  forall (images : list ImageAsset) (imageData : option blob) (w w' : World)
         (x : Error + (list ImageAsset * option blob)),
    imagesForPlatforms u prompt pid i platforms images imageData w = (x, w') ->
    exists puts n,
      grows puts n w w'
      /\ puts `prefix_of` imagePuts u pid i platforms
      /\ (forall images' d, x = inr (images', d) ->
            puts = imagePuts u pid i platforms
            /\ n = length platforms
            /\ List.map img_s3Key images'
               = List.map img_s3Key images
                 ++ List.map (fun p => imageKey u pid p i) platforms
            /\ List.map img_assetId images'
               = List.map img_assetId images
                 ++ List.map uuidOf (seq (uuids w) (length platforms))).
Proof.
  induction platforms as [|platform rest IH];
    intros images imageData w w' x Hrun.
  - injection Hrun as <- <-. exists [], 0.
    split; [apply grows_refl|]. split; [reflexivity|].
    intros images' d [= <- <-]. cbn. rewrite !app_nil_r. auto.
  - cbn [imagesForPlatforms] in Hrun. unfold bind in Hrun.
    pose proof (imageRetryLoop_grows 3
      (TitanImage prompt (width (getPlatformDimensions platform))
         (height (getPlatformDimensions platform))) 0 imageData w) as E1.
    destruct (imageRetryLoop 3 _ 0 imageData w) as [[d1|e] w1];
      cbn [snd] in E1.
    2:{ injection Hrun as <- <-. exists [], 0.
        split; [exact E1|]. split; [apply prefix_nil|]. intros ? ? [=]. }
    set (k := imageKey u pid platform i) in *.
    pose proof (s3_putObject_grows k d1 w1) as E2.
    destruct (s3_putObject k d1 w1) as [[] w2]. cbn [snd] in E2.
    pose proof (s3_putObject_grows (thumbnailKeyOf k) (resizeImage d1 300) w2)
      as E3.
    destruct (s3_putObject (thumbnailKeyOf k) (resizeImage d1 300) w2)
      as [[] w3]. cbn [snd] in E3.
    destruct (generateUUID_grows w3) as [E4 Hid].
    destruct (generateUUID w3) as [assetId w4]. cbn [fst snd] in E4, Hid.
    apply IH in Hrun. destruct Hrun as (puts & n & E5 & Hpre & Hok).
    pose proof (grows_trans _ _ _ _ _ _ _ E1
                 (grows_trans _ _ _ _ _ _ _ E2
                    (grows_trans _ _ _ _ _ _ _ E3
                       (grows_trans _ _ _ _ _ _ _ E4 E5)))) as E.
    cbn [app Nat.add] in E.
    exists (k :: thumbnailKeyOf k :: puts), (S n).
    split; [exact E|]. split.
    { cbn [imagePuts flat_map app]. fold k.
      do 2 apply prefix_cons. exact Hpre. }
    intros images' d Hx. destruct (Hok images' d Hx) as (-> & -> & Hk & Ha).
    split; [reflexivity|]. split; [reflexivity|].
    rewrite Hk, Ha, !map_app. cbn [List.map img_s3Key img_assetId length seq].
    rewrite <- !app_assoc. cbn [app].
    assert (U3 : uuids w3 = uuids w).
    { destruct E1 as [_ U1], E2 as [_ U2], E3 as [_ U3]. lia. }
    assert (U4 : uuids w4 = S (uuids w)).
    { destruct E4 as [_ U4]. lia. }
    rewrite Hid, U3, U4. auto.
Qed.

Lemma imagesForIndices_spec (u prompt pid : jsstring)
  (platforms : list Platform) (indices : list nat) :
  forall (images : list ImageAsset) (imageData : option blob) (w w' : World)
         (x : Error + list ImageAsset),
    imagesForIndices u prompt pid indices platforms images imageData w
    = (x, w') ->
    exists puts n,
      grows puts n w w'
      /\ puts `prefix_of` expectedImagePuts u pid indices platforms
      /\ (forall images', x = inr images' ->
            puts = expectedImagePuts u pid indices platforms
            /\ List.map img_s3Key images'
               = List.map img_s3Key images
                 ++ flat_map (fun i =>
                      List.map (fun p => imageKey u pid p i) platforms)
                      indices
            /\ List.map img_assetId images'
               = List.map img_assetId images
                 ++ List.map uuidOf (seq (uuids w) n)).
Proof.
  induction indices as [|i rest IH]; intros images imageData w w' x Hrun.
  - injection Hrun as <- <-. exists [], 0.
    split; [apply grows_refl|]. split; [reflexivity|].
    intros images' [= <-]. cbn. rewrite !app_nil_r. auto.
  - cbn [imagesForIndices] in Hrun. unfold bind in Hrun.
    destruct (imagesForPlatforms u prompt pid i platforms images imageData w)
      as [y w1] eqn:Hpass.
    apply imagesForPlatforms_spec in Hpass.
    destruct Hpass as (p1 & n1 & E1 & Hpre1 & Hok1).
    destruct y as [e|[images1 d1]].
    + injection Hrun as <- <-. exists p1, n1.
      split; [exact E1|]. split.
      * cbn [expectedImagePuts flat_map]. apply prefix_app_r, Hpre1.
      * intros ? [=].
    + destruct (Hok1 images1 d1 eq_refl) as (-> & -> & Hk1 & Ha1).
      apply IH in Hrun. destruct Hrun as (p2 & n2 & E2 & Hpre2 & Hok2).
      exists (imagePuts u pid i platforms ++ p2), (length platforms + n2).
      split; [exact (grows_trans _ _ _ _ _ _ _ E1 E2)|]. split.
      * cbn [expectedImagePuts flat_map]. apply prefix_app, Hpre2.
      * intros images' Hx. destruct (Hok2 images' Hx) as (-> & Hk2 & Ha2).
        split; [reflexivity|].
        rewrite Hk2, Ha2, Hk1, Ha1, <- !app_assoc. cbn [flat_map].
        destruct E1 as [_ U1]. rewrite U1, seq_app, map_app. auto.
Qed.

Lemma imagePuts_elem (u pid : jsstring) (i : nat) (platforms : list Platform)
  (k : jsstring) :
  In k (imagePuts u pid i platforms) ->
  exists p, In p platforms
            /\ (k = imageKey u pid p i
                \/ k = thumbnailKeyOf (imageKey u pid p i)).
Proof.
  unfold imagePuts. rewrite in_flat_map. intros (p & Hp & [<-|[<-|[]]]); eauto.
Qed.

Ltac thumbnail_clash :=
  match goal with
  | E : thumbnailKeyOf (imageKey _ _ _ _) = imageKey _ _ _ _ |- _ =>
      destruct (thumbnail_is_no_image _ _ _ _ _ _ E)
  | E : imageKey _ _ _ _ = thumbnailKeyOf (imageKey _ _ _ _) |- _ =>
      destruct (thumbnail_is_no_image _ _ _ _ _ _ (eq_sym E))
  end.

Lemma imagePuts_NoDup (u pid : jsstring) (i : nat)
  (platforms : list Platform) :
  NoDup platforms -> NoDup (imagePuts u pid i platforms).
Proof.
  induction 1 as [|p rest Hp Hnd IH]; [constructor|].
  cbn [imagePuts flat_map app].
  constructor; [|constructor; [|exact IH]].
  - rewrite list_elem_of_In. intros [E|Hin]; [thumbnail_clash|].
    apply imagePuts_elem in Hin. destruct Hin as (q & Hq & [E|E]);
      [|thumbnail_clash].
    apply imageKey_inj in E. destruct E as [-> _].
    apply Hp, list_elem_of_In, Hq.
  - rewrite list_elem_of_In. intros Hin.
    apply imagePuts_elem in Hin. destruct Hin as (q & Hq & [E|E]);
      [thumbnail_clash|].
    apply thumbnailKeyOf_inj, imageKey_inj in E. destruct E as [-> _].
    apply Hp, list_elem_of_In, Hq.
Qed.

Lemma expectedImagePuts_NoDup (u pid : jsstring) (indices : list nat)
  (platforms : list Platform) :
  NoDup indices -> NoDup platforms ->
  NoDup (expectedImagePuts u pid indices platforms).
Proof.
  intros Hi Hp. induction Hi as [|i rest Hi Hnd IH]; [constructor|].
  cbn [expectedImagePuts flat_map]. apply NoDup_app.
  split; [apply imagePuts_NoDup, Hp|]. split; [|exact IH].
  intros k Hk Hk'. rewrite list_elem_of_In in Hk, Hk'.
  apply imagePuts_elem in Hk. destruct Hk as (p & _ & Hk).
  apply in_flat_map in Hk'. destruct Hk' as (j & Hj & Hk').
  apply imagePuts_elem in Hk'. destruct Hk' as (q & _ & Hk').
  assert (i = j); [|subst j; apply Hi, list_elem_of_In, Hj].
  destruct Hk as [->| ->], Hk' as [E|E]; try thumbnail_clash.
  - apply imageKey_inj in E. tauto.
  - apply thumbnailKeyOf_inj, imageKey_inj in E. tauto.
Qed.

Lemma imageKeys_NoDup (u pid : jsstring) (indices : list nat)
  (platforms : list Platform) :
  NoDup indices -> NoDup platforms ->
  NoDup (flat_map (fun i => List.map (fun p => imageKey u pid p i) platforms)
           indices).
Proof.
  intros Hi Hp. induction Hi as [|i rest Hi Hnd IH]; [constructor|].
  cbn [flat_map]. apply NoDup_app. split; [|split; [|exact IH]].
  - apply NoDup_fmap_2_strong; [|exact Hp].
    intros p q _ _ E. apply imageKey_inj in E. tauto.
  - intros k Hk Hk'. rewrite list_elem_of_In in Hk, Hk'.
    apply in_map_iff in Hk. destruct Hk as (p & <- & _).
    apply in_flat_map in Hk'. destruct Hk' as (j & Hj & Hk').
    apply in_map_iff in Hk'. destruct Hk' as (q & E & _).
    apply imageKey_inj in E. destruct E as [_ ->].
    apply Hi, list_elem_of_In, Hj.
Qed.

Lemma imageKeys_length (u pid : jsstring) (indices : list nat)
  (platforms : list Platform) :
  length (flat_map (fun i => List.map (fun p => imageKey u pid p i) platforms)
            indices)
  = length indices * length platforms.
Proof.
  induction indices as [|i rest IH]; [reflexivity|].
  cbn [flat_map length]. rewrite length_app, length_map, IH. lia.
Qed.

Lemma uuidOf_inj (n n' : nat) : uuidOf n = uuidOf n' -> n = n'.
Proof. unfold uuidOf. intros E. apply app_inv_head, decimal_inj in E. exact E. Qed.

(** With no platform named twice, [generateImages] writes no key twice,
    never writes the key of the video, and returns assets whose keys and
    identifiers are pairwise distinct. *)
Lemma generateImages_distinct_keys (u prompt pid : jsstring) (count : nat)
  (platforms : list Platform) (w w' : World) (x : Error + list ImageAsset) :
  NoDup platforms ->
  generateImages u prompt pid count platforms w = (x, w') ->
  exists puts,
    s3Puts w' = s3Puts w ++ puts
    /\ NoDup puts
    /\ ~ In (videoKey u pid) puts
    /\ (forall images, x = inr images ->
          NoDup (List.map img_s3Key images)
          /\ NoDup (List.map img_assetId images)
          /\ length images = count * length platforms).
Proof.
  intros Hp Hrun. unfold generateImages in Hrun.
  apply imagesForIndices_spec in Hrun.
  destruct Hrun as (puts & n & [E U] & Hpre & Hok).
  pose proof (expectedImagePuts_NoDup u pid (seq 0 count) platforms
                (NoDup_seq 0 count) Hp) as Hnd.
  exists puts. split; [exact E|]. split.
  { destruct Hpre as [k Hk]. rewrite Hk in Hnd.
    apply NoDup_app in Hnd. tauto. }
  split.
  { intros Hin. destruct Hpre as [k Hk].
    assert (Hin' : In (videoKey u pid)
                     (expectedImagePuts u pid (seq 0 count) platforms))
      by (rewrite Hk; apply in_or_app; auto).
    apply in_flat_map in Hin'. destruct Hin' as (i & _ & Hin').
    apply imagePuts_elem in Hin'. destruct Hin' as (p & _ & Hv).
    destruct (videoKey_is_no_image u pid p i) as [N1 N2]. tauto. }
  intros images Hx. destruct (Hok images Hx) as (-> & Hk & Ha).
  cbn [List.map app] in Hk, Ha. split; [|split].
  - rewrite Hk. apply imageKeys_NoDup; [apply NoDup_seq | exact Hp].
  - rewrite Ha. apply NoDup_fmap_2_strong; [|apply NoDup_seq].
    intros a b _ _ Eab. apply uuidOf_inj, Eab.
  - apply (f_equal (@length _)) in Hk. rewrite length_map in Hk.
    rewrite Hk, imageKeys_length, length_seq. reflexivity.
Qed.

Lemma draw_grows (w : World) : grows [] 0 w (snd (draw w)).
Proof.
  unfold draw, grows.
  destruct (entropy w); cbn [snd]; rewrite app_nil_r; split;
    reflexivity || (cbn; lia).
Qed.

Lemma randomInt_grows (lo hi : nat) (w : World) :
  grows [] 0 w (snd (randomInt lo hi w)).
Proof.
  unfold randomInt, bind, ret. pose proof (draw_grows w) as E.
  destruct (draw w). exact E.
Qed.

Lemma videoRetryLoop_grows (fuel : nat) (prompt : jsstring) :
  forall (retries : nat) (videoData : option blob) (w : World),
    grows [] 0 w (snd (videoRetryLoop fuel prompt retries videoData w)).
Proof.
  induction fuel as [|fuel IH]; intros retries videoData w.
  - apply grows_refl.
  - rewrite videoRetryLoop_S. destruct (retries <? 3); [|apply grows_refl].
    unfold bind, randomSeed.
    pose proof (draw_grows w) as E1.
    destruct (draw w) as [seed w1]. cbn [snd] in E1.
    pose proof (randomInt_grows 3 10 w1) as E2.
    destruct (randomInt 3 10 w1) as [len w2]. cbn [snd] in E2.
    pose proof (invokeModel_grows (StableDiffusionVideo prompt seed len) w2)
      as E3.
    destruct (invokeModel (StableDiffusionVideo prompt seed len) w2)
      as [[e|d] w3]; cbn [snd] in E3.
    + destruct (3 <=? S retries).
      * exact (grows_trans _ _ _ _ _ _ _ E1 (grows_trans _ _ _ _ _ _ _ E2 E3)).
      * pose proof (sleep_grows (exponentialBackoff (S retries)) w3) as E4.
        destruct (sleep (exponentialBackoff (S retries)) w3) as [[] w4].
        cbn [snd] in E4.
        exact (grows_trans _ _ _ _ _ _ _ E1
                 (grows_trans _ _ _ _ _ _ _ E2
                    (grows_trans _ _ _ _ _ _ _ E3
                       (grows_trans _ _ _ _ _ _ _ E4 (IH _ _ _))))).
    + exact (grows_trans _ _ _ _ _ _ _ E1 (grows_trans _ _ _ _ _ _ _ E2 E3)).
Qed.

(** [generateVideo] writes the key of the video, once, or nothing. *)
Lemma generateVideo_puts (u prompt pid : jsstring) (w : World) :
  exists puts,
    s3Puts (snd (generateVideo u prompt pid w)) = s3Puts w ++ puts
    /\ (puts = [] \/ puts = [videoKey u pid]).
Proof.
  unfold generateVideo, bind.
  pose proof (videoRetryLoop_grows 3 prompt 0 None w) as E1.
  destruct (videoRetryLoop 3 prompt 0 None w) as [[d|e] w1]; cbn [snd] in E1.
  - pose proof (s3_putObject_grows (videoKey u pid) d w1) as E2.
    destruct (s3_putObject (videoKey u pid) d w1) as [[] w2]. cbn [snd] in E2.
    destruct (generateUUID_grows w2) as [E3 _].
    destruct (generateUUID w2) as [assetId w3]. cbn [snd] in E3.
    destruct (grows_trans _ _ _ _ _ _ _ E1
                (grows_trans _ _ _ _ _ _ _ E2 E3)) as [E _].
    exists [videoKey u pid]. split; [exact E | auto].
  - exists []. destruct E1 as [E _]. split; [exact E | auto].
Qed.

(** X25: the images and the video of one project, generated one after the
    other for a list of platforms that names none twice: no key is written
    twice. *)
Lemma project_keys_distinct (u prompt pid : jsstring) (count : nat)
  (platforms : list Platform) (w : World) :
  NoDup platforms ->
  let w1 := snd (generateImages u prompt pid count platforms w) in
  let w2 := snd (generateVideo u prompt pid w1) in
  exists puts, s3Puts w2 = s3Puts w ++ puts /\ NoDup puts.
Proof.
  intros Hp w1 w2. subst w1 w2.
  destruct (generateImages_distinct_keys u prompt pid count platforms w _ _
              Hp (surjective_pairing _)) as (p1 & E1 & N1 & V1 & _).
  destruct (generateVideo_puts u prompt pid
              (snd (generateImages u prompt pid count platforms w)))
    as (p2 & E2 & Hv).
  exists (p1 ++ p2). rewrite E2, E1, app_assoc. split; [reflexivity|].
  destruct Hv as [->| ->]; [rewrite app_nil_r; exact N1|].
  apply NoDup_app. split; [exact N1|]. split; [|apply NoDup_singleton].
  intros k Hk Hk'. apply list_elem_of_singleton in Hk'. subst k.
  apply V1, list_elem_of_In, Hk.
Qed.

End Keys.

(** C7: asked for the platforms [instagram, instagram], [generateImages]
    writes every image key and every thumbnail key twice; the second image
    of each pair replaces the first in the bucket, and the six assets
    returned share three keys. *)
Theorem generateImages_repeated_platform_reuses_keys :
  let run := Design.generateImages (lit "user-123") (lit "Diwali Sale")
               (lit "proj-456") 3 [Design.instagram; Design.instagram]
               (Sample.world Sample.sixImages) in
  let key i := lit "users/user-123/projects/proj-456/images/instagram_"
                 ++ lit i ++ lit ".png" in
  let thumb i := key i ++ lit "_thumb.png" in
  (exists images, fst run = inr images
     /\ List.map Design.img_s3Key images
        = [key "0"; key "0"; key "1"; key "1"; key "2"; key "2"]
     /\ ~ NoDup (List.map Design.img_s3Key images))
  /\ Design.s3Puts (snd run)
     = [key "0"; thumb "0"; key "0"; thumb "0";
        key "1"; thumb "1"; key "1"; thumb "1";
        key "2"; thumb "2"; key "2"; thumb "2"]
  /\ Design.s3 (snd run) !! key "0"
     = Some (Some {| Sample.body := lit "png-2"; Sample.seconds := 0 |}).
Proof.
  cbv zeta. split; [|split].
  - eexists. split; [vm_compute; reflexivity|].
    split; [vm_compute; reflexivity|].
    vm_compute. intros Hn. apply NoDup_cons_1_1 in Hn. apply Hn.
    apply list_elem_of_here.
  - vm_compute. reflexivity.
  - vm_compute. reflexivity.
Qed.

(** ** The fuel of the retry loops

    The three [while retries < 3] loops are run with fuel 3. More fuel
    changes nothing: every iteration that stays in the loop increments
    [retries]. *)

Section Fuel.
Context `{Design.Services}.
Import Design.

(** More fuel changes nothing once [retries + fuel] reaches 3. *)
Lemma imageRetryLoop_fuel (fuel : nat) (req : ModelRequest) :
  forall (retries : nat) (imageData : option blob) (w : World),
    3 <= retries + fuel ->
    imageRetryLoop (S fuel) req retries imageData w
    = imageRetryLoop fuel req retries imageData w.
Proof.
  induction fuel as [|fuel IH]; intros retries imageData w Hf.
  - rewrite imageRetryLoop_S.
    destruct (retries <? 3) eqn:Hr; [apply Nat.ltb_lt in Hr; lia|reflexivity].
  - rewrite (imageRetryLoop_S (S fuel)), (imageRetryLoop_S fuel req retries).
    destruct (retries <? 3); [|reflexivity].
    unfold bind. destruct (invokeModel req w) as [[e|d] w1]; [|reflexivity].
    destruct (isRateLimitError e).
    + destruct (sleep _ w1) as [[] w2]. apply IH. lia.
    + destruct (log e w1) as [[] w2].
      destruct (2 <=? retries); [reflexivity|]. apply IH. lia.
Qed.

Lemma videoRetryLoop_fuel (fuel : nat) (prompt : jsstring) :
  forall (retries : nat) (videoData : option blob) (w : World),
    3 <= retries + fuel ->
    videoRetryLoop (S fuel) prompt retries videoData w
    = videoRetryLoop fuel prompt retries videoData w.
Proof.
  induction fuel as [|fuel IH]; intros retries videoData w Hf.
  - rewrite videoRetryLoop_S.
    destruct (retries <? 3) eqn:Hr; [apply Nat.ltb_lt in Hr; lia|reflexivity].
  - rewrite (videoRetryLoop_S (S fuel)), (videoRetryLoop_S fuel prompt retries).
    destruct (retries <? 3); [|reflexivity].
    unfold bind. destruct (randomSeed w) as [seed w1].
    destruct (randomInt 3 10 w1) as [len w2].
    destruct (invokeModel _ w2) as [[e|d] w3]; [|reflexivity].
    destruct (3 <=? S retries); [reflexivity|].
    destruct (sleep _ w3) as [[] w4]. apply IH. lia.
Qed.

Lemma claudeRetryLoop_S (fuel : nat) (req : ModelRequest) (retries : nat) :
  claudeRetryLoop (S fuel) req retries
  = if retries <? 3 then
      r <- invokeModel req ;;
      match r with
      | inr response => ret (ReplyText (contentText response))
      | inl error =>
          if 3 <=? S retries then ret (ReplyError error)
          else
            sleep (exponentialBackoff (S retries)) ;;;
            claudeRetryLoop fuel req (S retries)
      end
    else ret ReplyUndefined.
Proof. reflexivity. Qed.

Lemma claudeRetryLoop_fuel (fuel : nat) (req : ModelRequest) :
  forall (retries : nat) (w : World),
    3 <= retries + fuel ->
    claudeRetryLoop (S fuel) req retries w
    = claudeRetryLoop fuel req retries w.
Proof.
  induction fuel as [|fuel IH]; intros retries w Hf.
  - rewrite claudeRetryLoop_S.
    destruct (retries <? 3) eqn:Hr; [apply Nat.ltb_lt in Hr; lia|reflexivity].
  - rewrite (claudeRetryLoop_S (S fuel)), (claudeRetryLoop_S fuel req retries).
    destruct (retries <? 3); [|reflexivity].
    unfold bind. destruct (invokeModel req w) as [[e|d] w1]; [|reflexivity].
    destruct (3 <=? S retries); [reflexivity|].
    destruct (sleep _ w1) as [[] w2]. apply IH. lia.
Qed.

(** [callClaude] always returns the text or the error. *)
Lemma claudeRetryLoop_defined (fuel : nat) (req : ModelRequest) :
  forall (retries : nat) (w : World),
    retries < 3 -> 3 <= retries + fuel ->
    fst (claudeRetryLoop fuel req retries w) <> ReplyUndefined.
Proof.
  induction fuel as [|fuel IH]; intros retries w Hr Hf; [lia|].
  rewrite claudeRetryLoop_S.
  apply Nat.ltb_lt in Hr. rewrite Hr. apply Nat.ltb_lt in Hr.
  unfold bind. destruct (invokeModel req w) as [[e|d] w1]; [|discriminate].
  destruct (3 <=? S retries) eqn:Hl; [discriminate|].
  apply Nat.leb_gt in Hl.
  destruct (sleep _ w1) as [[] w2]. apply IH; lia.
Qed.

Lemma callClaude_defined (prompt : jsstring) (platform : Platform)
  (w : World) :
  fst (callClaude prompt platform w) <> ReplyUndefined.
Proof. unfold callClaude. apply claudeRetryLoop_defined; lia. Qed.

End Fuel.

(** * Further properties of the code *)

(** ** What the generators leave alone *)

Section Steps.
Context `{Design.Services}.
Import Design Runs.

Lemma total_app (l k : list nat) : total (l ++ k) = total l + total k.
Proof.
  unfold total. induction l as [|x l IH]; simpl; [reflexivity|].
  rewrite IH. lia.
Qed.

Lemma step_refl (w : World) : step w w.
Proof.
  repeat split; auto.
  exists []. split; [rewrite app_nil_r; reflexivity|].
  split; [reflexivity|]. intros k [].
Qed.

Lemma step_trans (w1 w2 w3 : World) : step w1 w2 -> step w2 w3 -> step w1 w3.
Proof.
  intros (D1 & A1 & (e1 & T1 & G1 & P1) & N1 & U1 & S1)
         (D2 & A2 & (e2 & T2 & G2 & P2) & N2 & U2 & S2).
  repeat split; try congruence; try lia; auto.
  exists (e1 ++ e2). split; [|split].
  - rewrite T2, T1, app_assoc. reflexivity.
  - rewrite forallb_app, G1, G2. reflexivity.
  - intros k Hk. apply in_app_or in Hk. destruct Hk; auto.
Qed.

Lemma sleeps_emit (e : Event) (w : World) :
  sleeps (emit e w)
  = sleeps w ++ match e with Slept ms => [ms] | _ => [] end.
Proof.
  unfold sleeps, emit. cbn [trace]. rewrite omap_app.
  destruct e; reflexivity.
Qed.

(** Appending one generator event that is not a sleep nor a write. *)
Lemma emit_step (e : Event) (w : World) :
  generatorEvent e = true ->
  (forall ms, e <> Slept ms) -> (forall k, e <> S3Put k) ->
  step w (emit e w).
Proof.
  intros Hg Hs Hp. split; [reflexivity|]. split; [reflexivity|].
  split.
  { exists [e]. split; [reflexivity|]. split.
    - simpl. rewrite Hg. reflexivity.
    - intros k [->|[]]. destruct (Hp k eq_refl). }
  assert (Es : sleeps (emit e w) = sleeps w).
  { rewrite sleeps_emit. destruct e; try apply app_nil_r.
    destruct (Hs ms eq_refl). }
  split; [rewrite Es; reflexivity|]. split; [reflexivity|]. auto.
Qed.

Lemma invokeModel_step (req : ModelRequest) (w : World) :
  step w (snd (invokeModel req w)).
Proof.
  assert (E : step w (emit (ModelInvoked req) w))
    by (apply emit_step; [reflexivity | discriminate | discriminate]).
  unfold invokeModel.
  destruct (bedrock (emit (ModelInvoked req) w)) as [|r rest] eqn:Eb;
    cbn [snd]; [exact E|].
  destruct E as (D & A & T & N & U & S).
  repeat split; auto.
Qed.

Lemma log_step (e : Error) (w : World) : step w (snd (log e w)).
Proof.
  unfold log. cbn [snd].
  apply emit_step; [reflexivity | discriminate | discriminate].
Qed.

Lemma sleep_step (ms : nat) (w : World) : step w (snd (sleep ms w)).
Proof.
  unfold sleep. cbn [snd].
  split; [reflexivity|]. split; [reflexivity|]. split.
  { exists [Slept ms]. split; [reflexivity|]. split; [reflexivity|].
    intros k [E|[]]. discriminate. }
  split.
  { change (sleeps _) with (sleeps (emit (Slept ms) w)) at 2.
    rewrite sleeps_emit, total_app. cbn. lia. }
  split; [reflexivity|]. auto.
Qed.

Lemma s3_putObject_step (key : jsstring) (d : option blob) (w : World) :
  step w (snd (s3_putObject key d w)).
Proof.
  unfold s3_putObject. cbn [snd].
  split; [reflexivity|]. split; [reflexivity|]. split.
  { exists [S3Put key]. split; [reflexivity|]. split; [reflexivity|].
    intros k [[= <-]|[]]. cbn [s3 emit]. rewrite lookup_insert_eq. eauto. }
  split.
  { change (sleeps _) with (sleeps (emit (S3Put key) w)) at 2.
    rewrite sleeps_emit, app_nil_r. reflexivity. }
  split; [reflexivity|].
  intros k Hk. cbn [s3 emit]. rewrite lookup_insert_is_Some.
  destruct (decide (key = k)); auto.
Qed.

Lemma generateUUID_step (w : World) : step w (snd (generateUUID w)).
Proof.
  unfold generateUUID. cbn [snd]. repeat split; auto.
  - exists []. split; [cbn; rewrite app_nil_r; reflexivity|].
    split; [reflexivity|]. intros k [].
  - cbn. lia.
Qed.

Lemma draw_step (w : World) : step w (snd (draw w)).
Proof.
  unfold draw. destruct (entropy w); cbn [snd]; [apply step_refl|].
  repeat split; auto.
  exists []. split; [cbn; rewrite app_nil_r; reflexivity|].
  split; [reflexivity|]. intros k [].
Qed.

Lemma randomInt_step (lo hi : nat) (w : World) :
  step w (snd (randomInt lo hi w)).
Proof.
  unfold randomInt, bind, ret. pose proof (draw_step w) as E.
  destruct (draw w). exact E.
Qed.

Lemma imageRetryLoop_step (fuel : nat) (req : ModelRequest) :
  forall (retries : nat) (imageData : option blob) (w : World),
    step w (snd (imageRetryLoop fuel req retries imageData w)).
Proof.
  induction fuel as [|fuel IH]; intros retries imageData w.
  - apply step_refl.
  - rewrite imageRetryLoop_S. destruct (retries <? 3); [|apply step_refl].
    unfold bind.
    pose proof (invokeModel_step req w) as E1.
    destruct (invokeModel req w) as [[e|d] w1]; cbn [snd] in E1;
      [|exact E1].
    destruct (isRateLimitError e).
    + pose proof (sleep_step (exponentialBackoff (S retries)) w1) as E2.
      destruct (sleep (exponentialBackoff (S retries)) w1) as [[] w2].
      cbn [snd] in E2.
      exact (step_trans _ _ _ E1 (step_trans _ _ _ E2 (IH _ _ _))).
    + pose proof (log_step e w1) as E2.
      destruct (log e w1) as [[] w2]. cbn [snd] in E2.
      destruct (2 <=? retries).
      * exact (step_trans _ _ _ E1 E2).
      * exact (step_trans _ _ _ E1 (step_trans _ _ _ E2 (IH _ _ _))).
Qed.

Lemma imagesForPlatforms_step (u prompt pid : jsstring) (i : nat)
  (platforms : list Platform) :
  forall (images : list ImageAsset) (imageData : option blob) (w : World),
    step w (snd (imagesForPlatforms u prompt pid i platforms images
                   imageData w)).
Proof.
  induction platforms as [|platform rest IH]; intros images imageData w.
  - apply step_refl.
  - cbn [imagesForPlatforms]. unfold bind.
    pose proof (imageRetryLoop_step 3
      (TitanImage prompt (width (getPlatformDimensions platform))
         (height (getPlatformDimensions platform))) 0 imageData w) as E1.
    destruct (imageRetryLoop 3 _ 0 imageData w) as [[d1|e] w1];
      cbn [snd] in E1; [|exact E1].
    set (k := imageKey u pid platform i).
    pose proof (s3_putObject_step k d1 w1) as E2.
    destruct (s3_putObject k d1 w1) as [[] w2]. cbn [snd] in E2.
    pose proof (s3_putObject_step (thumbnailKeyOf k) (resizeImage d1 300) w2)
      as E3.
    destruct (s3_putObject (thumbnailKeyOf k) (resizeImage d1 300) w2)
      as [[] w3]. cbn [snd] in E3.
    pose proof (generateUUID_step w3) as E4.
    destruct (generateUUID w3) as [assetId w4]. cbn [snd] in E4.
    exact (step_trans _ _ _ E1 (step_trans _ _ _ E2 (step_trans _ _ _ E3
             (step_trans _ _ _ E4 (IH _ _ _))))).
Qed.

Lemma generateImages_step (u prompt pid : jsstring) (count : nat)
  (platforms : list Platform) (w : World) :
  step w (snd (generateImages u prompt pid count platforms w)).
Proof.
  unfold generateImages. generalize (@nil ImageAsset) (@None blob).
  revert w. induction (seq 0 count) as [|i rest IH]; intros w images d.
  - apply step_refl.
  - cbn [imagesForIndices]. unfold bind.
    pose proof (imagesForPlatforms_step u prompt pid i platforms images d w)
      as E1.
    destruct (imagesForPlatforms u prompt pid i platforms images d w)
      as [[e|[images1 d1]] w1]; cbn [snd] in E1; [exact E1|].
    exact (step_trans _ _ _ E1 (IH _ _ _)).
Qed.

Lemma videoRetryLoop_step (fuel : nat) (prompt : jsstring) :
  forall (retries : nat) (videoData : option blob) (w : World),
    step w (snd (videoRetryLoop fuel prompt retries videoData w)).
Proof.
  induction fuel as [|fuel IH]; intros retries videoData w.
  - apply step_refl.
  - rewrite videoRetryLoop_S. destruct (retries <? 3); [|apply step_refl].
    unfold bind, randomSeed.
    pose proof (draw_step w) as E1.
    destruct (draw w) as [seed w1]. cbn [snd] in E1.
    pose proof (randomInt_step 3 10 w1) as E2.
    destruct (randomInt 3 10 w1) as [len w2]. cbn [snd] in E2.
    pose proof (invokeModel_step (StableDiffusionVideo prompt seed len) w2)
      as E3.
    destruct (invokeModel (StableDiffusionVideo prompt seed len) w2)
      as [[e|d] w3]; cbn [snd] in E3.
    + destruct (3 <=? S retries).
      * exact (step_trans _ _ _ E1 (step_trans _ _ _ E2 E3)).
      * pose proof (sleep_step (exponentialBackoff (S retries)) w3) as E4.
        destruct (sleep (exponentialBackoff (S retries)) w3) as [[] w4].
        cbn [snd] in E4.
        exact (step_trans _ _ _ E1 (step_trans _ _ _ E2 (step_trans _ _ _ E3
                 (step_trans _ _ _ E4 (IH _ _ _))))).
    + exact (step_trans _ _ _ E1 (step_trans _ _ _ E2 E3)).
Qed.

Lemma generateVideo_step (u prompt pid : jsstring) (w : World) :
  step w (snd (generateVideo u prompt pid w)).
Proof.
  unfold generateVideo, bind.
  pose proof (videoRetryLoop_step 3 prompt 0 None w) as E1.
  destruct (videoRetryLoop 3 prompt 0 None w) as [[d|e] w1]; cbn [snd] in E1;
    [|exact E1].
  pose proof (s3_putObject_step (videoKey u pid) d w1) as E2.
  destruct (s3_putObject (videoKey u pid) d w1) as [[] w2]. cbn [snd] in E2.
  pose proof (generateUUID_step w2) as E3.
  destruct (generateUUID w2) as [assetId w3]. cbn [snd] in E3.
  exact (step_trans _ _ _ E1 (step_trans _ _ _ E2 E3)).
Qed.

Lemma claudeRetryLoop_step (fuel : nat) (req : ModelRequest) :
  forall (retries : nat) (w : World),
    step w (snd (claudeRetryLoop fuel req retries w)).
Proof.
  induction fuel as [|fuel IH]; intros retries w.
  - apply step_refl.
  - rewrite claudeRetryLoop_S. destruct (retries <? 3); [|apply step_refl].
    unfold bind.
    pose proof (invokeModel_step req w) as E1.
    destruct (invokeModel req w) as [[e|d] w1]; cbn [snd] in E1;
      [|exact E1].
    destruct (3 <=? S retries); [exact E1|].
    pose proof (sleep_step (exponentialBackoff (S retries)) w1) as E2.
    destruct (sleep (exponentialBackoff (S retries)) w1) as [[] w2].
    cbn [snd] in E2.
    exact (step_trans _ _ _ E1 (step_trans _ _ _ E2 (IH _ _))).
Qed.

Lemma callClaude_step (prompt : jsstring) (platform : Platform) (w : World) :
  step w (snd (callClaude prompt platform w)).
Proof. unfold callClaude. apply claudeRetryLoop_step. Qed.

Lemma generateText_step (prompt : jsstring) (platforms : list Platform)
  (w : World) :
  step w (snd (generateText prompt platforms w)).
Proof.
  unfold generateText.
  generalize (∅ : gmap Platform ClaudeResult)
             (∅ : gmap Platform (list jsstring)).
  revert w. induction platforms as [|platform rest IH]; intros w caps tags.
  - apply step_refl.
  - cbn [textForPlatforms]. unfold bind.
    pose proof (callClaude_step (buildCaptionPrompt prompt platform)
                  platform w) as E1.
    destruct (callClaude (buildCaptionPrompt prompt platform) platform w)
      as [cr w1]. cbn [snd] in E1.
    pose proof (callClaude_step (buildHashtagPrompt prompt platform)
                  platform w1) as E2.
    destruct (callClaude (buildHashtagPrompt prompt platform) platform w1)
      as [[t|e|] w2]; cbn [snd] in E2.
    + exact (step_trans _ _ _ E1 (step_trans _ _ _ E2 (IH _ _ _))).
    + exact (step_trans _ _ _ E1 E2).
    + exact (step_trans _ _ _ E1 E2).
Qed.

Lemma generator_events_invoke_nothing (evs : list Event) :
  forallb generatorEvent evs = true ->
  omap (fun e => match e with LambdaInvoked l => Some l | _ => None end) evs
  = [].
Proof.
  induction evs as [|e evs IH]; [reflexivity|].
  simpl. intros Hg. apply andb_prop in Hg. destruct Hg as [He Hg].
  destruct e; try discriminate; cbn; apply IH, Hg.
Qed.

Lemma puts_of_events (evs : list Event) (k : jsstring) :
  In k (omap (fun e => match e with S3Put k => Some k | _ => None end) evs)
  -> In (S3Put k) evs.
Proof.
  induction evs as [|e evs IH]; [intros []|].
  destruct e; cbn; try (intros Hk; right; apply IH, Hk).
  intros [->|Hk]; [left; reflexivity | right; apply IH, Hk].
Qed.

Lemma step_keptApart (w w' : World) : step w w' -> keptApart w w'.
Proof.
  intros (D & A & (evs & T & G & P) & N & U & S).
  split; [exact D|]. split.
  { unfold invocations. rewrite T, omap_app.
    rewrite (generator_events_invoke_nothing evs G). apply app_nil_r. }
  split.
  { assert (Es : sleeps w' = sleeps w
        ++ omap (fun e => match e with Slept ms => Some ms | _ => None end)
             evs).
    { unfold sleeps. rewrite T, omap_app. reflexivity. }
    rewrite Es, total_app in *. lia. }
  split; [exact S|].
  exists (omap (fun e => match e with S3Put k => Some k | _ => None end) evs).
  split; [unfold s3Puts; rewrite T, omap_app; reflexivity|].
  intros k Hk. apply P, puts_of_events, Hk.
Qed.

Lemma step_leavesAlone (w w' : World) : step w w' -> leavesAlone w w'.
Proof.
  intros Hs. apply step_keptApart in Hs.
  destruct Hs as (D & I & _ & S & P). repeat split; assumption.
Qed.

(** X1: the three generators keep to the model endpoint and the bucket.
    None of them writes to the Projects table or invokes a Lambda; no
    object leaves the bucket, and every key written during the run is in
    the bucket when it ends. *)
Theorem generators_keep_apart :
  forall (u prompt pid : jsstring) (count : nat) (platforms : list Platform)
         (w : World),
    leavesAlone w (snd (generateImages u prompt pid count platforms w))
    /\ leavesAlone w (snd (generateVideo u prompt pid w))
    /\ leavesAlone w (snd (generateText prompt platforms w)).
Proof.
  intros u prompt pid count platforms w. split; [|split].
  - apply step_leavesAlone, generateImages_step.
  - apply step_leavesAlone, generateVideo_step.
  - apply step_leavesAlone, generateText_step.
Qed.

End Steps.

(** ** The form: what a click sends and what it leaves on screen *)

Section Form.

Lemma topicMissing_blank (s : Page.State) :
  Page.topicMissing (Page.topic s) = forallb isWhiteSpace (Page.topic s).
Proof.
  unfold Page.topicMissing.
  destruct (forallb isWhiteSpace (Page.topic s)) eqn:E.
  - apply trim_nil_iff in E. rewrite E. reflexivity.
  - destruct (trim (Page.topic s)) eqn:T; [|reflexivity].
    apply trim_nil_iff in T. congruence.
Qed.

(** X2: a click sends at most one request, and sends it exactly when the
    topic has a character that is not white space. The request is a POST
    to [/api/generate] with a JSON body that carries the topic as it was
    typed, leading and trailing white space included, and the selected
    business type. The click changes neither of the two fields. *)
Theorem handleGenerate_sends_topic_as_typed :
  forall (net : Page.Request -> Page.FetchOutcome) (s : Page.State),
    let run := Page.handleGenerate net s in
    snd run
    = (if forallb isWhiteSpace (Page.topic s) then []
       else [{| Page.url := lit "/api/generate"; Page.method := lit "POST";
                Page.contentType := lit "application/json";
                Page.body_topic := Page.topic s;
                Page.body_businessType := Page.businessType s |}])
    /\ Page.topic (fst run) = Page.topic s
    /\ Page.businessType (fst run) = Page.businessType s.
Proof.
  intros net s run. subst run. unfold Page.handleGenerate.
  rewrite topicMissing_blank.
  destruct (forallb isWhiteSpace (Page.topic s)).
  - repeat split.
  - cbn [fst snd]. split; [reflexivity|].
    destruct (net _) as [t | ok [t | d]]; [| |destruct (negb ok)];
      split; reflexivity.
Qed.

(** X3: after a click that sent a request the button is enabled again and
    the page never shows an error and a result together: whatever the
    network did, the error is empty or the result is the empty string. *)
Theorem handleGenerate_shows_error_or_result :
  forall (net : Page.Request -> Page.FetchOutcome) (s : Page.State),
    forallb isWhiteSpace (Page.topic s) = false ->
    let s' := fst (Page.handleGenerate net s) in
    Page.loading s' = false
    /\ (Page.error s' = [] \/ Page.result s' = Some []).
Proof.
  intros net s Hb s'. subst s'. unfold Page.handleGenerate.
  rewrite topicMissing_blank, Hb. cbn [fst].
  destruct (net _) as [t | ok [t | d]]; [| |destruct (negb ok)];
    (split; [reflexivity|]); cbn; auto.
Qed.

End Form.

Lemma handleGenerate_shows_error_or_result_witness :
  let net := fun _ : Page.Request =>
               Page.FetchRejects (Page.ErrorObject (lit "offline")) in
  let s := Page.setTopic (lit " Diwali Sale") Page.initial in
  forallb isWhiteSpace (Page.topic s) = false
  /\ Page.loading (fst (Page.handleGenerate net s)) = false
  /\ (Page.error (fst (Page.handleGenerate net s)) = []
      \/ Page.result (fst (Page.handleGenerate net s)) = Some []).
Proof.
  intros net s.
  assert (Hb : forallb isWhiteSpace (Page.topic s) = false) by reflexivity.
  split; [exact Hb|].
  exact (handleGenerate_shows_error_or_result net s Hb).
Defined.

(** ** Words and hashtags *)

Section Words.
Import Design Runs.

Lemma splitFrom_app (c : N) (b : jsstring) :
  isSpace c = true ->
  forall (a word : jsstring),
    splitFrom word (a ++ c :: b) = splitFrom word a ++ split b.
Proof.
  intros Hc a. induction a as [|x a IH]; intros word.
  - cbn [app splitFrom]. rewrite Hc. destruct word; reflexivity.
  - cbn [app splitFrom]. destruct (isSpace x).
    + destruct word; rewrite IH; reflexivity.
    + apply IH.
Qed.

Lemma splitFrom_word (a : jsstring) :
  noWhiteSpace a = true ->
  forall word : jsstring,
    splitFrom word a
    = match rev word ++ a with [] => [] | w => [w] end.
Proof.
  unfold noWhiteSpace. induction a as [|x a IH]; intros Ha word.
  - cbn [splitFrom]. rewrite app_nil_r. destruct word as [|y word].
    + reflexivity.
    + destruct (rev (y :: word)) eqn:E; [|reflexivity].
      apply (f_equal (@length N)) in E. rewrite length_rev in E.
      discriminate.
  - cbn [forallb] in Ha. apply andb_prop in Ha as [Hx Ha].
    cbn [splitFrom]. apply negb_true_iff in Hx. rewrite Hx.
    rewrite (IH Ha). cbn [rev]. rewrite <- app_assoc. reflexivity.
Qed.

Lemma split_word (a : jsstring) :
  a <> [] -> noWhiteSpace a = true -> split a = [a].
Proof.
  intros Hne Ha. unfold split. rewrite (splitFrom_word a Ha).
  cbn [rev app]. destruct a; [contradiction|reflexivity].
Qed.

Lemma splitFrom_words (text : jsstring) :
  forall word : jsstring,
    noWhiteSpace word = true ->
    Forall (fun w => w <> [] /\ noWhiteSpace w = true) (splitFrom word text).
Proof.
  assert (Hrev : forall word, noWhiteSpace word = true ->
                              noWhiteSpace (rev word) = true).
  { intros word Hw. unfold noWhiteSpace in *.
    apply forallb_forall. intros c Hc. apply in_rev in Hc.
    exact (proj1 (forallb_forall _ _) Hw c Hc). }
  assert (Hne : forall (y : N) word, rev (y :: word) <> []).
  { intros y word E. apply (f_equal (@length N)) in E.
    rewrite length_rev in E. discriminate. }
  induction text as [|c text IH]; intros word Hw.
  - cbn [splitFrom]. destruct word as [|y word]; constructor; [|constructor].
    split; [apply Hne | apply Hrev, Hw].
  - cbn [splitFrom]. destruct (isSpace c) eqn:Hc.
    + destruct word as [|y word]; [apply IH; reflexivity|].
      constructor; [|apply IH; reflexivity].
      split; [apply Hne | apply Hrev, Hw].
    + apply IH. unfold noWhiteSpace in *. cbn [forallb].
      rewrite Hc, Hw. reflexivity.
Qed.

(** X5: with [text.split()] read as Python's, every tag [parseHashtags]
    returns is a word of the text: it starts with [#] and holds no
    character that [str.isspace] accepts; and the tags together with the
    other words, glued, are the text without those characters, so nothing
    but white space is dropped by the split. *)
Theorem parseHashtags_tags :
  forall text : jsstring,
    Forall (fun tag => hashtag tag = true) (parseHashtags text)
    /\ concat (split text) = List.filter (fun c => negb (isSpace c)) text.
Proof.
  intros text. split.
  - unfold parseHashtags. apply List.Forall_forall. intros tag Hin.
    apply List.filter_In in Hin as [Hin Hs]. unfold hashtag. rewrite Hs.
    pose proof (splitFrom_words text [] eq_refl) as Hall.
    rewrite List.Forall_forall in Hall. apply (Hall tag Hin).
  - unfold split.
    enough (Hgen : forall word,
               concat (splitFrom word text)
               = rev word ++ List.filter (fun c => negb (isSpace c)) text)
      by apply Hgen.
    induction text as [|c text IH]; intros word.
    + cbn [splitFrom List.filter]. destruct word as [|y word]; [reflexivity|].
      cbn [concat]. reflexivity.
    + cbn [splitFrom List.filter]. destruct (isSpace c); cbn [negb].
      * destruct word as [|y word]; [apply IH|].
        cbn [concat]. rewrite IH. reflexivity.
      * rewrite IH. cbn [rev]. rewrite <- app_assoc. reflexivity.
Qed.

(** X6: with [text.split()] read as Python's, a text that is cut at a
    character that [str.isspace] accepts is parsed piece by piece: the
    tags of the whole are the tags of the part before the cut followed by
    the tags of the part after it. *)
Theorem parseHashtags_app :
  forall (a b : jsstring) (c : N),
    isSpace c = true ->
    parseHashtags (a ++ c :: b) = parseHashtags a ++ parseHashtags b.
Proof.
  intros a b c Hc. unfold parseHashtags, split.
  rewrite (splitFrom_app c b Hc). apply List.filter_app.
Qed.

(** X7: with [text.split()] read as Python's, [parseHashtags] undoes
    [join]: words that start with [#] and hold no character that
    [str.isspace] accepts, joined by single spaces, are read back as they
    were, in the same order. *)
Theorem parseHashtags_join :
  forall tags : list jsstring,
    Forall (fun tag => hashtag tag = true) tags ->
    parseHashtags (join tags (lit " ")) = tags.
Proof.
  assert (Hone : forall tag, hashtag tag = true -> parseHashtags tag = [tag]).
  { intros tag Ht. unfold hashtag in Ht. apply andb_prop in Ht as [Hs Hw].
    unfold parseHashtags. rewrite split_word; [|destruct tag; easy|exact Hw].
    cbn [List.filter]. rewrite Hs. reflexivity. }
  intros tags Hall. induction Hall as [|tag rest Ht Hrest IH].
  - reflexivity.
  - destruct rest as [|tag' rest].
    + cbn [join]. apply Hone, Ht.
    + change (join (tag :: tag' :: rest) (lit " "))
        with (tag ++ 32%N :: join (tag' :: rest) (lit " ")).
      set (J := join (tag' :: rest) (lit " ")) in *.
      change (parseHashtags (tag ++ 32%N :: J))
        with (List.filter startsWithHash (splitFrom [] (tag ++ 32%N :: J))).
      rewrite (splitFrom_app 32 J eq_refl), List.filter_app.
      change (List.filter startsWithHash (splitFrom [] tag))
        with (parseHashtags tag).
      change (List.filter startsWithHash (split J)) with (parseHashtags J).
      rewrite IH, (Hone tag Ht). reflexivity.
Qed.

Lemma splitFrom_tail (tail x rest : jsstring) :
  (forall word, exists front, splitFrom word rest = front ++ split tail) ->
  forall word, exists front,
    splitFrom word (x ++ rest) = front ++ split tail.
Proof.
  intros Hrest. induction x as [|c x IH]; intros word; [apply Hrest|].
  cbn [app splitFrom]. destruct (isSpace c); [|apply IH].
  destruct (IH []) as [front Hf].
  destruct word as [|y word]; [eauto|].
  exists (rev (y :: word) :: front). rewrite Hf. reflexivity.
Qed.

Lemma splitFrom_tail_nl (tail : jsstring) :
  forall word, exists front,
    splitFrom word (nl ++ tail) = front ++ split tail.
Proof.
  intros word. change (nl ++ tail) with (10%N :: tail).
  change (splitFrom word (10%N :: tail))
    with (match word with
          | [] => splitFrom [] tail
          | _ => rev word :: splitFrom [] tail
          end).
  destruct word as [|y word]; [exists []; reflexivity|].
  exists [rev (y :: word)]. reflexivity.
Qed.

Lemma split_hashtag_line (tag : jsstring) :
  noWhiteSpace tag = true ->
  split (lit "#" ++ tag ++ lit " #IndianBusiness #LocalShop #SpecialOffer")
  = [lit "#" ++ tag; lit "#IndianBusiness"; lit "#LocalShop";
     lit "#SpecialOffer"].
Proof.
  intros Ht.
  assert (Lsp : lit " #IndianBusiness #LocalShop #SpecialOffer"
                = 32%N :: lit "#IndianBusiness #LocalShop #SpecialOffer")
    by (vm_compute; reflexivity).
  assert (Lw : split (lit "#IndianBusiness #LocalShop #SpecialOffer")
               = [lit "#IndianBusiness"; lit "#LocalShop";
                  lit "#SpecialOffer"])
    by (vm_compute; reflexivity).
  assert (Lh : lit "#" = [35%N]) by (vm_compute; reflexivity).
  rewrite Lsp, app_assoc. unfold split at 1.
  rewrite (splitFrom_app 32 _ eq_refl), Lw.
  change (splitFrom [] (lit "#" ++ tag)) with (split (lit "#" ++ tag)).
  rewrite split_word; [reflexivity| |].
  - rewrite Lh. discriminate.
  - rewrite Lh. unfold noWhiteSpace in *. cbn [app forallb].
    rewrite Ht. reflexivity.
Qed.

(** X8: with [text.split()] read as Python's, the hashtags of the
    simulated campaign end with four tags: [#] followed by the topic
    without its white space, then [#IndianBusiness], [#LocalShop] and
    [#SpecialOffer]. This holds for every business type and for every
    topic in which [replace(/\s+/g, '')] leaves no character that the
    split cuts at (U+001C to U+001F and U+0085 are such characters). A
    topic of several words makes one tag. *)
Theorem campaign_ends_with_four_hashtags :
  forall topic businessType : jsstring,
    noWhiteSpace (removeWhiteSpaceRuns topic) = true ->
    exists front,
      parseHashtags (Bedrock.response topic businessType)
      = front ++ [lit "#" ++ removeWhiteSpaceRuns topic;
                  lit "#IndianBusiness"; lit "#LocalShop";
                  lit "#SpecialOffer"].
Proof.
  intros topic businessType Htopic.
  assert (Hend : forall word, exists front,
             splitFrom word (Bedrock.response topic businessType)
             = front ++ split (lit "#" ++ removeWhiteSpaceRuns topic
                                 ++ lit " #IndianBusiness #LocalShop #SpecialOffer")).
  { unfold Bedrock.response. do 38 apply splitFrom_tail.
    apply splitFrom_tail_nl. }
  destruct (Hend []) as [front Hf].
  exists (List.filter startsWithHash front).
  unfold parseHashtags, split. rewrite Hf, List.filter_app. f_equal.
  rewrite (split_hashtag_line _ Htopic).
  generalize (removeWhiteSpaceRuns topic). intros tag.
  vm_compute. reflexivity.
Qed.

End Words.

Lemma campaign_ends_with_four_hashtags_witness :
  Runs.noWhiteSpace (removeWhiteSpaceRuns (lit "Diwali Sale")) = true
  /\ exists front,
       Design.parseHashtags (Bedrock.response (lit "Diwali Sale")
                               (lit "Retail"))
       = front ++ [lit "#" ++ removeWhiteSpaceRuns (lit "Diwali Sale");
                   lit "#IndianBusiness"; lit "#LocalShop";
                   lit "#SpecialOffer"].
Proof.
  assert (Ht : Runs.noWhiteSpace (removeWhiteSpaceRuns (lit "Diwali Sale"))
               = true) by (vm_compute; reflexivity).
  split; [exact Ht|].
  exact (campaign_ends_with_four_hashtags (lit "Diwali Sale") (lit "Retail")
           Ht).
Defined.

Lemma parseHashtags_app_witness :
  Design.isSpace 10 = true
  /\ Design.parseHashtags (lit "#sale" ++ 10%N :: lit "now #diwali")
     = Design.parseHashtags (lit "#sale")
       ++ Design.parseHashtags (lit "now #diwali").
Proof.
  split; [reflexivity|].
  exact (parseHashtags_app (lit "#sale") (lit "now #diwali") 10 eq_refl).
Defined.

Lemma parseHashtags_join_witness :
  let tags := [lit "#sale"; lit "#diwali"] in
  Forall (fun tag => Runs.hashtag tag = true) tags
  /\ Design.parseHashtags (Design.join tags (lit " ")) = tags.
Proof.
  intros tags.
  assert (Hall : Forall (fun tag => Runs.hashtag tag = true) tags).
  { constructor; [vm_compute; reflexivity|].
    constructor; [vm_compute; reflexivity|]. constructor. }
  split; [exact Hall|].
  exact (parseHashtags_join tags Hall).
Defined.

(** ** Retry with backoff, for any number of attempts *)

Section RetryN.
Context `{Design.Services} {T : Type}.
Import Design Runs.

Lemma total_backoff (m : nat) :
  total (List.map (fun a => 2 ^ a * 100) (seq 0 m)) + 100 = 100 * 2 ^ m.
Proof.
  induction m as [|m IH]; [reflexivity|].
  rewrite seq_S, List.map_app, total_app. cbn [List.map total fold_right].
  rewrite Nat.pow_succ_r'. cbn [Nat.add]. lia.
Qed.

Lemma retryLoop_bounded (operation : M (Error + T)) (P : Event -> bool)
  (maxRetries : nat) :
  (forall w0, marks P (snd (operation w0)) = S (marks P w0)) ->
  (forall w0, sleeps (snd (operation w0)) = sleeps w0) ->
  (forall ms, P (Slept ms) = false) ->
  forall (n a : nat) (w w' : World) (c : Completion T),
    a + n = maxRetries ->
    retryLoop operation maxRetries (seq a n) w = (c, w') ->
    exists k, k <= n /\ (0 < n -> 0 < k)
              /\ marks P w' = marks P w + k
              /\ sleeps w'
                 = sleeps w ++ List.map (fun a => 2 ^ a * 100) (seq a (k - 1))
              /\ (c = FellThrough <-> n = 0).
Proof.
  intros Hmark Hquiet HP. induction n as [|n IH]; intros a w w' c Han Hrun.
  - injection Hrun as <- <-. exists 0. rewrite app_nil_r.
    repeat split; auto; lia.
  - cbn [seq] in Hrun. rewrite retryLoop_step in Hrun.
    pose proof (Hmark w) as M1. pose proof (Hquiet w) as Q1.
    destruct (operation w) as [r w1]. cbn [fst snd] in *.
    assert (Hone : forall c0 : Completion T, c0 <> FellThrough ->
              (c0, w1) = (c, w') ->
              exists k, k <= S n /\ (0 < S n -> 0 < k)
                /\ marks P w' = marks P w + k
                /\ sleeps w'
                   = sleeps w
                     ++ List.map (fun a => 2 ^ a * 100) (seq a (k - 1))
                /\ (c = FellThrough <-> S n = 0)).
    { intros c0 Hc0 [= <- <-]. exists 1. cbn [Nat.sub seq List.map].
      rewrite app_nil_r. repeat split; auto; try lia; try congruence. }
    destruct r as [e|v]; [|apply (Hone (Returned v)); easy].
    destruct (isRetryableError e); [|apply (Hone (Thrown e)); easy].
    destruct (maxRetries - 1 <=? a) eqn:Hlast;
      [apply (Hone (Thrown e)); easy|].
    apply Nat.leb_gt in Hlast. clear Hone.
    apply IH in Hrun; [|lia].
    destruct Hrun as (k & Hk & Hpos & Mk & Sk & Hc).
    rewrite marks_after_sleep in Mk by apply HP.
    rewrite sleeps_after_sleep in Sk.
    assert (0 < k) by (apply Hpos; lia).
    exists (S k). split; [lia|]. split; [lia|]. split; [lia|].
    split.
    + rewrite Sk, Q1, <- app_assoc. f_equal.
      replace (S k - 1) with (S (k - 1)) by lia. reflexivity.
    + split; [|discriminate]. intros Hf. apply Hc in Hf. lia.
Qed.

(** X9: [retryWithBackoff] with any [maxRetries], for an operation that
    leaves one mark per call and does not sleep itself. The operation is
    called at most [maxRetries] times, and at least once unless
    [maxRetries] is 0; before call number [n + 2] the function sleeps
    [2^n * 100] ms and it sleeps at no other time, so all the delays
    together stay below [100 * 2^(maxRetries - 1)] ms; and the function
    runs off its end, returning nothing, exactly when [maxRetries] is 0. *)
Theorem retryWithBackoffN_bounded :
  forall (operation : M (Error + T)) (P : Event -> bool) (maxRetries : nat)
         (w : World),
    (forall w0, marks P (snd (operation w0)) = S (marks P w0)) ->
    (forall w0, sleeps (snd (operation w0)) = sleeps w0) ->
    (forall ms, P (Slept ms) = false) ->
    let c := fst (retryWithBackoffN operation maxRetries w) in
    let w' := snd (retryWithBackoffN operation maxRetries w) in
    (exists k, k <= maxRetries /\ (0 < maxRetries -> 0 < k)
               /\ marks P w' = marks P w + k
               /\ sleeps w'
                  = sleeps w
                    ++ List.map (fun n => 2 ^ n * 100) (seq 0 (k - 1)))
    /\ total (sleeps w') + 100
       <= total (sleeps w) + 100 * 2 ^ (maxRetries - 1)
    /\ (c = FellThrough <-> maxRetries = 0).
Proof.
  intros operation P maxRetries w Hmark Hquiet HP c w'. subst c w'.
  unfold retryWithBackoffN.
  destruct (retryLoop operation maxRetries (seq 0 maxRetries) w)
    as [c w'] eqn:Hrun. cbn [fst snd].
  destruct (retryLoop_bounded operation P maxRetries Hmark Hquiet HP
              maxRetries 0 w w' c eq_refl Hrun)
    as (k & Hk & Hpos & Mk & Sk & Hc).
  split; [exists k; auto|]. split; [|exact Hc].
  rewrite Sk, total_app.
  pose proof (total_backoff (k - 1)) as Hsum.
  assert (2 ^ (k - 1) <= 2 ^ (maxRetries - 1))
    by (apply Nat.pow_le_mono_r; lia).
  lia.
Qed.

End RetryN.

Lemma retryWithBackoffN_bounded_witness :
  let operation := Design.invokeModel (Design.ClaudeText (lit "hello") 1000) in
  let P := Sample.isModelCall in
  let w := Sample.world [Sample.rateLimited; Sample.rateLimited;
                         Sample.rateLimited; Sample.ok "hi" 0] in
  (forall w0, Design.marks P (snd (operation w0)) = S (Design.marks P w0))
  /\ (forall w0, Design.sleeps (snd (operation w0)) = Design.sleeps w0)
  /\ (forall ms, P (Design.Slept ms) = false)
  /\ (let c := fst (Design.retryWithBackoffN operation 5 w) in
      let w' := snd (Design.retryWithBackoffN operation 5 w) in
      (exists k, k <= 5 /\ (0 < 5 -> 0 < k)
                 /\ Design.marks P w' = Design.marks P w + k
                 /\ Design.sleeps w'
                    = Design.sleeps w
                      ++ List.map (fun n => 2 ^ n * 100) (seq 0 (k - 1)))
      /\ Runs.total (Design.sleeps w') + 100
         <= Runs.total (Design.sleeps w) + 100 * 2 ^ (5 - 1)
      /\ (c = Design.FellThrough <-> 5 = 0)).
Proof.
  intros operation P w.
  assert (H1 : forall w0, Design.marks P (snd (operation w0))
                          = S (Design.marks P w0))
    by (intros w0; apply invokeModel_marks).
  assert (H2 : forall w0, Design.sleeps (snd (operation w0))
                          = Design.sleeps w0)
    by (intros w0; apply invokeModel_quiet).
  assert (H3 : forall ms, P (Design.Slept ms) = false)
    by (intros ms; reflexivity).
  split; [exact H1|]. split; [exact H2|]. split; [exact H3|].
  exact (retryWithBackoffN_bounded operation P 5 w H1 H2 H3).
Defined.

(** ** What the image generator returns and stores *)

Section Images.
Context `{Design.Services}.
Import Design Runs.

Lemma imagesForPlatforms_assets (u prompt pid : jsstring) (i : nat)
  (platforms : list Platform) :
  forall (pairs : list (nat * Platform)) (images : list ImageAsset)
         (imageData : option blob) (w w' : World)
         (images' : list ImageAsset) (d : option blob),
    Forall2 (imageAssetFor u pid) pairs images ->
    imagesForPlatforms u prompt pid i platforms images imageData w
    = (inr (images', d), w') ->
    Forall2 (imageAssetFor u pid)
      (pairs ++ List.map (fun p => (i, p)) platforms) images'.
Proof.
  induction platforms as [|platform rest IH];
    intros pairs images imageData w w' images' d Hinv Hrun.
  - injection Hrun as <- <- <-. cbn. rewrite app_nil_r. exact Hinv.
  - cbn [imagesForPlatforms] in Hrun. unfold bind in Hrun.
    destruct (imageRetryLoop 3 _ 0 imageData w) as [[d1|e] w1];
      [|discriminate].
    destruct (s3_putObject _ d1 w1) as [[] w2].
    destruct (s3_putObject _ (resizeImage d1 300) w2) as [[] w3].
    destruct (generateUUID w3) as [assetId w4].
    apply (IH (pairs ++ [(i, platform)])) in Hrun.
    + cbn [List.map]. rewrite <- app_assoc in Hrun. exact Hrun.
    + apply Forall2_app; [exact Hinv|].
      constructor; [|constructor]. repeat split.
Qed.

Lemma imagesForIndices_assets (u prompt pid : jsstring)
  (platforms : list Platform) (indices : list nat) :
  forall (pairs : list (nat * Platform)) (images : list ImageAsset)
         (imageData : option blob) (w w' : World)
         (images' : list ImageAsset),
    Forall2 (imageAssetFor u pid) pairs images ->
    imagesForIndices u prompt pid indices platforms images imageData w
    = (inr images', w') ->
    Forall2 (imageAssetFor u pid)
      (pairs ++ list_prod indices platforms) images'.
Proof.
  induction indices as [|i rest IH];
    intros pairs images imageData w w' images' Hinv Hrun.
  - injection Hrun as <- <-. cbn. rewrite app_nil_r. exact Hinv.
  - cbn [imagesForIndices] in Hrun. unfold bind in Hrun.
    destruct (imagesForPlatforms u prompt pid i platforms images imageData w)
      as [[e|[images1 d1]] w1] eqn:Hpass; [discriminate|].
    apply (imagesForPlatforms_assets _ _ _ _ _ pairs) in Hpass;
      [|exact Hinv].
    apply (IH _ _ _ _ _ _ Hpass) in Hrun.
    cbn [list_prod]. rewrite <- app_assoc in Hrun. exact Hrun.
Qed.

Lemma imageAssetFor_In (u pid : jsstring) (prs : list (nat * Platform))
  (images : list ImageAsset) (a : ImageAsset) :
  Forall2 (imageAssetFor u pid) prs images ->
  In a images ->
  exists i p, In (i, p) prs /\ img_s3Key a = imageKey u pid p i.
Proof.
  induction 1 as [|[i p] b rest others Hb HF IH]; intros Ha; [destruct Ha|].
  destruct Ha as [->|Ha].
  - exists i, p. destruct Hb as (Hk & _). split; [left; reflexivity|exact Hk].
  - destruct (IH Ha) as (i' & p' & Hin & Hk). exists i', p'.
    split; [right; exact Hin | exact Hk].
Qed.

(** X10: what [generateImages] returns when it succeeds: one asset for each
    index below [count] and each entry of [platforms], index by index and
    platform by platform; each asset carries the key built from its
    platform and index, the presigned URLs of that key and of its
    thumbnail, and the dimensions of its platform, 1080 by 1080 for
    Instagram and 1200 by 627 for LinkedIn. *)
Theorem generateImages_assets :
  forall (u prompt pid : jsstring) (count : nat) (platforms : list Platform)
         (w : World) (images : list ImageAsset),
    fst (generateImages u prompt pid count platforms w) = inr images ->
    Forall2 (imageAssetFor u pid) (list_prod (seq 0 count) platforms) images
    /\ length images = count * length platforms
    /\ Forall (fun a =>
                 match img_platform a with
                 | instagram =>
                     img_dimensions a = {| width := 1080; height := 1080 |}
                 | linkedin =>
                     img_dimensions a = {| width := 1200; height := 627 |}
                 end) images.
Proof.
  intros u prompt pid count platforms w images Hrun.
  destruct (generateImages u prompt pid count platforms w) as [x w'] eqn:E.
  cbn [fst] in Hrun. subst x. unfold generateImages in E.
  apply (imagesForIndices_assets _ _ _ _ _ []) in E; [|constructor].
  cbn [app] in E. split; [exact E|]. split.
  - apply Forall2_length in E. rewrite <- E, length_prod, length_seq.
    reflexivity.
  - clear -E. induction E as [|ip a pairs images Ha _ IH]; constructor; auto.
    destruct Ha as (_ & _ & _ & Hd & Hp). rewrite Hd, Hp.
    destruct (snd ip); reflexivity.
Qed.

Lemma generateImages_stored (u prompt pid : jsstring) (count : nat)
  (platforms : list Platform) (w w' : World) (images : list ImageAsset)
  (a : ImageAsset) :
  generateImages u prompt pid count platforms w = (inr images, w') ->
  In a images ->
  exists i p,
    i < count /\ In p platforms
    /\ img_s3Key a = imageKey u pid p i
    /\ is_Some (s3 w' !! imageKey u pid p i)
    /\ is_Some (s3 w' !! thumbnailKeyOf (imageKey u pid p i)).
Proof.
  intros E Ha.
  pose proof (generateImages_step u prompt pid count platforms w) as Hs.
  apply step_keptApart in Hs.
  destruct Hs as (_ & _ & _ & _ & (puts & Ep & Hin)).
  rewrite E in Ep, Hin. cbn [snd] in Ep, Hin.
  unfold generateImages in E. pose proof E as E2.
  apply imagesForIndices_spec in E.
  destruct E as (puts' & n & [Ep' _] & _ & Hok).
  destruct (Hok images eq_refl) as (-> & _ & _).
  rewrite Ep in Ep'. apply app_inv_head in Ep'. subst puts.
  apply (imagesForIndices_assets _ _ _ _ _ []) in E2; [|constructor].
  cbn [app] in E2.
  destruct (imageAssetFor_In _ _ _ _ _ E2 Ha) as (i & p & Hip & Hk).
  apply in_prod_iff in Hip. destruct Hip as [Hi Hp].
  assert (Hboth : forall k, In k [imageKey u pid p i;
                                  thumbnailKeyOf (imageKey u pid p i)] ->
                            is_Some (s3 w' !! k)).
  { intros k Hk'. apply Hin. unfold expectedImagePuts.
    apply in_flat_map. exists i. split; [exact Hi|].
    unfold imagePuts. apply in_flat_map. exists p. auto. }
  exists i, p. apply in_seq in Hi.
  split; [lia|]. split; [exact Hp|]. split; [exact Hk|].
  split; apply Hboth; [left | right; left]; reflexivity.
Qed.

(** X11: every asset [generateImages] returns has its image and its
    thumbnail in the bucket when the run ends. *)
Theorem generateImages_assets_are_stored :
  forall (u prompt pid : jsstring) (count : nat) (platforms : list Platform)
         (w : World) (images : list ImageAsset) (a : ImageAsset),
    fst (generateImages u prompt pid count platforms w) = inr images ->
    In a images ->
    let w' := snd (generateImages u prompt pid count platforms w) in
    is_Some (s3 w' !! img_s3Key a)
    /\ is_Some (s3 w' !! thumbnailKeyOf (img_s3Key a)).
Proof.
  intros u prompt pid count platforms w images a Hrun Ha w'. subst w'.
  destruct (generateImages u prompt pid count platforms w) as [x w'] eqn:E.
  cbn [fst snd] in *. subst x.
  destruct (generateImages_stored _ _ _ _ _ _ _ _ _ E Ha)
    as (i & p & _ & _ & -> & H1 & H2).
  split; assumption.
Qed.

End Images.

Lemma generateImages_assets_witness :
  let run := Design.generateImages (lit "user-123") (lit "Diwali Sale")
               (lit "p1") 1 [Design.instagram; Design.linkedin]
               (Sample.world Sample.sixImages) in
  exists images,
    fst run = inr images
    /\ Forall2 (@Runs.imageAssetFor Sample.services (lit "user-123")
                  (lit "p1"))
         (list_prod (seq 0 1) [Design.instagram; Design.linkedin]) images
    /\ length images = 1 * length [Design.instagram; Design.linkedin]
    /\ Forall (fun a =>
                 match Design.img_platform a with
                 | Design.instagram =>
                     Design.img_dimensions a
                     = {| Design.width := 1080; Design.height := 1080 |}
                 | Design.linkedin =>
                     Design.img_dimensions a
                     = {| Design.width := 1200; Design.height := 627 |}
                 end) images.
Proof.
  intros run.
  assert (E : exists images, fst run = inr images)
    by (vm_compute; eexists; reflexivity).
  destruct E as [images E]. exists images. split; [exact E|].
  exact (generateImages_assets (lit "user-123") (lit "Diwali Sale")
           (lit "p1") 1 [Design.instagram; Design.linkedin]
           (Sample.world Sample.sixImages) images E).
Defined.

Lemma generateImages_assets_are_stored_witness :
  let run := Design.generateImages (lit "user-123") (lit "Diwali Sale")
               (lit "p1") 1 [Design.instagram; Design.linkedin]
               (Sample.world Sample.sixImages) in
  exists images a,
    (fst run = inr images /\ In a images)
    /\ is_Some (Design.s3 (snd run) !! Design.img_s3Key a)
    /\ is_Some (Design.s3 (snd run)
                !! Design.thumbnailKeyOf (Design.img_s3Key a)).
Proof.
  intros run.
  assert (E : exists images a, fst run = inr images /\ In a images)
    by (vm_compute; eexists; eexists; split;
        [reflexivity | left; reflexivity]).
  destruct E as (images & a & E & Ha). exists images, a.
  split; [split; [exact E | exact Ha]|].
  exact (generateImages_assets_are_stored (lit "user-123")
           (lit "Diwali Sale") (lit "p1") 1
           [Design.instagram; Design.linkedin]
           (Sample.world Sample.sixImages) images a E Ha).
Defined.

(** ** How the generators end when the endpoint keeps failing *)

Section Failures.
Context `{Design.Services}.
Import Design Runs.

(** The endpoint answers with the reply at the head of its queue. *)
Lemma invokeModel_reply (req : ModelRequest) (w : World)
  (r : Error + blob) (rest : list (Error + blob)) :
  bedrock w = r :: rest ->
  invokeModel req w = (r, snd (invokeModel req w))
  /\ bedrock (snd (invokeModel req w)) = rest.
Proof.
  intros Hb. unfold invokeModel. cbn [emit bedrock]. rewrite Hb.
  split; reflexivity.
Qed.

Lemma sleep_bedrock (ms : nat) (w : World) :
  bedrock (snd (sleep ms w)) = bedrock w.
Proof. reflexivity. Qed.

Lemma log_bedrock (e : Error) (w : World) :
  bedrock (snd (log e w)) = bedrock w.
Proof. reflexivity. Qed.

Lemma imageRetryLoop_other_error (fuel : nat) (req : ModelRequest)
  (retries : nat) (d : option blob) (w : World) (e : Error)
  (rest : list (Error + blob)) :
  retries < 3 ->
  bedrock w = inl e :: rest ->
  isRateLimitError e = false ->
  exists w1,
    imageRetryLoop (S fuel) req retries d w
    = (if 2 <=? retries then ret (ReturnedError e)
       else imageRetryLoop fuel req (S retries) d) w1
    /\ bedrock w1 = rest
    /\ trace w1 = trace w ++ [ModelInvoked req; Logged e]
    /\ s3 w1 = s3 w.
Proof.
  intros Hr Hb He.
  exists (snd (log e (snd (invokeModel req w)))).
  pose proof (invokeModel_reply req w _ _ Hb) as X2.
  destruct X2 as [Ei Eb].
  split; [|split; [rewrite log_bedrock; exact Eb|]].
  - rewrite imageRetryLoop_S. apply Nat.ltb_lt in Hr. rewrite Hr.
    unfold bind. rewrite Ei, He. reflexivity.
  - unfold log, invokeModel. cbn [emit bedrock snd]. rewrite Hb.
    cbn [snd trace s3 emit]. rewrite <- app_assoc. split; reflexivity.
Qed.

Lemma bind_run {A B} (m : M A) (k : A -> M B) (w : World) :
  bind m k w = k (fst (m w)) (snd (m w)).
Proof. unfold bind. destruct (m w). reflexivity. Qed.

Lemma bind_step {A B} (m : M A) (k : A -> M B) (w : World) :
  (forall w0, step w0 (snd (m w0))) ->
  (forall a w0, step w0 (snd (k a w0))) ->
  step w (snd (bind m k w)).
Proof.
  intros Hm Hk. rewrite bind_run.
  exact (step_trans _ _ _ (Hm w) (Hk _ _)).
Qed.

Lemma imagesForIndices_step (u prompt pid : jsstring)
  (platforms : list Platform) (indices : list nat) :
  forall (images : list ImageAsset) (d : option blob) (w : World),
    step w (snd (imagesForIndices u prompt pid indices platforms images d w)).
Proof.
  induction indices as [|i rest IH]; intros images d w.
  - apply step_refl.
  - cbn [imagesForIndices]. apply bind_step.
    + intros w0. apply imagesForPlatforms_step.
    + intros [e|[images1 d1]] w0; [apply step_refl | apply IH].
Qed.

(** One rate-limited attempt of the loop of [generateImages]. *)
Lemma imageRetryLoop_rate_limited_trace (fuel : nat) (req : ModelRequest)
  (retries : nat) (d : option blob) (w : World) (e : Error)
  (rest : list (Error + blob)) :
  retries < 3 ->
  bedrock w = inl e :: rest ->
  isRateLimitError e = true ->
  exists w1,
    imageRetryLoop (S fuel) req retries d w
    = imageRetryLoop fuel req (S retries) d w1
    /\ bedrock w1 = rest
    /\ trace w1 = trace w ++ [ModelInvoked req;
                              Slept (exponentialBackoff (S retries))].
Proof.
  intros Hr Hb He.
  exists (snd (sleep (exponentialBackoff (S retries))
                 (snd (invokeModel req w)))).
  destruct (invokeModel_reply req w _ _ Hb) as [Ei Eb].
  split; [|split; [rewrite sleep_bedrock; exact Eb|]].
  - rewrite imageRetryLoop_S. apply Nat.ltb_lt in Hr. rewrite Hr.
    unfold bind. rewrite Ei, He. reflexivity.
  - unfold sleep, invokeModel. cbn [emit bedrock snd]. rewrite Hb.
    cbn [snd trace emit]. rewrite <- app_assoc. reflexivity.
Qed.

(** X12: in [generateImages] a rate limit is never logged and is always
    followed by a sleep. When the endpoint answers the first image of a
    run three times with a rate-limit error, the run starts with call,
    sleep, call, sleep, call, sleep: the loop sleeps after the third
    failure as well, with the backoff of retry 3, and logs none of the
    three errors. *)
Theorem generateImages_rate_limited_thrice :
  forall (u prompt pid : jsstring) (count : nat) (p : Platform)
         (platforms : list Platform) (e1 e2 e3 : Error)
         (rest : list (Error + blob)) (w : World),
    bedrock w = inl e1 :: inl e2 :: inl e3 :: rest ->
    isRateLimitError e1 = true -> isRateLimitError e2 = true ->
    isRateLimitError e3 = true ->
    let run := generateImages u prompt pid (S count) (p :: platforms) w in
    let req := TitanImage prompt (width (getPlatformDimensions p))
                 (height (getPlatformDimensions p)) in
    exists evs,
      trace (snd run)
      = trace w ++ [ModelInvoked req; Slept (exponentialBackoff 1);
                    ModelInvoked req; Slept (exponentialBackoff 2);
                    ModelInvoked req; Slept (exponentialBackoff 3)] ++ evs.
Proof.
  intros u prompt pid count p platforms e1 e2 e3 rest w Hb H1 H2 H3 run req.
  subst run. unfold generateImages.
  cbn [seq imagesForIndices imagesForPlatforms]. fold req.
  pose proof (imageRetryLoop_rate_limited_trace 2 req 0 None w _ _
                ltac:(lia) Hb H1) as X.
  destruct X as (w1 & L1 & B1 & T1).
  pose proof (imageRetryLoop_rate_limited_trace 1 req 1 None w1 _ _
                ltac:(lia) B1 H2) as X.
  destruct X as (w2 & L2 & B2 & T2).
  pose proof (imageRetryLoop_rate_limited_trace 0 req 2 None w2 _ _
                ltac:(lia) B2 H3) as X.
  destruct X as (w3 & L3 & B3 & T3).
  rewrite bind_run, (bind_run (imageRetryLoop 3 req 0 None)).
  rewrite L1, L2, L3. cbn [imageRetryLoop ret fst snd].
  match goal with
  | |- context [match fst ?xw with inl _ => _ | inr _ => _ end (snd ?xw)] =>
      assert (S1 : step w3 (snd xw));
      [|destruct xw as [[e|[images1 d1]] w4]; cbn [fst snd] in *]
  end.
  { apply bind_step; [intros w0; apply s3_putObject_step|].
    intros [] w0. apply bind_step; [intros w4; apply s3_putObject_step|].
    intros [] w4. apply bind_step; [intros w5; apply generateUUID_step|].
    intros assetId w5. apply imagesForPlatforms_step. }
  - destruct S1 as (_ & _ & (evs & T & _) & _).
    exists evs. cbn [ret snd]. rewrite T, T3, T2, T1, <- !app_assoc.
    reflexivity.
  - pose proof (step_trans _ _ _ S1
                  (imagesForIndices_step u prompt pid (p :: platforms)
                     (seq 1 count) images1 d1 w4)) as S2.
    destruct S2 as (_ & _ & (evs & T & _) & _).
    exists evs. rewrite T, T3, T2, T1, <- !app_assoc. reflexivity.
Qed.

(** X13: an image for which the endpoint answers three times with an error
    that is not a rate limit ends [generateImages]: the third error is
    returned, the three errors are logged, the calls follow one another
    without a sleep, and nothing is written to S3. *)
Theorem generateImages_gives_up_on_third_error :
  forall (u prompt pid : jsstring) (count : nat) (p : Platform)
         (platforms : list Platform) (e1 e2 e3 : Error)
         (rest : list (Error + blob)) (w : World),
    bedrock w = inl e1 :: inl e2 :: inl e3 :: rest ->
    isRateLimitError e1 = false -> isRateLimitError e2 = false ->
    isRateLimitError e3 = false ->
    let run := generateImages u prompt pid (S count) (p :: platforms) w in
    let req := TitanImage prompt (width (getPlatformDimensions p))
                 (height (getPlatformDimensions p)) in
    fst run = inl e3
    /\ trace (snd run)
       = trace w ++ [ModelInvoked req; Logged e1; ModelInvoked req;
                     Logged e2; ModelInvoked req; Logged e3]
    /\ s3 (snd run) = s3 w
    /\ bedrock (snd run) = rest.
Proof.
  intros u prompt pid count p platforms e1 e2 e3 rest w Hb H1 H2 H3 run req.
  subst run. unfold generateImages.
  cbn [seq imagesForIndices imagesForPlatforms]. fold req.
  pose proof (imageRetryLoop_other_error 2 req 0 None w _ _ ltac:(lia) Hb H1) as X9.
  destruct X9 as (w1 & L1 & B1 & T1 & S1).
  pose proof (imageRetryLoop_other_error 1 req 1 None w1 _ _ ltac:(lia) B1 H2) as X10.
  destruct X10 as (w2 & L2 & B2 & T2 & S2).
  pose proof (imageRetryLoop_other_error 0 req 2 None w2 _ _ ltac:(lia) B2 H3) as X11.
  destruct X11 as (w3 & L3 & B3 & T3 & S3).
  cbn [Nat.leb] in L1, L2, L3.
  unfold bind. rewrite L1, L2, L3. cbn [ret fst snd].
  split; [reflexivity|]. split; [|split; [congruence | exact B3]].
  rewrite T3, T2, T1, <- !app_assoc. reflexivity.
Qed.

End Failures.

Lemma generateImages_rate_limited_thrice_witness :
  let e := {| Design.errorClass := Design.RateLimitError;
              Design.errorText := lit "429" |} in
  let w := Sample.world [inl e; inl e; inl e; Sample.ok "png" 0] in
  let run := Design.generateImages (lit "user-123") (lit "Diwali Sale")
               (lit "p1") 3 [Design.instagram; Design.linkedin] w in
  let req := Design.TitanImage (lit "Diwali Sale") 1080 1080 in
  Design.isRateLimitError e = true
  /\ exists evs,
       Design.trace (snd run)
       = Design.trace w
         ++ [Design.ModelInvoked req;
             Design.Slept (Design.exponentialBackoff 1);
             Design.ModelInvoked req;
             Design.Slept (Design.exponentialBackoff 2);
             Design.ModelInvoked req;
             Design.Slept (Design.exponentialBackoff 3)] ++ evs.
Proof.
  intros e w run req. split; [reflexivity|].
  exact (generateImages_rate_limited_thrice (H := Sample.services)
           (lit "user-123") (lit "Diwali Sale") (lit "p1") 2
           Design.instagram [Design.linkedin] e e e [Sample.ok "png" 0] w
           eq_refl eq_refl eq_refl eq_refl).
Defined.

Lemma generateImages_gives_up_on_third_error_witness :
  let e := {| Design.errorClass := Design.AuthenticationFailure;
              Design.errorText := lit "403" |} in
  let w := Sample.world [inl e; inl e; inl e; Sample.ok "png" 0] in
  let run := Design.generateImages (lit "user-123") (lit "Diwali Sale")
               (lit "p1") 3 [Design.instagram; Design.linkedin] w in
  let req := Design.TitanImage (lit "Diwali Sale") 1080 1080 in
  Design.isRateLimitError e = false
  /\ fst run = inl e
  /\ Design.trace (snd run)
     = Design.trace w
       ++ [Design.ModelInvoked req; Design.Logged e;
           Design.ModelInvoked req; Design.Logged e;
           Design.ModelInvoked req; Design.Logged e]
  /\ Design.s3 (snd run) = Design.s3 w
  /\ Design.bedrock (snd run) = [Sample.ok "png" 0].
Proof.
  intros e w run req. split; [reflexivity|].
  exact (generateImages_gives_up_on_third_error (H := Sample.services) (lit "user-123")
           (lit "Diwali Sale") (lit "p1") 2 Design.instagram
           [Design.linkedin] e e e [Sample.ok "png" 0] w
           eq_refl eq_refl eq_refl eq_refl).
Defined.

(** ** The video generator *)

Section VideoRuns.
Context `{Design.Services}.
Import Design Runs.

Lemma draw_quiet (w : World) :
  bedrock (snd (draw w)) = bedrock w /\ s3 (snd (draw w)) = s3 w
  /\ trace (snd (draw w)) = trace w /\ uuids (snd (draw w)) = uuids w.
Proof. unfold draw. destruct (entropy w); repeat split; reflexivity. Qed.

Lemma randomInt_quiet (lo hi : nat) (w : World) :
  bedrock (snd (randomInt lo hi w)) = bedrock w
  /\ s3 (snd (randomInt lo hi w)) = s3 w
  /\ trace (snd (randomInt lo hi w)) = trace w
  /\ uuids (snd (randomInt lo hi w)) = uuids w.
Proof.
  unfold randomInt, bind, ret. pose proof (draw_quiet w) as E.
  destruct (draw w). exact E.
Qed.

Lemma invokeModel_answer (req : ModelRequest) (w : World)
  (r : Error + blob) (rest : list (Error + blob)) :
  bedrock w = r :: rest ->
  fst (invokeModel req w) = r
  /\ bedrock (snd (invokeModel req w)) = rest
  /\ s3 (snd (invokeModel req w)) = s3 w
  /\ trace (snd (invokeModel req w)) = trace w ++ [ModelInvoked req]
  /\ uuids (snd (invokeModel req w)) = uuids w.
Proof.
  intros Hb. unfold invokeModel. cbn [emit bedrock]. rewrite Hb.
  repeat split; reflexivity.
Qed.

Lemma sleep_fields (ms : nat) (w : World) :
  bedrock (snd (sleep ms w)) = bedrock w
  /\ s3 (snd (sleep ms w)) = s3 w
  /\ trace (snd (sleep ms w)) = trace w ++ [Slept ms]
  /\ uuids (snd (sleep ms w)) = uuids w.
Proof. repeat split; reflexivity. Qed.

(** One failed attempt of the loop of [generateVideo]. *)
Lemma videoRetryLoop_error (fuel : nat) (prompt : jsstring) (retries : nat)
  (d : option blob) (w : World) (e : Error) (rest : list (Error + blob)) :
  retries < 3 ->
  bedrock w = inl e :: rest ->
  exists (w1 : World) (req : ModelRequest),
    videoRetryLoop (S fuel) prompt retries d w
    = (if 3 <=? S retries then ret (ReturnedError e)
       else videoRetryLoop fuel prompt (S retries) d
              ∘ snd ∘ sleep (exponentialBackoff (S retries))) w1
    /\ bedrock w1 = rest /\ s3 w1 = s3 w
    /\ trace w1 = trace w ++ [ModelInvoked req].
Proof.
  intros Hr Hb. rewrite videoRetryLoop_S.
  apply Nat.ltb_lt in Hr. rewrite Hr. unfold bind, randomSeed.
  destruct (draw_quiet w) as (B1 & S1 & T1 & _).
  destruct (draw w) as [seed wa]. cbn [snd] in B1, S1, T1.
  destruct (randomInt_quiet 3 10 wa) as (B2 & S2 & T2 & _).
  destruct (randomInt 3 10 wa) as [len wb]. cbn [snd] in B2, S2, T2.
  assert (Hbb : bedrock wb = inl e :: rest) by congruence.
  destruct (invokeModel_answer (StableDiffusionVideo prompt seed len) wb
              _ _ Hbb) as (R3 & B3 & S3 & T3 & _).
  destruct (invokeModel (StableDiffusionVideo prompt seed len) wb)
    as [r wc]. cbn [fst snd] in R3, B3, S3, T3. subst r.
  exists wc, (StableDiffusionVideo prompt seed len).
  split; [|repeat split; congruence].
  destruct (3 <=? S retries); [reflexivity|].
  unfold compose. destruct (sleep _ wc). reflexivity.
Qed.

(** X14: [generateVideo] gives up after three failed calls, whatever the
    errors are: an error that is not retryable is retried like any other.
    The third error is returned, the function has slept twice, after the
    first and after the second failure, and nothing is written to S3. *)
Theorem generateVideo_gives_up_on_third_error :
  forall (u prompt pid : jsstring) (e1 e2 e3 : Error)
         (rest : list (Error + blob)) (w : World),
    bedrock w = inl e1 :: inl e2 :: inl e3 :: rest ->
    let run := generateVideo u prompt pid w in
    fst run = inl e3
    /\ bedrock (snd run) = rest
    /\ s3 (snd run) = s3 w
    /\ sleeps (snd run)
       = sleeps w ++ [exponentialBackoff 1; exponentialBackoff 2]
    /\ length (modelCalls (snd run)) = length (modelCalls w) + 3.
Proof.
  intros u prompt pid e1 e2 e3 rest w Hb run. subst run.
  unfold generateVideo, bind.
  pose proof (videoRetryLoop_error 2 prompt 0 None w _ _ ltac:(lia) Hb)
    as X1.
  destruct X1 as (w1 & r1 & L1 & B1 & S1 & T1).
  cbn [Nat.leb] in L1. unfold compose in L1.
  pose proof (sleep_fields (exponentialBackoff 1) w1) as X1.
  destruct X1 as (B1' & S1' & T1' & _).
  pose proof (videoRetryLoop_error 1 prompt 1 None
              (snd (sleep (exponentialBackoff 1) w1)) e2 (inl e3 :: rest)
              ltac:(lia) ltac:(congruence)) as X2.
  destruct X2 as (w2 & r2 & L2 & B2 & S2 & T2).
  cbn [Nat.leb] in L2. unfold compose in L2.
  pose proof (sleep_fields (exponentialBackoff 2) w2) as X3.
  destruct X3 as (B2' & S2' & T2' & _).
  pose proof (videoRetryLoop_error 0 prompt 2 None
              (snd (sleep (exponentialBackoff 2) w2)) e3 rest
              ltac:(lia) ltac:(congruence)) as X4.
  destruct X4 as (w3 & r3 & L3 & B3 & S3 & T3).
  cbn [Nat.leb] in L3.
  rewrite L1, L2, L3. cbn [ret fst snd].
  split; [reflexivity|]. split; [exact B3|]. split; [congruence|].
  assert (T : trace w3
              = trace w ++ [ModelInvoked r1; Slept (exponentialBackoff 1);
                            ModelInvoked r2; Slept (exponentialBackoff 2);
                            ModelInvoked r3]).
  { rewrite T3, T2', T2, T1', T1, <- !app_assoc. reflexivity. }
  unfold sleeps, modelCalls. rewrite T, !omap_app, length_app.
  split; reflexivity.
Qed.


End VideoRuns.

Lemma generateVideo_gives_up_on_third_error_witness :
  let w := Sample.world [Sample.denied; Sample.rateLimited; Sample.denied;
                         Sample.ok "mp4" 5] in
  let run := Design.generateVideo (lit "user-123") (lit "Diwali Sale")
               (lit "p1") w in
  Design.bedrock w
  = [Sample.denied; Sample.rateLimited; Sample.denied; Sample.ok "mp4" 5]
  /\ fst run = inl {| Design.errorClass := Design.AuthenticationFailure;
                      Design.errorText := lit "403" |}
  /\ Design.bedrock (snd run) = [Sample.ok "mp4" 5]
  /\ Design.s3 (snd run) = Design.s3 w
  /\ Design.sleeps (snd run)
     = Design.sleeps w
       ++ [Design.exponentialBackoff 1; Design.exponentialBackoff 2]
  /\ length (Design.modelCalls (snd run))
     = length (Design.modelCalls w) + 3.
Proof.
  intros w run. split; [reflexivity|].
  exact (generateVideo_gives_up_on_third_error (lit "user-123")
           (lit "Diwali Sale") (lit "p1") _ _ _ _ w eq_refl).
Defined.


(** ** The text generator: what [callClaude] hands back and what
    [generateText] makes of it *)

Section TextRuns.
Context `{Design.Services}.
Import Design Runs.




(** One failed call of the loop of [callClaude]. *)
Lemma claudeRetryLoop_error (fuel : nat) (req : ModelRequest)
  (retries : nat) (w : World) (e : Error) (rest : list (Error + blob)) :
  retries < 3 ->
  bedrock w = inl e :: rest ->
  exists w1 : World,
    claudeRetryLoop (S fuel) req retries w
    = (if 3 <=? S retries then ret (ReplyError e)
       else claudeRetryLoop fuel req (S retries)) w1
    /\ bedrock w1 = rest.
Proof.
  intros Hr Hb. rewrite claudeRetryLoop_S.
  apply Nat.ltb_lt in Hr. rewrite Hr. unfold bind.
  pose proof (invokeModel_reply req w _ _ Hb) as X. destruct X as [Ei Eb].
  rewrite Ei. destruct (3 <=? S retries).
  - exists (snd (invokeModel req w)). split; [reflexivity|exact Eb].
  - exists (snd (sleep (exponentialBackoff (S retries))
                   (snd (invokeModel req w)))).
    split; [|exact Eb].
    destruct (sleep _ (snd (invokeModel req w))). reflexivity.
Qed.

Lemma callClaude_three_errors (prompt : jsstring) (platform : Platform)
  (w : World) (e1 e2 e3 : Error) (rest : list (Error + blob)) :
  bedrock w = inl e1 :: inl e2 :: inl e3 :: rest ->
  exists w1, callClaude prompt platform w = (ReplyError e3, w1)
             /\ bedrock w1 = rest.
Proof.
  intros Hb. unfold callClaude.
  set (req := ClaudeText _ _).
  pose proof (claudeRetryLoop_error 2 req 0 w _ _ ltac:(lia) Hb) as X.
  destruct X as (w1 & L1 & B1).
  pose proof (claudeRetryLoop_error 1 req 1 w1 _ _ ltac:(lia) B1) as X.
  destruct X as (w2 & L2 & B2).
  pose proof (claudeRetryLoop_error 0 req 2 w2 _ _ ltac:(lia) B2) as X.
  destruct X as (w3 & L3 & B3).
  cbn [Nat.leb] in L1, L2, L3.
  exists w3. rewrite L1, L2, L3. split; [reflexivity|exact B3].
Qed.

Lemma callClaude_first_reply (prompt : jsstring) (platform : Platform)
  (w : World) (b : blob) (rest : list (Error + blob)) :
  bedrock w = inr b :: rest ->
  exists w1, callClaude prompt platform w = (ReplyText (contentText b), w1)
             /\ bedrock w1 = rest.
Proof.
  intros Hb. unfold callClaude. set (req := ClaudeText _ _).
  rewrite claudeRetryLoop_S.
  cbn [Nat.ltb Nat.leb]. unfold bind.
  pose proof (invokeModel_reply req w _ _ Hb) as X. destruct X as [Ei Eb].
  rewrite Ei. eexists. split; [reflexivity|exact Eb].
Qed.

(** X17: a caption that could not be generated does not stop
    [generateText]. When the three calls for the caption fail and the call
    for the hashtags is answered, the function returns: the caption of the
    platform is the error of the third call, stored where the text would
    be, and the hashtags are those of the reply. *)
Theorem generateText_stores_error_as_caption :
  forall (prompt : jsstring) (platform : Platform) (e1 e2 e3 : Error)
         (b : blob) (rest : list (Error + blob)) (w : World),
    bedrock w = inl e1 :: inl e2 :: inl e3 :: inr b :: rest ->
    fst (generateText prompt [platform] w)
    = Returned {| captions := <[platform := ReplyError e3]> ∅;
                  hashtags := <[platform := parseHashtags (contentText b)]> ∅
               |}.
Proof.
  intros prompt platform e1 e2 e3 b rest w Hb.
  unfold generateText. cbn [textForPlatforms]. unfold bind.
  pose proof (callClaude_three_errors (buildCaptionPrompt prompt platform)
                platform w _ _ _ _ Hb) as X.
  destruct X as (w1 & C1 & B1). rewrite C1.
  pose proof (callClaude_first_reply (buildHashtagPrompt prompt platform)
                platform w1 _ _ B1) as X.
  destruct X as (w2 & C2 & B2). rewrite C2. reflexivity.
Qed.

(** X18: hashtags that could not be generated do stop [generateText].
    When the call for the caption of the first platform is answered and
    the three calls for its hashtags fail, [parseHashtags] is given the
    error and the function ends with an exception: it returns no captions
    and no hashtags, for this platform or for any other of the list. *)
Theorem generateText_fails_without_hashtags :
  forall (prompt : jsstring) (platform : Platform)
         (platforms : list Platform) (e1 e2 e3 : Error) (b : blob)
         (rest : list (Error + blob)) (w : World),
    bedrock w = inr b :: inl e1 :: inl e2 :: inl e3 :: rest ->
    (exists e, fst (generateText prompt (platform :: platforms) w)
               = Thrown e)
    /\ bedrock (snd (generateText prompt (platform :: platforms) w)) = rest.
Proof.
  intros prompt platform platforms e1 e2 e3 b rest w Hb.
  unfold generateText. cbn [textForPlatforms]. unfold bind.
  pose proof (callClaude_first_reply (buildCaptionPrompt prompt platform)
                platform w _ _ Hb) as X.
  destruct X as (w1 & C1 & B1). rewrite C1.
  pose proof (callClaude_three_errors (buildHashtagPrompt prompt platform)
                platform w1 _ _ _ _ B1) as X.
  destruct X as (w2 & C2 & B2). rewrite C2. cbn [ret fst snd].
  split; [eexists; reflexivity|exact B2].
Qed.

Lemma textForPlatforms_keys (prompt : jsstring) (platforms : list Platform) :
  forall (caps : gmap Platform ClaudeResult)
         (tags : gmap Platform (list jsstring)) (w : World) (r : TextResult),
    fst (textForPlatforms prompt platforms caps tags w) = Returned r ->
    (forall p, is_Some (captions r !! p)
               <-> is_Some (caps !! p) \/ In p platforms)
    /\ (forall p, is_Some (hashtags r !! p)
                  <-> is_Some (tags !! p) \/ In p platforms)
    /\ (forall p, captions r !! p = Some ReplyUndefined ->
                  caps !! p = Some ReplyUndefined).
Proof.
  induction platforms as [|platform rest IH]; intros caps tags w r Hrun.
  - injection Hrun as <-. cbn [captions hashtags In]. repeat split; tauto.
  - cbn [textForPlatforms] in Hrun. unfold bind in Hrun.
    pose proof (callClaude_defined (buildCaptionPrompt prompt platform)
                  platform w) as Hdef.
    destruct (callClaude (buildCaptionPrompt prompt platform) platform w)
      as [captionResponse w1]. cbn [fst] in Hdef.
    destruct (callClaude (buildHashtagPrompt prompt platform) platform w1)
      as [[t|e|] w2]; try discriminate.
    apply IH in Hrun. destruct Hrun as (Hc & Ht & Hu).
    split; [|split].
    + intros p. rewrite Hc, lookup_insert_is_Some. cbn [In].
      destruct (decide (platform = p)); tauto.
    + intros p. rewrite Ht, lookup_insert_is_Some. cbn [In].
      destruct (decide (platform = p)); tauto.
    + intros p Hp. apply Hu in Hp.
      destruct (decide (platform = p)) as [->|Hne].
      * rewrite lookup_insert_eq in Hp. congruence.
      * rewrite lookup_insert_ne in Hp by exact Hne. exact Hp.
Qed.

(** X19: when [generateText] returns, its two maps have the requested
    platforms as their keys and no other: every platform of the list has a
    caption entry and a hashtag set, a platform that was not asked for has
    neither, and no caption entry is undefined. *)
Theorem generateText_keys :
  forall (prompt : jsstring) (platforms : list Platform) (w : World)
         (r : TextResult),
    fst (generateText prompt platforms w) = Returned r ->
    forall p : Platform,
      (is_Some (captions r !! p) <-> In p platforms)
      /\ (is_Some (hashtags r !! p) <-> In p platforms)
      /\ captions r !! p <> Some ReplyUndefined.
Proof.
  intros prompt platforms w r Hrun p. unfold generateText in Hrun.
  apply textForPlatforms_keys in Hrun. destruct Hrun as (Hc & Ht & Hu).
  split; [|split].
  - rewrite Hc, lookup_empty. split; [intros [[? [=]]|]; auto | auto].
  - rewrite Ht, lookup_empty. split; [intros [[? [=]]|]; auto | auto].
  - intros Hp. apply Hu in Hp. rewrite lookup_empty in Hp. discriminate.
Qed.

End TextRuns.

Lemma generateText_stores_error_as_caption_witness :
  let e := {| Design.errorClass := Design.ServiceUnavailable;
              Design.errorText := lit "503" |} in
  let w := Sample.world [inl e; inl e; inl e; Sample.ok "#sale #diwali" 0] in
  Design.bedrock w = [inl e; inl e; inl e; Sample.ok "#sale #diwali" 0]
  /\ fst (Design.generateText (lit "Diwali Sale") [Design.linkedin] w)
     = Design.Returned
         {| Design.captions := <[Design.linkedin := Design.ReplyError e]> ∅;
            Design.hashtags :=
              <[Design.linkedin :=
                  Design.parseHashtags (lit "#sale #diwali")]> ∅ |}.
Proof.
  intros e w. split; [reflexivity|].
  exact (generateText_stores_error_as_caption (H := Sample.services) (lit "Diwali Sale")
           Design.linkedin e e e
           {| Sample.body := lit "#sale #diwali"; Sample.seconds := 0 |}
           [] w eq_refl).
Defined.

Lemma generateText_fails_without_hashtags_witness :
  let e := {| Design.errorClass := Design.ServiceUnavailable;
              Design.errorText := lit "503" |} in
  let w := Sample.world [Sample.ok "Offers" 0; inl e; inl e; inl e;
                         Sample.ok "Offers" 0; Sample.ok "#sale" 0] in
  let run := Design.generateText (lit "Diwali Sale")
               [Design.instagram; Design.linkedin] w in
  Design.bedrock w
  = [Sample.ok "Offers" 0; inl e; inl e; inl e;
     Sample.ok "Offers" 0; Sample.ok "#sale" 0]
  /\ (exists e', fst run = Design.Thrown e')
  /\ Design.bedrock (snd run) = [Sample.ok "Offers" 0; Sample.ok "#sale" 0].
Proof.
  intros e w run. split; [reflexivity|].
  exact (generateText_fails_without_hashtags (H := Sample.services) (lit "Diwali Sale")
           Design.instagram [Design.linkedin] e e e
           {| Sample.body := lit "Offers"; Sample.seconds := 0 |}
           [Sample.ok "Offers" 0; Sample.ok "#sale" 0] w eq_refl).
Defined.

Lemma generateText_keys_witness :
  let run := Design.generateText (lit "Diwali Sale") [Design.instagram]
               (Sample.world Sample.simulatedReplies) in
  exists r,
    fst run = Design.Returned r
    /\ forall p : Design.Platform,
         (is_Some (Design.captions r !! p) <-> In p [Design.instagram])
         /\ (is_Some (Design.hashtags r !! p) <-> In p [Design.instagram])
         /\ Design.captions r !! p <> Some Design.ReplyUndefined.
Proof.
  intros run.
  assert (E : exists r, fst run = Design.Returned r)
    by (vm_compute; eexists; reflexivity).
  destruct E as [r E]. exists r. split; [exact E|].
  exact (generateText_keys (lit "Diwali Sale") [Design.instagram]
           (Sample.world Sample.simulatedReplies) r E).
Defined.

(** ** How many calls a generator makes *)

Section Budget.
Context `{Design.Services}.
Import Design Runs.

Lemma spends_refl (w : World) : spends 0 w w.
Proof. unfold spends. lia. Qed.

Lemma spends_trans (n m : nat) (w1 w2 w3 : World) :
  spends n w1 w2 -> spends m w2 w3 -> spends (n + m) w1 w3.
Proof. unfold spends. lia. Qed.

Lemma spends_le (n m : nat) (w w' : World) :
  n <= m -> spends n w w' -> spends m w w'.
Proof. unfold spends. lia. Qed.

Lemma extends_spends (new : list ModelRequest) (used : list (Error + blob))
  (w w' : World) :
  extends new used w w' -> spends (length new) w w'.
Proof. intros [E _]. unfold spends. rewrite E, length_app. lia. Qed.

Lemma invokeModel_spends (req : ModelRequest) (w : World) :
  spends 1 w (snd (invokeModel req w)).
Proof.
  destruct (invokeModel_extends req w) as (used & E & _).
  exact (extends_spends _ _ _ _ E).
Qed.

Lemma sleep_spends (ms : nat) (w : World) : spends 0 w (snd (sleep ms w)).
Proof. exact (extends_spends _ _ _ _ (sleep_extends ms w)). Qed.

Lemma log_spends (e : Error) (w : World) : spends 0 w (snd (log e w)).
Proof.
  unfold spends, log. cbn [snd]. rewrite modelCalls_emit, app_nil_r. lia.
Qed.

Lemma s3_putObject_spends (k : jsstring) (d : option blob) (w : World) :
  spends 0 w (snd (s3_putObject k d w)).
Proof. exact (extends_spends _ _ _ _ (s3_putObject_extends k d w)). Qed.

Lemma generateUUID_spends (w : World) : spends 0 w (snd (generateUUID w)).
Proof. exact (extends_spends _ _ _ _ (generateUUID_extends w)). Qed.

Lemma draw_spends (w : World) : spends 0 w (snd (draw w)).
Proof. exact (extends_spends _ _ _ _ (draw_extends w)). Qed.

Lemma randomInt_spends (lo hi : nat) (w : World) :
  spends 0 w (snd (randomInt lo hi w)).
Proof. exact (extends_spends _ _ _ _ (randomInt_extends lo hi w)). Qed.

Ltac spent :=
  unfold spends in *; cbn [length] in *; lia.

Lemma imageRetryLoop_spends (fuel : nat) (req : ModelRequest) :
  forall (retries : nat) (imageData : option blob) (w : World),
    spends (3 - retries) w
      (snd (imageRetryLoop fuel req retries imageData w)).
Proof.
  induction fuel as [|fuel IH]; intros retries imageData w.
  - cbn [imageRetryLoop ret snd]. spent.
  - rewrite imageRetryLoop_S. destruct (retries <? 3) eqn:Hr;
      [|cbn [ret snd]; spent].
    apply Nat.ltb_lt in Hr. unfold bind.
    pose proof (invokeModel_spends req w) as E1.
    destruct (invokeModel req w) as [[e|d] w1]; cbn [snd] in E1;
      [|cbn [ret snd]; spent].
    destruct (isRateLimitError e).
    + pose proof (sleep_spends (exponentialBackoff (S retries)) w1) as E2.
      destruct (sleep (exponentialBackoff (S retries)) w1) as [[] w2].
      cbn [snd] in E2.
      pose proof (IH (S retries) imageData w2). spent.
    + pose proof (log_spends e w1) as E2.
      destruct (log e w1) as [[] w2]. cbn [snd] in E2.
      destruct (2 <=? retries).
      * cbn [ret snd]. spent.
      * pose proof (IH (S retries) imageData w2). spent.
Qed.

Lemma imagesForPlatforms_spends (u prompt pid : jsstring) (i : nat)
  (platforms : list Platform) :
  forall (images : list ImageAsset) (imageData : option blob) (w : World),
    spends (3 * length platforms) w
      (snd (imagesForPlatforms u prompt pid i platforms images imageData w)).
Proof.
  induction platforms as [|platform rest IH]; intros images imageData w.
  - cbn [imagesForPlatforms ret snd]. spent.
  - cbn [imagesForPlatforms]. unfold bind.
    pose proof (imageRetryLoop_spends 3
      (TitanImage prompt (width (getPlatformDimensions platform))
         (height (getPlatformDimensions platform))) 0 imageData w) as E1.
    destruct (imageRetryLoop 3 _ 0 imageData w) as [[d1|e] w1];
      cbn [snd] in E1; [|cbn [ret snd]; spent].
    set (k := imageKey u pid platform i).
    pose proof (s3_putObject_spends k d1 w1) as E2.
    destruct (s3_putObject k d1 w1) as [[] w2]. cbn [snd] in E2.
    pose proof (s3_putObject_spends (thumbnailKeyOf k) (resizeImage d1 300)
                  w2) as E3.
    destruct (s3_putObject (thumbnailKeyOf k) (resizeImage d1 300) w2)
      as [[] w3]. cbn [snd] in E3.
    pose proof (generateUUID_spends w3) as E4.
    destruct (generateUUID w3) as [assetId w4]. cbn [snd] in E4.
    match goal with
    | |- spends _ _ (snd (imagesForPlatforms _ _ _ _ _ ?im ?d ?w)) =>
        pose proof (IH im d w)
    end.
    spent.
Qed.

Lemma imagesForIndices_spends (u prompt pid : jsstring)
  (platforms : list Platform) (indices : list nat) :
  forall (images : list ImageAsset) (imageData : option blob) (w : World),
    spends (3 * (length indices * length platforms)) w
      (snd (imagesForIndices u prompt pid indices platforms images
              imageData w)).
Proof.
  induction indices as [|i rest IH]; intros images d w.
  - cbn [imagesForIndices ret snd]. spent.
  - cbn [imagesForIndices]. unfold bind.
    pose proof (imagesForPlatforms_spends u prompt pid i platforms images d w)
      as E1.
    destruct (imagesForPlatforms u prompt pid i platforms images d w)
      as [[e|[images1 d1]] w1]; cbn [snd] in E1.
    + cbn [ret snd]. spent.
    + pose proof (IH images1 d1 w1). spent.
Qed.

Lemma videoRetryLoop_spends (fuel : nat) (prompt : jsstring) :
  forall (retries : nat) (videoData : option blob) (w : World),
    spends (3 - retries) w
      (snd (videoRetryLoop fuel prompt retries videoData w)).
Proof.
  induction fuel as [|fuel IH]; intros retries videoData w.
  - cbn [videoRetryLoop ret snd]. spent.
  - rewrite videoRetryLoop_S. destruct (retries <? 3) eqn:Hr;
      [|cbn [ret snd]; spent].
    apply Nat.ltb_lt in Hr. unfold bind, randomSeed.
    pose proof (draw_spends w) as E1.
    destruct (draw w) as [seed w1]. cbn [snd] in E1.
    pose proof (randomInt_spends 3 10 w1) as E2.
    destruct (randomInt 3 10 w1) as [len w2]. cbn [snd] in E2.
    pose proof (invokeModel_spends (StableDiffusionVideo prompt seed len) w2)
      as E3.
    destruct (invokeModel (StableDiffusionVideo prompt seed len) w2)
      as [[e|d] w3]; cbn [snd] in E3; [|cbn [ret snd]; spent].
    destruct (3 <=? S retries); [cbn [ret snd]; spent|].
    pose proof (sleep_spends (exponentialBackoff (S retries)) w3) as E4.
    destruct (sleep (exponentialBackoff (S retries)) w3) as [[] w4].
    cbn [snd] in E4.
    pose proof (IH (S retries) videoData w4). spent.
Qed.

Lemma claudeRetryLoop_spends (fuel : nat) (req : ModelRequest) :
  forall (retries : nat) (w : World),
    spends (3 - retries) w (snd (claudeRetryLoop fuel req retries w)).
Proof.
  induction fuel as [|fuel IH]; intros retries w.
  - cbn [claudeRetryLoop ret snd]. spent.
  - rewrite claudeRetryLoop_S. destruct (retries <? 3) eqn:Hr;
      [|cbn [ret snd]; spent].
    apply Nat.ltb_lt in Hr. unfold bind.
    pose proof (invokeModel_spends req w) as E1.
    destruct (invokeModel req w) as [[e|d] w1]; cbn [snd] in E1;
      [|cbn [ret snd]; spent].
    destruct (3 <=? S retries); [cbn [ret snd]; spent|].
    pose proof (sleep_spends (exponentialBackoff (S retries)) w1) as E2.
    destruct (sleep (exponentialBackoff (S retries)) w1) as [[] w2].
    cbn [snd] in E2.
    pose proof (IH (S retries) w2). spent.
Qed.

Lemma textForPlatforms_spends (prompt : jsstring)
  (platforms : list Platform) :
  forall (caps : gmap Platform ClaudeResult)
         (tags : gmap Platform (list jsstring)) (w : World),
    spends (6 * length platforms) w
      (snd (textForPlatforms prompt platforms caps tags w)).
Proof.
  induction platforms as [|platform rest IH]; intros caps tags w.
  - cbn [textForPlatforms ret snd]. spent.
  - cbn [textForPlatforms]. unfold bind, callClaude.
    pose proof (claudeRetryLoop_spends 3
      (ClaudeText (buildCaptionPrompt prompt platform)
         (maxTokens (getPlatformConstraints platform))) 0 w) as E1.
    destruct (claudeRetryLoop 3 _ 0 w) as [cr w1]. cbn [snd] in E1.
    pose proof (claudeRetryLoop_spends 3
      (ClaudeText (buildHashtagPrompt prompt platform)
         (maxTokens (getPlatformConstraints platform))) 0 w1) as E2.
    destruct (claudeRetryLoop 3 _ 0 w1) as [[t|e|] w2]; cbn [snd] in E2.
    + match goal with
      | |- spends _ _ (snd (textForPlatforms _ _ ?c ?g ?w)) =>
          pose proof (IH c g w)
      end.
      spent.
    + cbn [ret snd]. spent.
    + cbn [ret snd]. spent.
Qed.

(** X20: the cost of a run in calls to the model endpoint. [generateImages]
    makes at most three calls for each image, so at most
    [3 * count * |platforms|]; [generateVideo] makes at most three; and
    [generateText] makes at most three for each caption and three for each
    hashtag set, so at most [6 * |platforms|]. *)
Theorem generators_call_budget :
  forall (u prompt pid : jsstring) (count : nat) (platforms : list Platform)
         (w : World),
    length (modelCalls (snd (generateImages u prompt pid count platforms w)))
    <= length (modelCalls w) + 3 * (count * length platforms)
    /\ length (modelCalls (snd (generateVideo u prompt pid w)))
       <= length (modelCalls w) + 3
    /\ length (modelCalls (snd (generateText prompt platforms w)))
       <= length (modelCalls w) + 6 * length platforms.
Proof.
  intros u prompt pid count platforms w. split; [|split].
  - unfold generateImages.
    pose proof (imagesForIndices_spends u prompt pid platforms (seq 0 count)
                  [] None w) as E.
    rewrite length_seq in E. exact E.
  - unfold generateVideo, bind.
    pose proof (videoRetryLoop_spends 3 prompt 0 None w) as E1.
    destruct (videoRetryLoop 3 prompt 0 None w) as [[d|e] w1];
      cbn [snd] in E1; [|cbn [ret snd]; spent].
    pose proof (s3_putObject_spends (videoKey u pid) d w1) as E2.
    destruct (s3_putObject (videoKey u pid) d w1) as [[] w2].
    cbn [snd] in E2.
    pose proof (generateUUID_spends w2) as E3.
    destruct (generateUUID w2) as [assetId w3]. cbn [snd] in E3.
    cbn [ret snd]. spent.
  - exact (textForPlatforms_spends prompt platforms ∅ ∅ w).
Qed.

End Budget.

(** ** The orchestrator: the row of the project and the order of a run *)

Section Orchestration.
Context `{Design.Services}.
Import Design Runs.

Lemma step_now (w w' : World) : step w w' -> now w <= now w'.
Proof.
  intros Hs. apply step_keptApart in Hs. destruct Hs as (_ & _ & N & _). lia.
Qed.

Lemma gather_image (p : Promises) (t : nat) (order : list Component) :
  out_image (gather p t order) = imagePromise p
  \/ out_image (gather p t order) = Failed (timedOut image t).
Proof.
  unfold gather.
  match goal with
  | |- context [fold_left _ order ?r] => set (r0 := r)
  end.
  assert (H0 : out_image r0 = imagePromise p
               \/ out_image r0 = Failed (timedOut image t))
    by (right; reflexivity).
  clearbody r0. revert r0 H0.
  induction order as [|c order IH]; intros r0 H0; simpl; [exact H0|].
  apply IH. destruct c; cbn [deliver out_image]; auto.
Qed.

Lemma generateUUID_world (w w1 : World) (x : jsstring) :
  generateUUID w = (x, w1) ->
  x = uuidOf (uuids w) /\ dynamoDB w1 = dynamoDB w /\ trace w1 = trace w
  /\ now w1 = now w /\ s3 w1 = s3 w.
Proof. intros [= <- <-]. repeat split. Qed.

Lemma dynamoDB_putItem_world (row : Project) (w w1 : World) (u : unit) :
  dynamoDB_putItem row w = (u, w1) ->
  dynamoDB w1 = <[projectId row := row]> (dynamoDB w)
  /\ trace w1 = trace w ++ [DynamoPut (projectId row)]
  /\ now w1 = now w /\ s3 w1 = s3 w.
Proof. intros [= <- <-]. repeat split. Qed.

Lemma dynamoDB_updateItem_world (id : jsstring) (st : Status) (r : Response)
  (t : nat) (w w1 : World) (u : unit) :
  dynamoDB_updateItem id st r t w = (u, w1) ->
  dynamoDB w1
  = alter (fun p => {| projectId := projectId p; userId := userId p;
                       prompt := prompt p; createdAt := createdAt p;
                       status := st; assets := Some r;
                       completedAt := Some t |}) id (dynamoDB w)
  /\ trace w1 = trace w ++ [DynamoUpdate id]
  /\ now w1 = now w /\ s3 w1 = s3 w.
Proof. intros [= <- <-]. repeat split. Qed.

Lemma invokeAsync_world {A B} (l : Lambda) (c : Component) (run : M A)
  (outcome : A -> Error + B) (w w1 : World) (p : TaskOutcome B) :
  (forall w0, step w0 (snd (run w0))) ->
  invokeAsync l c run outcome w = (p, w1) ->
  dynamoDB w1 = dynamoDB w
  /\ (exists evs, trace w1 = trace w ++ LambdaInvoked l :: evs
                  /\ forallb generatorEvent evs = true)
  /\ now w <= now w1
  /\ (forall k, is_Some (s3 w !! k) -> is_Some (s3 w1 !! k))
  /\ (forall d, p = Succeeded d ->
        exists a, run (emit (LambdaInvoked l) w) = (a, w1)
                  /\ outcome a = inr d).
Proof.
  intros Hstep Hrun. unfold invokeAsync in Hrun.
  pose proof (Hstep (emit (LambdaInvoked l) w)) as Hs.
  destruct (run (emit (LambdaInvoked l) w)) as [a w2]. cbn [snd] in Hs.
  injection Hrun as <- <-.
  pose proof (step_now _ _ Hs) as Hn.
  destruct Hs as (D & _ & (evs & T & G & _) & _ & _ & S).
  split; [exact D|]. split.
  { exists evs. rewrite T. cbn [trace emit]. rewrite <- app_assoc.
    split; [reflexivity | exact G]. }
  split; [exact Hn|]. split; [exact S|].
  intros d Hd. exists a. split; [reflexivity|].
  destruct (outcome a); [discriminate|]. congruence.
Qed.

(** What a run of the orchestrator on an accepted request amounts to. *)
Lemma handleContentGeneration_run (request : Request) (w w' : World)
  (response : Response) :
  handleContentGeneration request w = (inr response, w') ->
  let pid := uuidOf (uuids w) in
  resp_projectId response = pid
  /\ dynamoDB w'
     = alter (fun p => {| projectId := projectId p; userId := userId p;
                          prompt := prompt p; createdAt := createdAt p;
                          status := resp_status response;
                          assets := Some response;
                          completedAt := Some (now w') |}) pid
         (<[pid := {| projectId := pid; userId := req_userId request;
                      prompt := req_prompt request; createdAt := now w;
                      status := generating; assets := None;
                      completedAt := None |}]> (dynamoDB w))
  /\ (exists e1 e2 e3,
        trace w'
        = trace w
          ++ [DynamoPut pid]
          ++ ([LambdaInvoked ImageGeneratorLambda] ++ e1)
          ++ ([LambdaInvoked VideoGeneratorLambda] ++ e2)
          ++ ([LambdaInvoked TextGeneratorLambda] ++ e3)
          ++ [DynamoUpdate pid]
        /\ forallb generatorEvent e1 = true
        /\ forallb generatorEvent e2 = true
        /\ forallb generatorEvent e3 = true)
  /\ now w <= now w'
  /\ (forall a, In a (resp_images response) ->
        exists i p,
          i < 3 /\ In p (req_platforms request)
          /\ img_s3Key a = imageKey (req_userId request) pid p i
          /\ is_Some (s3 w' !! img_s3Key a)
          /\ is_Some (s3 w' !! thumbnailKeyOf (img_s3Key a))).
Proof.
  intros Hrun pid. unfold handleContentGeneration in Hrun.
  destruct (length (req_prompt request) <? 3); [discriminate|].
  unfold bind in Hrun.
  destruct (generateUUID w) as [pid0 w1] eqn:E1.
  apply generateUUID_world in E1. destruct E1 as (-> & D1 & T1 & N1 & S1).
  fold pid in Hrun.
  destruct (currentTimestamp w1) as [t1 w2] eqn:E2.
  unfold currentTimestamp in E2. injection E2 as <- <-.
  destruct (dynamoDB_putItem _ w1) as [u3 w3] eqn:E3.
  apply dynamoDB_putItem_world in E3. cbn [projectId] in E3.
  destruct E3 as (D3 & T3 & N3 & S3).
  destruct (invokeAsync ImageGeneratorLambda _ _ _ w3) as [pi w4] eqn:E4.
  apply invokeAsync_world in E4; [|intros w0; apply generateImages_step].
  destruct E4 as (D4 & (e1 & T4 & G4) & N4 & S4 & P4).
  destruct (invokeAsync VideoGeneratorLambda _ _ _ w4) as [pv w5] eqn:E5.
  apply invokeAsync_world in E5; [|intros w0; apply generateVideo_step].
  destruct E5 as (D5 & (e2 & T5 & G5) & N5 & S5 & _).
  destruct (invokeAsync TextGeneratorLambda _ _ _ w5) as [pt w6] eqn:E6.
  apply invokeAsync_world in E6; [|intros w0; apply generateText_step].
  destruct E6 as (D6 & (e3 & T6 & G6) & N6 & S6 & _).
  destruct (awaitAll _ w6) as [results w7] eqn:E7.
  unfold awaitAll in E7. injection E7 as <- <-.
  destruct (currentTimestamp w6) as [t2 w8] eqn:E8.
  unfold currentTimestamp in E8. injection E8 as <- <-.
  destruct (dynamoDB_updateItem _ _ _ _ w6) as [u9 w9] eqn:E9.
  apply dynamoDB_updateItem_world in E9.
  destruct E9 as (D9 & T9 & N9 & S9).
  injection Hrun as <- <-.
  cbn [resp_projectId resp_status resp_images] in *.
  split; [reflexivity|]. split.
  { rewrite D9, D6, D5, D4, D3, D1, N9, N1. reflexivity. }
  split.
  { exists e1, e2, e3. split; [|auto].
    rewrite T9, T6, T5, T4, T3, T1, <- !app_assoc. reflexivity. }
  split; [lia|].
  intros a Ha.
  match type of Ha with
  | In a (orEmpty (out_image (gather ?p ?t ?o))) =>
      destruct (gather_image p t o) as [Eg|Eg]; rewrite Eg in Ha
  end; [|destruct Ha].
  cbn [imagePromise] in Ha.
  destruct pi as [images|e]; [|destruct Ha]. cbn [orEmpty] in Ha.
  destruct (P4 images eq_refl) as (x & Ex & Ho). unfold id in Ho. subst x.
  destruct (generateImages_stored _ _ _ _ _ _ _ _ _ Ex Ha)
    as (i & p & Hi & Hp & Hk & K1 & K2).
  exists i, p. rewrite Hk. repeat split; auto.
  - rewrite S9. apply S6, S5, K1.
  - rewrite S9. apply S6, S5, K2.
Qed.

(** X21: the row of the project after an accepted request. The response
    names the project by the identifier drawn at the start; when the
    orchestrator returns, the Projects table holds under that identifier
    the user and the prompt of the request, the time the run started, the
    status and the whole of the response, and the time it ended, which is
    never before the time it started. No other row is touched. *)
Theorem handleContentGeneration_project_row :
  forall (request : Request) (w : World) (response : Response),
    let run := handleContentGeneration request w in
    fst run = inr response ->
    resp_projectId response = uuidOf (uuids w)
    /\ dynamoDB (snd run) !! resp_projectId response
       = Some {| projectId := resp_projectId response;
                 userId := req_userId request;
                 prompt := req_prompt request;
                 createdAt := now w;
                 status := resp_status response;
                 assets := Some response;
                 completedAt := Some (now (snd run)) |}
    /\ now w <= now (snd run)
    /\ (forall id, id <> resp_projectId response ->
                   dynamoDB (snd run) !! id = dynamoDB w !! id).
Proof.
  intros request w response run Hrun. subst run.
  destruct (handleContentGeneration request w) as [x w'] eqn:E.
  cbn [fst snd] in *. subst x.
  apply handleContentGeneration_run in E.
  destruct E as (Hp & D & _ & N & _).
  rewrite Hp, D. split; [reflexivity|]. split; [|split; [exact N|]].
  - rewrite lookup_alter_eq, lookup_insert_eq. reflexivity.
  - intros id Hid. rewrite lookup_alter_ne, lookup_insert_ne by congruence.
    reflexivity.
Qed.

(** X22: the order of a run of the orchestrator on an accepted request.
    The table is written twice and no more: the row is put before the
    first Lambda is invoked and updated after everything else; in between
    the three Lambdas are invoked once each, in the order image, video,
    text. *)
Theorem handleContentGeneration_order :
  forall (request : Request) (w : World) (response : Response),
    let run := handleContentGeneration request w in
    fst run = inr response ->
    let pid := resp_projectId response in
    invocations (snd run)
    = invocations w ++ [ImageGeneratorLambda; VideoGeneratorLambda;
                        TextGeneratorLambda]
    /\ exists evs,
         trace (snd run)
         = trace w ++ DynamoPut pid :: evs ++ [DynamoUpdate pid]
         /\ forallb (fun e => negb (tableEvent e)) evs = true.
Proof.
  intros request w response run Hrun pid. subst run pid.
  destruct (handleContentGeneration request w) as [x w'] eqn:E.
  cbn [fst snd] in *. subst x.
  apply handleContentGeneration_run in E.
  destruct E as (Hp & _ & (e1 & e2 & e3 & T & G1 & G2 & G3) & _).
  assert (Hq : forall evs, forallb generatorEvent evs = true ->
                 forallb (fun e => negb (tableEvent e)) evs = true).
  { intros evs G. apply forallb_forall. intros e He.
    pose proof (proj1 (forallb_forall _ _) G e He) as Ge.
    destruct e; try discriminate; reflexivity. }
  rewrite Hp. split.
  - unfold invocations. rewrite T, !omap_app.
    rewrite (generator_events_invoke_nothing e1 G1),
      (generator_events_invoke_nothing e2 G2),
      (generator_events_invoke_nothing e3 G3).
    reflexivity.
  - exists ((LambdaInvoked ImageGeneratorLambda :: e1)
            ++ (LambdaInvoked VideoGeneratorLambda :: e2)
            ++ (LambdaInvoked TextGeneratorLambda :: e3)).
    split; [rewrite T, <- !app_assoc; reflexivity|].
    rewrite !forallb_app. cbn [forallb tableEvent negb andb].
    rewrite (Hq e1 G1), (Hq e2 G2), (Hq e3 G3). reflexivity.
Qed.

(** X23: every image the response of the orchestrator lists is in the
    bucket when the orchestrator returns, with its thumbnail, under an
    image key of the project of the response, of one of the requested
    platforms and of an index below 3. The user in the key is the
    [userId] the image Lambda runs with. *)
Theorem handleContentGeneration_images_are_stored :
  forall (request : Request) (w : World) (response : Response)
         (a : ImageAsset),
    let run := handleContentGeneration request w in
    fst run = inr response ->
    In a (resp_images response) ->
    (exists userId i p,
       i < 3 /\ In p (req_platforms request)
       /\ img_s3Key a = imageKey userId (resp_projectId response) p i)
    /\ is_Some (s3 (snd run) !! img_s3Key a)
    /\ is_Some (s3 (snd run) !! thumbnailKeyOf (img_s3Key a)).
Proof.
  intros request w response a run Hrun Ha. subst run.
  destruct (handleContentGeneration request w) as [x w'] eqn:E.
  cbn [fst snd] in *. subst x.
  apply handleContentGeneration_run in E.
  destruct E as (Hp & _ & _ & _ & Hs).
  destruct (Hs a Ha) as (i & p & Hi & Hpl & Hk & K1 & K2).
  split; [|split; assumption].
  exists (req_userId request), i, p. rewrite Hp. auto.
Qed.

End Orchestration.

Lemma handleContentGeneration_project_row_witness :
  let request := Sample.request "Diwali Sale" [Design.instagram] in
  let w := Sample.world [] in
  let run := Design.handleContentGeneration request w in
  exists response,
    fst run = inr response
    /\ Design.resp_projectId response = Design.uuidOf (Design.uuids w)
    /\ Design.dynamoDB (snd run) !! Design.resp_projectId response
       = Some {| Design.projectId := Design.resp_projectId response;
                 Design.userId := Design.req_userId request;
                 Design.prompt := Design.req_prompt request;
                 Design.createdAt := Design.now w;
                 Design.status := Design.resp_status response;
                 Design.assets := Some response;
                 Design.completedAt := Some (Design.now (snd run)) |}
    /\ Design.now w <= Design.now (snd run)
    /\ (forall id, id <> Design.resp_projectId response ->
                   Design.dynamoDB (snd run) !! id
                   = Design.dynamoDB w !! id).
Proof.
  intros request w run.
  assert (E : exists response, fst run = inr response)
    by (vm_compute; eexists; reflexivity).
  destruct E as [response E]. exists response. split; [exact E|].
  exact (handleContentGeneration_project_row request w response E).
Defined.

Lemma handleContentGeneration_order_witness :
  let request := Sample.request "Diwali Sale" [Design.instagram] in
  let w := Sample.world [] in
  let run := Design.handleContentGeneration request w in
  exists response,
    fst run = inr response
    /\ Design.invocations (snd run)
       = Design.invocations w
         ++ [Design.ImageGeneratorLambda; Design.VideoGeneratorLambda;
             Design.TextGeneratorLambda]
    /\ exists evs,
         Design.trace (snd run)
         = Design.trace w
           ++ Design.DynamoPut (Design.resp_projectId response)
              :: evs ++ [Design.DynamoUpdate (Design.resp_projectId response)]
         /\ forallb (fun e => negb (Runs.tableEvent e)) evs = true.
Proof.
  intros request w run.
  assert (E : exists response, fst run = inr response)
    by (vm_compute; eexists; reflexivity).
  destruct E as [response E]. exists response. split; [exact E|].
  exact (handleContentGeneration_order request w response E).
Defined.

Lemma handleContentGeneration_images_are_stored_witness :
  let request := Sample.request "Diwali Sale" [Design.instagram] in
  let w := Sample.world Sample.sixImages in
  let run := Design.handleContentGeneration request w in
  exists response a,
    (fst run = inr response /\ In a (Design.resp_images response))
    /\ (exists userId i p,
          i < 3 /\ In p (Design.req_platforms request)
          /\ Design.img_s3Key a
             = Design.imageKey userId (Design.resp_projectId response) p i)
    /\ is_Some (Design.s3 (snd run) !! Design.img_s3Key a)
    /\ is_Some (Design.s3 (snd run)
                !! Design.thumbnailKeyOf (Design.img_s3Key a)).
Proof.
  intros request w run.
  assert (E : exists response a,
             fst run = inr response /\ In a (Design.resp_images response))
    by (vm_compute; eexists; eexists; split;
        [reflexivity | left; reflexivity]).
  destruct E as (response & a & E & Ha). exists response, a.
  split; [split; [exact E | exact Ha]|].
  exact (handleContentGeneration_images_are_stored request w response a
           E Ha).
Defined.

(** ** The prompts and the constraints of a platform *)

Section Prompts.
Import Design Runs.

Lemma occursIn_app_r (s x t : jsstring) :
  occursIn s t -> occursIn s (x ++ t).
Proof.
  intros (a & b & ->). exists (x ++ a), b. rewrite <- app_assoc. reflexivity.
Qed.

Lemma occursIn_app_l (s t x : jsstring) :
  occursIn s t -> occursIn s (t ++ x).
Proof.
  intros (a & b & ->). exists a, (b ++ x). rewrite <- !app_assoc.
  reflexivity.
Qed.

Lemma occursIn_quoted (u rest : jsstring) :
  occursIn (dquote ++ u ++ dquote) (dquote ++ u ++ dquote ++ rest).
Proof. exists [], rest. rewrite <- !app_assoc. reflexivity. Qed.

(** X24: the prompts sent to the text model agree with the constraints of
    the platform. For either platform and any user prompt, the caption
    prompt and the hashtag prompt quote the user prompt as it is; the
    caption prompt asks for captions under the [maxCaptionLength] of the
    platform, and the hashtag prompt asks for between [minHashtags] and
    [maxHashtags] hashtags. *)
Theorem prompts_state_the_constraints :
  forall (userPrompt : jsstring) (platform : Platform),
    let c := getPlatformConstraints platform in
    occursIn (dquote ++ userPrompt ++ dquote)
      (buildCaptionPrompt userPrompt platform)
    /\ occursIn (lit "under " ++ decimal (maxCaptionLength c)
                   ++ lit " characters")
         (buildCaptionPrompt userPrompt platform)
    /\ occursIn (dquote ++ userPrompt ++ dquote)
         (buildHashtagPrompt userPrompt platform)
    /\ occursIn (lit "Generate " ++ decimal (minHashtags c) ++ lit "-"
                   ++ decimal (maxHashtags c) ++ lit " ")
         (buildHashtagPrompt userPrompt platform).
Proof.
  intros userPrompt platform c. subst c.
  destruct platform; unfold buildCaptionPrompt, buildHashtagPrompt;
    (split; [apply occursIn_app_r, occursIn_quoted|]);
    (split; [do 7 apply occursIn_app_r; apply occursIn_app_l|]);
    [exists (lit "Each caption should be "),
       (lit ", use emojis appropriately, and be optimized for Instagram engagement.")
    | | exists (lit "Each caption should be "),
       (lit ", maintain a professional tone, and include a call-to-action.")
    | ];
    try (vm_compute; reflexivity);
    (split; [apply occursIn_app_r, occursIn_quoted|]);
    apply occursIn_app_l;
    [exists [], (lit "relevant Instagram hashtags for: ")
    | exists [], (lit "professional LinkedIn hashtags for: ")];
    vm_compute; reflexivity.
Qed.

End Prompts.

(** ** The keys of a project, on an example *)

Lemma project_keys_distinct_witness :
  let platforms := [Design.instagram; Design.linkedin] in
  let w := Sample.world Sample.sixImages in
  let w1 := snd (Design.generateImages (lit "user-123") (lit "Diwali Sale")
                   (lit "p1") 3 platforms w) in
  let w2 := snd (Design.generateVideo (lit "user-123") (lit "Diwali Sale")
                   (lit "p1") w1) in
  NoDup platforms
  /\ exists puts, Design.s3Puts w2 = Design.s3Puts w ++ puts /\ NoDup puts.
Proof.
  intros platforms w w1 w2.
  assert (Hp : NoDup platforms).
  { apply NoDup_cons. split; [|apply NoDup_singleton].
    intros Hin. apply list_elem_of_singleton in Hin. discriminate. }
  split; [exact Hp|].
  exact (project_keys_distinct (lit "user-123") (lit "Diwali Sale")
           (lit "p1") 3 platforms w Hp).
Defined.
